(** * AIorganizationSystem: the naming-and-placement decision engine

    A shallow embedding of the decision logic of [ai_naming_agent.py],
    [directory_analyzer.py] and [main_orchastrator.py], and the properties
    of it that the specification states.

    Conventions.  A Python [str] is a [string]; each [ascii] stands for one
    code point, so that the strings of the model are those of Latin-1 (the
    patterns and literals of the program are ASCII, and a character outside
    ASCII is in none of its character classes).  The
    outside world (the generation service, the clock, the person at the
    terminal, the file system's faults) is a record of oracles the functions
    take as an argument.  Code that can raise lives in a small state and
    exception monad. *)

From Stdlib Require Import Ascii String List Arith Lia Bool.
From stdpp Require Import base tactics option list sets gmap strings pretty sorting.

Local Open Scope list_scope.

#[local] Set Warnings "-register-all".

(** ** Python string primitives *)

Module PyStr.

Definition code (c : ascii) : nat := nat_of_ascii c.

Definition in_range (lo hi c : ascii) : bool :=
  (code lo <=? code c) && (code c <=? code hi).

Definition is_lower (c : ascii) : bool := in_range "a"%char "z"%char c.
Definition is_upper (c : ascii) : bool := in_range "A"%char "Z"%char c.
Definition is_digit (c : ascii) : bool := in_range "0"%char "9"%char c.

(** The class [[a-zA-Z0-9]]. *)
Definition is_alnum (c : ascii) : bool :=
  is_lower c || is_upper c || is_digit c.

Definition newline : ascii := "010"%char.
Definition backslash : ascii := "\"%char.

(** [str.isspace] on one character: TAB..CR, FS..US, space, and the two
    Latin-1 blanks NEL and NBSP. *)
Definition is_space (c : ascii) : bool :=
  let n := code c in
  ((9 <=? n) && (n <=? 13)) || ((28 <=? n) && (n <=? 32))
  || (n =? 133) || (n =? 160).

(** The capital letters of Latin-1 beyond ASCII: U+00C0 to U+00DE without
    the multiplication sign U+00D7. *)
Definition is_upper_latin1 (c : ascii) : bool :=
  let n := code c in (192 <=? n) && (n <=? 222) && negb (n =? 215).

Definition lower_char (c : ascii) : ascii :=
  if is_upper c || is_upper_latin1 c then ascii_of_nat (code c + 32) else c.

Fixpoint map_chars (f : ascii -> ascii) (s : string) : string :=
  match s with
  | EmptyString => EmptyString
  | String c r => String (f c) (map_chars f r)
  end.

(** [s.lower()] *)
Definition lower (s : string) : string := map_chars lower_char s.

Fixpoint forallb_chars (p : ascii -> bool) (s : string) : bool :=
  match s with
  | EmptyString => true
  | String c r => p c && forallb_chars p r
  end.

(** [needle in hay] *)
Fixpoint contains (needle hay : string) : bool :=
  String.prefix needle hay
  || match hay with
     | EmptyString => false
     | String _ r => contains needle r
     end.

(** [s.startswith(p)] and [s.endswith(p)] for a one-character [p]. *)
Definition starts_with_char (c : ascii) (s : string) : bool :=
  match s with
  | String d _ => Ascii.eqb c d
  | EmptyString => false
  end.

Fixpoint ends_with_char (c : ascii) (s : string) : bool :=
  match s with
  | EmptyString => false
  | String d EmptyString => Ascii.eqb c d
  | String _ r => ends_with_char c r
  end.

(** [s.lstrip()], [s.rstrip()], [s.strip()] *)
Fixpoint lstrip (s : string) : string :=
  match s with
  | EmptyString => EmptyString
  | String c r => if is_space c then lstrip r else s
  end.

Fixpoint rstrip (s : string) : string :=
  match s with
  | EmptyString => EmptyString
  | String c r =>
      match rstrip r with
      | EmptyString => if is_space c then EmptyString else String c EmptyString
      | r' => String c r'
      end
  end.

Definition strip (s : string) : string := rstrip (lstrip s).

(** [sep.join(parts)] *)
Definition join (sep : string) (parts : list string) : string :=
  String.concat sep parts.

(** Truthiness of a [str]: the empty string is false. *)
Definition truthy (s : string) : bool :=
  match s with EmptyString => false | _ => true end.

(** Truthiness of an [Optional[str]]: [None] and [""] are false. *)
Definition truthy_opt (o : option string) : bool :=
  match o with Some s => truthy s | None => false end.

End PyStr.

(** ** NameValidator: [DirectoryNamingAgent.validate_directory_name] *)

Module NameValidator.
Import PyStr.

(** [[a-zA-Z0-9]*$] against the rest of the subject.  Without
    [re.MULTILINE], [$] matches at the very end of the subject and also
    just before a line feed that is its last character.  The class does
    not contain the line feed, so the greedy star never has to give a
    character back. *)
Fixpoint match_alnum_star_end (s : string) : bool :=
  match s with
  | EmptyString => true
  | String c r =>
      if is_alnum c then match_alnum_star_end r
      else Ascii.eqb c newline && String.eqb r EmptyString
  end.

(** [re.match(r'^[a-z][a-zA-Z0-9]*$', name)] is not [None]. *)
Definition re_match_camel (name : string) : bool :=
  match name with
  | EmptyString => false
  | String c r => is_lower c && match_alnum_star_end r
  end.

Definition max_name_length : nat := 75.

Definition validate_directory_name (name : string) : bool :=
  if (max_name_length <? String.length name)%nat then false
  else if negb (re_match_camel name) then false
  else true.

(** The rule as the specification words it: at most 75 characters, the
    first a lowercase letter, every other one alphanumeric. *)
Definition spec_valid (name : string) : Prop :=
  (String.length name <= 75)%nat /\
  exists c r, name = String c r /\ is_lower c = true /\
              forallb_chars is_alnum r = true.

End NameValidator.

(** ** ContentAnalyzer: [DirectoryAnalyzer] *)

Module ContentAnalyzer.
Import PyStr.

(** *** The directory as the analyzer reads it

    A directory is the list of its entries in the order the operating
    system enumerates them ([os.scandir]); [None] stands for a listing that
    raises [PermissionError].  A file carries what [stat] and [read] return,
    [None] when the call raises.  [Other] is an entry that is neither a
    regular file nor a directory (a socket, a dangling link). *)
Inductive Node : Type :=
| File (name : string) (size : option N) (content : option string)
| Dir (name : string) (listing : option (list Node))
| Other (name : string) (size : option N).

Definition node_name (n : Node) : string :=
  match n with
  | File name _ _ | Dir name _ | Other name _ => name
  end.

Definition is_file (n : Node) : bool :=
  match n with File _ _ _ => true | _ => false end.

Definition is_dir (n : Node) : bool :=
  match n with Dir _ _ => true | _ => false end.

Definition node_size (n : Node) : option N :=
  match n with
  | File _ sz _ | Other _ sz => sz
  | Dir _ _ => None
  end.

(** *** Configuration, as set in [__init__] *)

Definition readable_extensions : gset string :=
  list_to_set [".txt"; ".md"; ".py"; ".js"; ".html"; ".css"; ".json"; ".xml";
               ".yaml"; ".yml"; ".cfg"; ".ini"; ".log"; ".csv"; ".tsv"].
Definition max_snippet_length : nat := 500.
Definition max_files_to_analyze : nat := 25.
Definition lines_to_extract : nat := 10.
Definition default_max_depth : nat := 3.

(** *** Dictionaries

    A [dict] keeps its keys in insertion order; assigning to a key that is
    present replaces the value where it stands. *)
Fixpoint dict_set {V : Type} (k : string) (v : V) (d : list (string * V))
  : list (string * V) :=
  match d with
  | [] => [(k, v)]
  | (k', v') :: r =>
      if String.eqb k k' then (k, v) :: r else (k', v') :: dict_set k v r
  end.

Definition dict_keys {V : Type} (d : list (string * V)) : list string :=
  map fst d.

(** *** [pathlib] *)

(** The part of a name from its last dot on, [Path.suffix]: empty when the
    name has no dot, starts with its only dot, or ends in a dot. *)
Fixpoint from_last_dot (s : string) : option string :=
  match s with
  | EmptyString => None
  | String c r =>
      match from_last_dot r with
      | Some t => Some t
      | None => if Ascii.eqb c "."%char then Some s else None
      end
  end.

Definition suffix (name : string) : string :=
  match name with
  | EmptyString => EmptyString
  | String _ r =>
      match from_last_dot r with
      | Some t => if 1 <? String.length t then t else EmptyString
      | None => EmptyString
      end
  end.

(** [parent / name] on relative paths; the empty path is the directory the
    walk started from. *)
Definition rel_child (parent name : string) : string :=
  match parent with
  | EmptyString => name
  | _ => parent +:+ "/" +:+ name
  end.

(** [directory.rglob('*')]: every directory of the tree in pre-order, each
    contributing all of its entries in enumeration order (pathlib up to
    Python 3.12); a directory that cannot be listed contributes nothing.
    [path] is the path of [n] relative to the root of the walk. *)
Fixpoint rglob_from (path : string) (n : Node) {struct n} : list (string * Node) :=
  match n with
  | Dir _ (Some items) =>
      map (fun m => (rel_child path (node_name m), m)) items
      ++ flat_map (fun m => rglob_from (rel_child path (node_name m)) m) items
  | _ => []
  end.

Definition rglob (directory : Node) : list (string * Node) :=
  rglob_from EmptyString directory.

(** *** [create_file_tree] *)

(** The value [create_file_tree] returns: a [dict] from entry names to a
    descriptor string or to the [dict] of a sub-directory. *)
Inductive Tree : Type :=
| Leaf (descr : string)
| Sub (entries : list (string * Tree)).

(** The sort key [(x.is_file(), x.name.lower())] and the order of Python
    tuples on it: [False] before [True], then strings by code point. *)
Definition sort_key (n : Node) : bool * string :=
  (is_file n, lower (node_name n)).

Definition key_le (a b : bool * string) : bool :=
  match a.1, b.1 with
  | false, true => true
  | true, false => false
  | _, _ => String.leb a.2 b.2
  end.

(** [sorted(items, key=...)]: a stable sort, here by insertion; an entry
    stays in front of the later entries whose key equals its own. *)
Fixpoint insert_by_key (x : Node) (l : list Node) : list Node :=
  match l with
  | [] => [x]
  | y :: r =>
      if key_le (sort_key x) (sort_key y) then x :: l
      else y :: insert_by_key x r
  end.

Definition sorted_by_key (l : list Node) : list Node :=
  fold_right insert_by_key [] l.

(** [f"{x:.1f}"] for the quotient [num / den] of two integers: one decimal,
    a tie rounded to the even neighbour. *)
Definition one_decimal (num den : N) : string :=
  let tenths := (10 * num / den)%N in
  let r := (10 * num mod den)%N in
  let q := if ((den <? 2 * r) || ((2 * r =? den) && N.odd tenths))%N
           then N.succ tenths else tenths in
  pretty (q / 10)%N +:+ "." +:+ pretty (q mod 10)%N.

Fixpoint format_units (units : list string) (size den : N) : string :=
  match units with
  | [] => one_decimal size den +:+ "TB"
  | unit :: rest =>
      if (size <? 1024 * den)%N then one_decimal size den +:+ unit
      else format_units rest size (1024 * den)%N
  end.

(** [format_file_size].  The source divides a float by [1024.0] at each
    unit; below 2^53 bytes every such quotient is exact in binary floating
    point, so the running value is the rational [size / den] kept here. *)
Definition format_file_size (size_bytes : N) : string :=
  format_units ["B"; "KB"; "MB"; "GB"] size_bytes 1%N.

(** [item.suffix or 'no_ext'] *)
Definition suffix_or_no_ext (name : string) : string :=
  if truthy (suffix name) then suffix name else "no_ext".

Definition file_descr (name : string) (size : option N) : string :=
  match size with
  | Some sz => format_file_size sz +:+ " | " +:+ suffix_or_no_ext name
  | None => "unknown_size"
  end.

(** [build_tree(path, current_depth)] for a directory [path].  The
    recursion is on [levels = max_depth + 1 - current_depth], the levels
    still to be read: [current_depth > max_depth] is [levels = 0], and the
    call at [current_depth + 1] has one level less.  The function is only
    ever applied to directories (the target, then the entries for which
    [is_dir()] holds); the last case gives the other nodes an empty tree. *)
Fixpoint build_tree (levels : nat) (path : Node) : list (string * Tree) :=
  match levels with
  | 0 => [("...", Leaf "max_depth_reached")]
  | S deeper =>
      match path with
      | Dir _ (Some items) =>
          fold_left
            (fun tree item =>
               match item with
               | Dir name _ =>
                   dict_set (name +:+ "/") (Sub (build_tree deeper item)) tree
               | File name size _ | Other name size =>
                   dict_set name (Leaf (file_descr name size)) tree
               end)
            (sorted_by_key items) []
      | Dir _ None => [("[ACCESS_DENIED]", Leaf "permission_error")]
      | File _ _ _ | Other _ _ => []
      end
  end.

(** [create_file_tree(directory)] with [max_depth = 3]: [build_tree] at
    depth 0. *)
Definition create_file_tree (directory : Node) : list (string * Tree) :=
  build_tree (S default_max_depth) directory.

(** *** [extract_text_snippets] *)

(** [s.split('\n')] *)
Fixpoint split_lines (s : string) : list string :=
  match s with
  | EmptyString => [EmptyString]
  | String c r =>
      if Ascii.eqb c newline then EmptyString :: split_lines r
      else match split_lines r with
           | p :: ps => String c p :: ps
           | [] => [String c EmptyString]
           end
  end.

(** [s[:n]] and [s[-n:]] for [n > 0] *)
Fixpoint first_chars (n : nat) (s : string) : string :=
  match n, s with
  | S n', String c r => String c (first_chars n' r)
  | _, _ => EmptyString
  end.

Fixpoint skip_chars (n : nat) (s : string) : string :=
  match n, s with
  | S n', String _ r => skip_chars n' r
  | _, _ => s
  end.

Definition last_chars (n : nat) (s : string) : string :=
  skip_chars (String.length s - n) s.

(** [l[-n:]] for [n > 0] *)
Definition last_items {A : Type} (n : nat) (l : list A) : list A :=
  drop (length l - n) l.

Definition snippet_of (extract_from_end : bool) (content : string) : string :=
  if extract_from_end then
    let lines := split_lines content in
    let relevant_lines :=
      if lines_to_extract <? length lines
      then last_items lines_to_extract lines else lines in
    "[end] " +:+ last_chars max_snippet_length (join (String newline "") relevant_lines)
  else
    let lines := take lines_to_extract (split_lines content) in
    "[beginning] " +:+ first_chars max_snippet_length (join (String newline "") lines).

(** The body of the loop over [rglob('*')], with the counter threaded
    through.  A file whose [read] raises is skipped and not counted. *)
Fixpoint scan_files (extract_from_end : bool) (paths : list (string * Node))
    (file_count : nat) (snippets : list (string * string)) : list (string * string) :=
  match paths with
  | [] => snippets
  | (relative_path, file_path) :: rest =>
      if max_files_to_analyze <=? file_count then snippets
      else if negb (is_file file_path) then
        scan_files extract_from_end rest file_count snippets
      else if negb (bool_decide (lower (suffix (node_name file_path)) ∈ readable_extensions)) then
        scan_files extract_from_end rest file_count snippets
      else
        match file_path with
        | File _ _ (Some content) =>
            scan_files extract_from_end rest (S file_count)
              (dict_set relative_path (snippet_of extract_from_end content) snippets)
        | _ => scan_files extract_from_end rest file_count snippets
        end
  end.

Definition extract_text_snippets (directory : Node) (extract_from_end : bool)
  : list (string * string) :=
  scan_files extract_from_end (rglob directory) 0 [].

(** *** [create_analysis_payload] *)

Record Metadata : Type := {
  total_files_analyzed : nat;
  max_depth : nat;
  snippet_max_length : nat;
  lines_extracted : nat;
  extraction_type : string
}.

Record Payload : Type := {
  directory_path : string;
  file_tree : list (string * Tree);
  text_snippets : list (string * string);
  analysis_metadata : Metadata
}.

(** [directory_path] is [str(directory)], and [listing] the entries found
    in that directory ([None] when it cannot be listed). *)
Definition create_analysis_payload (directory_path : string)
    (listing : option (list Node)) (extract_from_end : bool) : Payload :=
  let directory := Dir directory_path listing in
  let file_tree := create_file_tree directory in
  let text_snippets := extract_text_snippets directory extract_from_end in
  {| directory_path := directory_path;
     file_tree := file_tree;
     text_snippets := text_snippets;
     analysis_metadata :=
       {| total_files_analyzed := length text_snippets;
          max_depth := 3;
          snippet_max_length := max_snippet_length;
          lines_extracted := lines_to_extract;
          extraction_type :=
            if extract_from_end then "end_of_files" else "beginning_of_files" |} |}.

Definition create_retry_analysis_payload (directory_path : string)
    (listing : option (list Node)) : Payload :=
  create_analysis_payload directory_path listing true.

(** *** Vocabulary of the properties of the file tree *)



(** A directory as a file system has it: at every level the names are
    distinct and hold no slash. *)
Fixpoint well_formed (n : Node) : Prop :=
  match n with
  | Dir _ (Some items) =>
      NoDup (map node_name items)
      /\ fold_right
           (fun m rest =>
              contains "/" (node_name m) = false /\ well_formed m /\ rest)
           True items
  | _ => True
  end.

(** [a] may stand before [b]: its sort key is at most that of [b]. *)
Definition key_before (a b : Node) : Prop :=
  key_le (sort_key a) (sort_key b) = true.


End ContentAnalyzer.

(** ** NamingClient: name generation in [DirectoryNamingAgent] *)

Module NamingClient.
Import PyStr.
Export NameValidator.
Import ContentAnalyzer.

(** The two prompts are fixed English templates around the taxonomy, the
    payload and, when there is one, the feedback.  The text of the templates
    is not reproduced: a prompt is represented by what varies in it. *)
Inductive Prompt : Type :=
| NamingPrompt (analysis_data : Payload)
| NamingPromptWithFeedback (analysis_data : Payload) (feedback : option string).

Definition create_naming_prompt (analysis_data : Payload) : Prompt :=
  NamingPrompt analysis_data.

(** [if feedback:] leaves out both [None] and the empty string. *)
Definition create_naming_prompt_with_feedback (analysis_data : Payload)
    (feedback : option string) : Prompt :=
  NamingPromptWithFeedback analysis_data
    (if truthy_opt feedback then feedback else None).

(** What [self.client.messages.create(...)] followed by
    [response.content[0].text] comes to: a text, or an exception. *)
Inductive Response : Type :=
| Reply (text : string)
| Failure.

(** [self.client]: [None] without an API key, else the service. *)
Definition Client : Type := option (Prompt -> Response).

(** The calendar date [datetime.now()] reads; years run from 1 to 9999. *)
Record Date : Type := { year : nat; month : nat; day : nat }.

Definition digit_char (n : nat) : ascii := ascii_of_nat (48 + n mod 10).

(** [strftime("%Y%m%d")]: four, two and two digits. *)
Definition strftime_Ymd (d : Date) : string :=
  String (digit_char (year d / 1000)) (String (digit_char (year d / 100))
  (String (digit_char (year d / 10)) (String (digit_char (year d))
  (String (digit_char (month d / 10)) (String (digit_char (month d))
  (String (digit_char (day d / 10)) (String (digit_char (day d)) EmptyString))))))).

Definition create_fallback_name (now : Date) : string :=
  "processedAudio" +:+ strftime_Ymd now.

(** The part of [generate_directory_name] that follows the request. *)
Definition name_of_response (now : Date) (r : Response) : string :=
  match r with
  | Failure => create_fallback_name now
  | Reply text =>
      let generated_name := strip text in
      if validate_directory_name generated_name then generated_name
      else create_fallback_name now
  end.

Definition generate_directory_name (client : Client) (now : Date)
    (analysis_data : Payload) : string :=
  match client with
  | None => create_fallback_name now
  | Some messages_create =>
      name_of_response now (messages_create (create_naming_prompt analysis_data))
  end.

Definition generate_directory_name_with_feedback (client : Client) (now : Date)
    (analysis_data : Payload) (feedback : option string) : string :=
  match client with
  | None => create_fallback_name now
  | Some messages_create =>
      name_of_response now
        (messages_create (create_naming_prompt_with_feedback analysis_data feedback))
  end.

End NamingClient.

(** ** TaxonomyRouter: [determine_optimal_parent_directory] *)

Module TaxonomyRouter.
Import PyStr.

Record Mapping : Type := {
  primary_path : string;
  context_mappings : list (string * string)
}.

(** [self.data_home_mapping]; the association lists keep the order in which
    the source writes the keys, which is the order a [dict] iterates in. *)
Definition data_home_mapping : list (string * Mapping) :=
  [ ("aud", {| primary_path := "audio";
               context_mappings :=
                 [ ("book", "audio/books"); ("mus", "audio/music");
                   ("pod", "audio/podcasts"); ("rec", "audio/recordings");
                   ("game", "audio/soundtracks/games");
                   ("mov", "audio/soundtracks/movies");
                   ("show", "audio/soundtracks/television") ] |});
    ("trans", {| primary_path := "documents/Text Documents";
                 context_mappings :=
                   [ ("mtg", "documents/professional");
                     ("intv", "documents/professional");
                     ("res", "documents/professional");
                     ("pers", "documents/personal");
                     ("fin", "documents/personal/financial");
                     ("med", "documents/personal/medical");
                     ("news", "documents/Text Documents") ] |});
    ("doc", {| primary_path := "documents";
               context_mappings :=
                 [ ("tmpl", "documents/_templates");
                   ("contr", "documents/professional/contracts");
                   ("cert", "documents/professional/certifications");
                   ("corr", "documents/professional/correspondence");
                   ("upw", "documents/professional/upwork");
                   ("strat", "documents/professional/strategicAgent");
                   ("pol", "documents/professional/StrategyPolitics");
                   ("fin", "documents/personal/financial");
                   ("med", "documents/personal/medical");
                   ("id", "documents/personal/identity") ] |});
    ("code", {| primary_path := "software";
                context_mappings :=
                  [ ("exp", "software/development/experiments");
                    ("lib", "software/development/libraries");
                    ("tool", "software/development/tools");
                    ("cfg", "software/configurations") ] |});
    ("media", {| primary_path := "images";
                 context_mappings :=
                   [ ("vid", "video"); ("img", "images");
                     ("chart", "images/charts");
                     ("screenshot", "images/screenshots") ] |});
    ("arch", {| primary_path := "archives";
                context_mappings :=
                  [ ("bkup", "archives/backups"); ("dump", "archives/dumps");
                    ("news", "archives/news"); ("sci", "archives/scientific");
                    ("data", "archives/datasets") ] |}) ].

Fixpoint dict_get {V : Type} (k : string) (d : list (string * V)) : option V :=
  match d with
  | [] => None
  | (k', v) :: r => if String.eqb k k' then Some v else dict_get k r
  end.

(** [os.path.join(a, *p)] of [posixpath]. *)
Definition join_step (path b : string) : string :=
  if starts_with_char "/"%char b then b
  else if negb (truthy path) || ends_with_char "/"%char path then path +:+ b
  else path +:+ "/" +:+ b.

Definition os_path_join (a : string) (p : list string) : string :=
  fold_left join_step p a.

(** [str(source_path).replace("\\", "/")] *)
Definition normalize_source (source_path : string) : string :=
  map_chars (fun c => if Ascii.eqb c backslash then "/"%char else c) source_path.

(** The source pattern of the special rule: the text [News/transcripts]
    occurs in the path, its backslashes read as slashes. *)
Definition news_pattern_in (source_path : string) : bool :=
  contains "News/transcripts" (normalize_source source_path).

(** The test of the special rule as the source writes it, including
    [if source_path:] and the second, redundant operand of [or]. *)
Definition is_news_transcript_source (source_path : option string) : bool :=
  match source_path with
  | Some p =>
      truthy p &&
      (let normalized_source := normalize_source p in
       contains "News/transcripts" normalized_source
       || contains "/News/transcripts" normalized_source)
  | None => false
  end.

(** Group 1 of [re.match(r'^([a-z]+)', name)]: the leading run of lowercase
    letters; there is no match when it is empty. *)
Fixpoint leading_lowercase (s : string) : string :=
  match s with
  | String c r => if is_lower c then String c (leading_lowercase r) else EmptyString
  | EmptyString => EmptyString
  end.

(** The first pair of [context_mappings.items()] whose key occurs in the
    lowercased name. *)
Fixpoint first_context_match (lowered_name : string) (items : list (string * string))
  : option string :=
  match items with
  | [] => None
  | (context_abbrev, context_path) :: rest =>
      if contains context_abbrev lowered_name then Some context_path
      else first_context_match lowered_name rest
  end.

Definition text_documents_fragment : string :=
  "filetree/roots/documents/Text Documents".

Definition determine_optimal_parent_directory (directory_name data_home_root : string)
    (source_path : option string) : string :=
  if is_news_transcript_source source_path then
    os_path_join data_home_root [text_documents_fragment]
  else
    match leading_lowercase directory_name with
    | EmptyString => os_path_join data_home_root ["filetree/roots/documents"]
    | content_type =>
        match dict_get content_type data_home_mapping with
        | None => os_path_join data_home_root ["filetree/roots/documents"]
        | Some mapping =>
            match first_context_match (lower directory_name) (context_mappings mapping) with
            | Some context_path =>
                os_path_join data_home_root ["filetree/roots"; context_path]
            | None =>
                os_path_join data_home_root ["filetree/roots"; primary_path mapping]
            end
        end
    end.

End TaxonomyRouter.

(** [generate_directory_name_and_path] and its variant with feedback. *)
Module NamingAgent.
Import PyStr.
Export NamingClient.
Export TaxonomyRouter.
Import ContentAnalyzer.

Definition generate_directory_name_and_path_with_feedback (client : Client) (now : Date)
    (analysis_data : Payload) (data_home_root : string) (source_path : option string)
    (feedback : option string) : option string * option string :=
  let directory_name :=
    generate_directory_name_with_feedback client now analysis_data feedback in
  if negb (truthy directory_name) then (None, None)
  else
    let optimal_parent :=
      determine_optimal_parent_directory directory_name data_home_root source_path in
    (Some directory_name, Some optimal_parent).

Definition generate_directory_name_and_path (client : Client) (now : Date)
    (analysis_data : Payload) (data_home_root : string) (source_path : option string)
  : option string * option string :=
  generate_directory_name_and_path_with_feedback
    client now analysis_data data_home_root source_path None.

End NamingAgent.

(** ** PlacementResolver: the conflict probe of [main] *)

Module PlacementResolver.

(** The [while temp_final_path.exists()] loop.  [existing] holds the names
    present in the destination parent, [temp_name] is the name of
    [temp_final_path].  The source puts no bound on the loop; [fuel] bounds
    the iterations here, and [None] means the bound was hit. *)
Fixpoint probe (fuel : nat) (existing : gset string) (original_new_name : string)
    (temp_name : string) (counter : nat) : option (string * nat) :=
  match fuel with
  | 0 => None
  | S fuel' =>
      if bool_decide (temp_name ∈ existing) then
        let conflict_name := original_new_name +:+ pretty counter in
        probe fuel' existing original_new_name conflict_name (S counter)
      else Some (temp_name, counter)
  end.

(** The probe and the [if counter > 1:] that follows it: the name the
    directory will get. *)
Definition resolve_conflict (fuel : nat) (existing : gset string)
    (new_directory_name : string) : option string :=
  match probe fuel existing new_directory_name new_directory_name 1 with
  | Some (temp_name, counter) =>
      Some (if 1 <? counter then temp_name else new_directory_name)
  | None => None
  end.

(** The name tried after [j] conflicts: the name itself, then the name
    followed by [1], [2], ... *)
Definition candidate (new_directory_name : string) (j : nat) : string :=
  match j with
  | 0 => new_directory_name
  | _ => new_directory_name +:+ pretty j
  end.

(** One iteration more than there are names in the parent always suffices
    (see [probe_finds_first_free]). *)
Definition resolve (existing : gset string) (new_directory_name : string)
  : option string :=
  resolve_conflict (S (size existing)) existing new_directory_name.

End PlacementResolver.

(** ** [pathlib]: pure paths of the POSIX flavour *)

Module PurePath.
Import PyStr.

(** A parsed path: its root ([""], ["/"] or ["//"]) and the components
    that follow it. *)
Record Path : Type := { root : string; parts : list string }.

(** [s.split('/')] *)
Fixpoint split_sep (s : string) : list string :=
  match s with
  | EmptyString => [EmptyString]
  | String c r =>
      if Ascii.eqb c "/"%char then EmptyString :: split_sep r
      else match split_sep r with
           | p :: ps => String c p :: ps
           | [] => [String c EmptyString]
           end
  end.

(** [part.lstrip('/')] *)
Fixpoint lstrip_sep (s : string) : string :=
  match s with
  | EmptyString => EmptyString
  | String c r => if Ascii.eqb c "/"%char then lstrip_sep r else s
  end.

(** [splitroot]: exactly two leading slashes are kept as the root, any
    other number of them is one slash. *)
Definition splitroot (part : string) : string * string :=
  if starts_with_char "/"%char part then
    let stripped_part := lstrip_sep part in
    if String.length part - String.length stripped_part =? 2
    then ("//", stripped_part) else ("/", stripped_part)
  else ("", part).

(** The components [parse_parts] keeps: [x for x in rel.split('/') if x
    and x != '.']. *)
Definition components (rel : string) : list string :=
  List.filter (fun x => truthy x && negb (String.eqb x ".")) (split_sep rel).

(** [Path(s)] *)
Definition parse (s : string) : Path :=
  let '(root, rel) := splitroot s in
  {| root := root; parts := components rel |}.

(** [str(p)]: the root and the components joined by slashes, or ["."] for
    the empty path. *)
Definition str (p : Path) : string :=
  let formatted := root p +:+ join "/" (parts p) in
  if truthy formatted then formatted else ".".

(** [p / key] for a string [key]: a [key] with a root replaces [p]. *)
Definition joinpath (p : Path) (key : string) : Path :=
  let q := parse key in
  if truthy (root q) then q
  else {| root := root p; parts := parts p ++ parts q |}.

(** [p.parent]: the path without its last component; a path without
    components is its own parent. *)
Definition parent (p : Path) : Path :=
  {| root := root p; parts := removelast (parts p) |}.

End PurePath.

(** ** Effects: a state and exception monad *)

Module Exec.

(** The exceptions of the model: what an I/O call raised, with [str(e)]. *)
Inductive Exn : Type := OSError (message : string).

Definition message_of (e : Exn) : string :=
  match e with OSError m => m end.

Inductive Result (A : Type) : Type :=
| Ok (a : A)
| Raised (e : Exn).
Arguments Ok {A} a.
Arguments Raised {A} e.

(** A computation over a state [W] that returns or raises. *)
Definition M (W A : Type) : Type := W -> Result A * W.

Definition ret {W A : Type} (a : A) : M W A := fun w => (Ok a, w).

Definition bind {W A B : Type} (m : M W A) (k : A -> M W B) : M W B :=
  fun w =>
    match m w with
    | (Ok a, w') => k a w'
    | (Raised e, w') => (Raised e, w')
    end.

Definition raise {W A : Type} (e : Exn) : M W A := fun w => (Raised e, w).

(** [try: body except Exception as e: handler(e)] *)
Definition try_except {W A : Type} (body : M W A) (handler : Exn -> M W A) : M W A :=
  fun w =>
    match body w with
    | (Ok a, w') => (Ok a, w')
    | (Raised e, w') => handler e w'
    end.

Definition gets {W A : Type} (f : W -> A) : M W A := fun w => (Ok (f w), w).
Definition modify {W : Type} (f : W -> W) : M W unit := fun w => (Ok tt, f w).

(** The monad operations under stdpp's notations [x ← m; k] and [m;; k]. *)
#[global] Instance M_ret {W : Type} : MRet (M W) := fun A a => ret a.
#[global] Instance M_bind {W : Type} : MBind (M W) := fun A B k m => bind m k.

End Exec.

(** ** NegotiationLoop and placement: [main] *)

Module Orchestrator.
Import PyStr.
Import Exec.
Import ContentAnalyzer.
Export NamingAgent.
Export PlacementResolver.

(** The values of the [user_action] column. *)
Inductive Action : Type :=
| accept | retry | cancel | generation_failed | max_retries_reached
| moved_successfully | move_failed | local_rename_success | rename_failed
| total_failure.

#[global] Instance Action_eq_dec : EqDecision Action.
Proof. solve_decision. Defined.

(** The arguments of one [log_naming_attempt] call.  The other columns of
    the row are computed from these, the clock and the analysis summary. *)
Record LogEntry : Type := {
  entry_session_id : string;
  attempt_number : nat;
  source_path : string;
  generated_name : string;
  optimal_parent : string;
  user_action : Action;
  user_feedback : string;
  final_destination : string
}.

(** What [prompt_user_naming_satisfaction] returns: ["accept"] or
    ["retry"]. *)
Inductive Choice : Type := UserAccept | UserRetry.

Definition choice_eqb (a b : Choice) : bool :=
  match a, b with
  | UserAccept, UserAccept | UserRetry, UserRetry => true
  | _, _ => false
  end.

(** One call of a generation method, as the loop made it: the value of
    [retry_count], the payload and the [feedback] argument passed, and the
    [feedback_history] list at that moment. *)
Record GenCall : Type := {
  call_retry_count : nat;
  call_payload : Payload;
  call_feedback : option string;
  call_history : list string
}.

(** The mutable world of a run: the rows appended to the CSV log, the
    number of calls of the logger, the generation calls made so far (kept
    for the properties; the program has no such list), and the path at which
    the target directory currently is. *)
Record World : Type := {
  log_file : list LogEntry;
  log_calls : nat;
  generation_calls : list GenCall;
  location : string
}.

(** The outside of the program.  Oracles are indexed by [retry_count], the
    logger's by the number of earlier calls to it.  [processed_subdir] tells
    whether the audio run returned its sub-directory, and [existing_in]
    gives the names present in the directory of a path. *)
Record Env : Type := {
  data_home_root : option string;
  directory_path : string;
  processed_subdir : bool;
  session_id : string;
  has_api_key : bool;
  service : nat -> Prompt -> Response;
  clock : nat -> Date;
  choice : nat -> Choice;
  typed_feedback : nat -> string;
  directory_at : nat -> option (list Node);
  log_fault : nat -> option Exn;
  existing_in : string -> gset string;
  consent : bool;
  makedirs_fault : option Exn;
  move_fault : option Exn;
  rename_fault : option Exn
}.

(** [str(parent / name)] *)
Definition path_child (parent : PurePath.Path) (name : string) : string :=
  PurePath.str (PurePath.joinpath parent name).

(** [target_directory]: the sub-directory [transcribed_audio] the audio
    run returned, or else [Path(directory_path)]. *)
Definition target_path (env : Env) : PurePath.Path :=
  if processed_subdir env
  then PurePath.joinpath (PurePath.parse (directory_path env)) "transcribed_audio"
  else PurePath.parse (directory_path env).

(** [str(target_directory)] *)
Definition target_directory (env : Env) : string :=
  PurePath.str (target_path env).

(** [target_directory.parent] *)
Definition parent_dir (env : Env) : PurePath.Path :=
  PurePath.parent (target_path env).

(** [DirectoryNamingAgent(api_key)]: the client exists when the key is
    set; [k] selects the service's answer to the call of attempt [k]. *)
Definition client_at (env : Env) (k : nat) : Client :=
  if has_api_key env then Some (service env k) else None.

(** [if data_home_root:] *)
Definition active_root (env : Env) : option string :=
  match data_home_root env with
  | Some root => if truthy root then Some root else None
  | None => None
  end.

Definition max_retries : nat := 3.

(** The local variables of [main] that the loop reads and writes. *)
Record Session : Type := {
  retry_count : nat;
  feedback_history : list string;
  current_analysis_data : Payload;
  new_directory_name : option string;
  optimal_parent_path : option string
}.

Definition initial_session (env : Env) : Session :=
  {| retry_count := 0;
     feedback_history := [];
     current_analysis_data :=
       create_analysis_payload (target_directory env) (directory_at env 0) false;
     new_directory_name := None;
     optimal_parent_path := None |}.

Definition initial_world (env : Env) : World :=
  {| log_file := []; log_calls := 0; generation_calls := [];
     location := target_directory env |}.

(** [log_naming_attempt]: opens the CSV file and appends a row.  Nothing
    in it or around its calls in the loop catches what [open] or the writer
    raises. *)
Definition count_log_call (w : World) : World :=
  {| log_file := log_file w; log_calls := S (log_calls w);
     generation_calls := generation_calls w; location := location w |}.

Definition append_row (entry : LogEntry) (w : World) : World :=
  {| log_file := log_file w ++ [entry]; log_calls := log_calls w;
     generation_calls := generation_calls w; location := location w |}.

Definition log_naming_attempt (env : Env) (entry : LogEntry) : M World unit :=
  fun w =>
    match log_fault env (log_calls w) with
    | Some e => (Raised e, count_log_call w)
    | None => (Ok tt, append_row entry (count_log_call w))
    end.

Definition add_generation_call (c : GenCall) (w : World) : World :=
  {| log_file := log_file w; log_calls := log_calls w;
     generation_calls := generation_calls w ++ [c]; location := location w |}.

Definition note_generation_call (c : GenCall) : M World unit :=
  modify (add_generation_call c).

(** [collect_user_feedback] on the line the user typed. *)
Definition collect_user_feedback (typed : string) : string :=
  let feedback := strip typed in
  if negb (truthy feedback) then "Please make the name more specific and descriptive"
  else feedback.

Definition loop_entry (env : Env) (s : Session) (name : string) (action : Action)
    (feedback : string) : LogEntry :=
  {| entry_session_id := session_id env;
     attempt_number := retry_count s + 1;
     source_path := directory_path env;
     generated_name := name;
     optimal_parent := default "" (optimal_parent_path s);
     user_action := action;
     user_feedback := feedback;
     final_destination := "" |}.

(** The first part of the loop body: the generation call of this attempt,
    with or without DATA-HOME integration, first attempt or retry.  The
    debug file [retry_analysis_data_<k>.json] that a retry under DATA-HOME
    writes into the target directory before its call is not part of the
    world kept here. *)
Definition generate (env : Env) (s : Session) : M World Session :=
  let k := retry_count s in
  match active_root env with
  | Some root =>
      if k =? 0 then
        note_generation_call
          {| call_retry_count := k; call_payload := current_analysis_data s;
             call_feedback := None; call_history := feedback_history s |};;
        let '(name, parent) :=
          generate_directory_name_and_path (client_at env k) (clock env k)
            (current_analysis_data s) root (Some (directory_path env)) in
        mret {| retry_count := k; feedback_history := feedback_history s;
                current_analysis_data := current_analysis_data s;
                new_directory_name := name; optimal_parent_path := parent |}
      else
        let data :=
          create_retry_analysis_payload (target_directory env) (directory_at env k) in
        let combined_feedback := join " | " (feedback_history s) in
        note_generation_call
          {| call_retry_count := k; call_payload := data;
             call_feedback := Some combined_feedback;
             call_history := feedback_history s |};;
        let '(name, parent) :=
          generate_directory_name_and_path_with_feedback (client_at env k) (clock env k)
            data root (Some (directory_path env)) (Some combined_feedback) in
        mret {| retry_count := k; feedback_history := feedback_history s;
                current_analysis_data := data;
                new_directory_name := name; optimal_parent_path := parent |}
  | None =>
      if k =? 0 then
        note_generation_call
          {| call_retry_count := k; call_payload := current_analysis_data s;
             call_feedback := None; call_history := feedback_history s |};;
        let name :=
          generate_directory_name (client_at env k) (clock env k)
            (current_analysis_data s) in
        mret {| retry_count := k; feedback_history := feedback_history s;
                current_analysis_data := current_analysis_data s;
                new_directory_name := Some name; optimal_parent_path := None |}
      else
        let data :=
          create_retry_analysis_payload (target_directory env) (directory_at env k) in
        let combined_feedback := join " | " (feedback_history s) in
        note_generation_call
          {| call_retry_count := k; call_payload := data;
             call_feedback := Some combined_feedback;
             call_history := feedback_history s |};;
        let name :=
          generate_directory_name_with_feedback (client_at env k) (clock env k)
            data (Some combined_feedback) in
        mret {| retry_count := k; feedback_history := feedback_history s;
                current_analysis_data := data;
                new_directory_name := Some name; optimal_parent_path := None |}
  end.

(** How one pass through the body of the [while] ends. *)
Inductive Step : Type :=
| Continue (s : Session)
| Break (s : Session).

(** The second part of the loop body: the decision on the candidate. *)
Definition decide_on (env : Env) (s : Session) : M World Step :=
  if negb (truthy_opt (new_directory_name s)) then
    log_naming_attempt env (loop_entry env s "" generation_failed "");;
    mret (Break s)
  else
    let name := default "" (new_directory_name s) in
    let user_choice := choice env (retry_count s) in
    if choice_eqb user_choice UserAccept then
      log_naming_attempt env (loop_entry env s name accept "");;
      mret (Break s)
    else if choice_eqb user_choice UserRetry && (retry_count s <? max_retries) then
      let feedback := collect_user_feedback (typed_feedback env (retry_count s)) in
      let s' :=
        {| retry_count := retry_count s;
           feedback_history := feedback_history s ++ [feedback];
           current_analysis_data := current_analysis_data s;
           new_directory_name := new_directory_name s;
           optimal_parent_path := optimal_parent_path s |} in
      log_naming_attempt env (loop_entry env s' name retry feedback);;
      mret (Continue
        {| retry_count := retry_count s' + 1;
           feedback_history := feedback_history s';
           current_analysis_data := current_analysis_data s';
           new_directory_name := new_directory_name s';
           optimal_parent_path := optimal_parent_path s' |})
    else
      (if max_retries <=? retry_count s then
         log_naming_attempt env (loop_entry env s name max_retries_reached "")
       else
         log_naming_attempt env (loop_entry env s name cancel ""));;
      mret (Break s).

Definition iteration (env : Env) (s : Session) : M World Step :=
  s' ← generate env s; decide_on env s'.

(** [while retry_count <= max_retries: ...].  [fuel] bounds the number of
    passes; [None] means the bound was hit before the loop ended. *)
Fixpoint negotiation_loop (fuel : nat) (env : Env) (s : Session)
  : M World (option Session) :=
  match fuel with
  | 0 => mret None
  | S fuel' =>
      if retry_count s <=? max_retries then
        step ← iteration env s;
        match step with
        | Continue s' => negotiation_loop fuel' env s'
        | Break s' => mret (Some s')
        end
      else mret (Some s)
  end.

(** The loop as [main] runs it; [max_retries + 1] passes are always enough
    (see [negotiate_total]). *)
Definition negotiate (env : Env) : M World (option Session) :=
  negotiation_loop (S max_retries) env (initial_session env).

(** *** After the loop: conflict probe, consent, move *)

Definition set_location (dst : string) (w : World) : World :=
  {| log_file := log_file w; log_calls := log_calls w;
     generation_calls := generation_calls w; location := dst |}.

(** [shutil.move(src, dst)] and [Path.rename]: raise and leave the
    directory where it is, or succeed and put it at [dst].  A source that is
    no longer there raises too. *)
Definition fs_relocate (fault : option Exn) (src dst : string) : M World unit :=
  fun w =>
    if bool_decide (location w = src) then
      match fault with
      | Some e => (Raised e, w)
      | None => (Ok tt, set_location dst w)
      end
    else (Raised (OSError "No such file or directory"), w).

(** [os.makedirs(optimal_parent_path, exist_ok=True)] *)
Definition makedirs (env : Env) : M World unit :=
  match makedirs_fault env with
  | Some e => raise e
  | None => mret tt
  end.

Definition place_entry (env : Env) (s : Session) (name parent : string)
    (action : Action) (feedback destination : string) : LogEntry :=
  {| entry_session_id := session_id env;
     attempt_number := retry_count s + 1;
     source_path := directory_path env;
     generated_name := name;
     optimal_parent := parent;
     user_action := action;
     user_feedback := feedback;
     final_destination := destination |}.

(** The [try] / [except] cascade that follows the consent to move under
    DATA-HOME integration; the result is [final_location]. *)
Definition move_to_optimal (env : Env) (s : Session)
    (new_directory_name optimal_parent_path final_path : string) : M World string :=
  try_except
    (makedirs env;;
     fs_relocate (move_fault env) (target_directory env) final_path;;
     log_naming_attempt env
       (place_entry env s new_directory_name optimal_parent_path
          moved_successfully "" final_path);;
     mret final_path)
    (fun e =>
       log_naming_attempt env
         (place_entry env s new_directory_name optimal_parent_path
            move_failed ("Move error: " +:+ message_of e) "");;
       let new_path := path_child (parent_dir env) new_directory_name in
       try_except
         (fs_relocate (rename_fault env) (target_directory env) new_path;;
          log_naming_attempt env
            (place_entry env s new_directory_name "local_fallback"
               local_rename_success "" new_path);;
          mret new_path)
         (fun e2 =>
            log_naming_attempt env
              (place_entry env s new_directory_name "local_fallback"
                 total_failure ("Local rename error: " +:+ message_of e2)
                 (target_directory env));;
            mret (target_directory env))).

(** The rename in place, without DATA-HOME integration. *)
Definition rename_locally (env : Env) (s : Session)
    (new_directory_name new_path : string) : M World string :=
  try_except
    (fs_relocate (rename_fault env) (target_directory env) new_path;;
     log_naming_attempt env
       (place_entry env s new_directory_name "no_data_home"
          local_rename_success "" new_path);;
     mret new_path)
    (fun e =>
       log_naming_attempt env
         (place_entry env s new_directory_name "no_data_home"
            rename_failed ("Rename error: " +:+ message_of e)
            (target_directory env));;
       mret (target_directory env)).

(** How [main] ends after the loop: [sys.exit(0)] on a refused consent, or
    the end of the function with [final_location]. *)
Inductive Outcome : Type :=
| Exited
| Completed (final_location : string).

Definition truthy_path (o : option string) : option string :=
  match o with
  | Some p => if truthy p then Some p else None
  | None => None
  end.

(** [if new_directory_name: ... else: ...] after the loop.  The probes run
    with the iteration bound of [resolve], which never gives [None]. *)
Definition finalize (env : Env) (s : Session) : M World Outcome :=
  match truthy_path (new_directory_name s) with
  | Some name =>
      match active_root env, truthy_path (optimal_parent_path s) with
      | Some _, Some parent =>
          match resolve (existing_in env parent) name with
          | Some final_name =>
              let final_path := path_child (PurePath.parse parent) final_name in
              if negb (consent env) then mret Exited
              else
                final_location ← move_to_optimal env s final_name parent final_path;
                mret (Completed final_location)
          | None => mret Exited
          end
      | _, _ =>
          match resolve (existing_in env (PurePath.str (parent_dir env))) name with
          | Some final_name =>
              let new_path := path_child (parent_dir env) final_name in
              if negb (consent env) then mret Exited
              else
                final_location ← rename_locally env s final_name new_path;
                mret (Completed final_location)
          | None => mret Exited
          end
      end
  | None => mret (Completed (target_directory env))
  end.

(** *** Vocabulary of the properties of the loop *)

Definition retry_limit : nat := max_retries.

(** The number of the generation attempt a pass of the loop makes: the
    [attempt_number] it logs, [retry_count + 1]. *)
Definition attempt_count (s : Session) : nat := retry_count s + 1.

(** The states in which a run can stand at the head of the [while]: the
    initial one, and the one a pass that ended in a retry leaves. *)
Inductive reachable (env : Env) : Session -> World -> Prop :=
| reachable_init :
    reachable env (initial_session env) (initial_world env)
| reachable_retry (s s' : Session) (w w' : World) :
    reachable env s w ->
    (retry_count s <=? max_retries) = true ->
    iteration env s w = (Ok (Continue s'), w') ->
    reachable env s' w'.

(** The state after [n] passes that each ended in a retry. *)
Fixpoint after_retries (env : Env) (n : nat) : Session * World :=
  match n with
  | 0 => (initial_session env, initial_world env)
  | S m =>
      let '(s, w) := after_retries env m in
      match iteration env s w with
      | (Ok (Continue s'), w') => (s', w')
      | _ => (s, w)
      end
  end.

(** The rows a run appended to the log between two worlds. *)
Definition rows_since (w w' : World) : list LogEntry :=
  drop (length (log_file w)) (log_file w').


(** The same outside world with a logger that never fails. *)
Definition without_log_faults (env : Env) : Env :=
  {| data_home_root := data_home_root env;
     directory_path := directory_path env;
     processed_subdir := processed_subdir env;
     session_id := session_id env;
     has_api_key := has_api_key env;
     service := service env;
     clock := clock env;
     choice := choice env;
     typed_feedback := typed_feedback env;
     directory_at := directory_at env;
     log_fault := fun _ => None;
     existing_in := existing_in env;
     consent := consent env;
     makedirs_fault := makedirs_fault env;
     move_fault := move_fault env;
     rename_fault := rename_fault env |}.

End Orchestrator.

(** ** Sample runs *)

Module Scenarios.
Import ContentAnalyzer.
Import Exec.
Import Orchestrator.

Definition sample_directory : option (list Node) :=
  Some [ File "notes.txt" (Some 42%N) (Some "Quarterly budget review") ].

(** A directory with sub-directories, one of which cannot be listed, a
    file that cannot be sized, and a socket. *)
Definition sample_tree : option (list Node) :=
  Some [ File "b.txt" (Some 10%N) (Some "hello");
         Dir "Zed" (Some [ File "x.md" (Some 2000%N) None ]);
         File "A.py" None (Some "x");
         Dir "locked" None;
         Other "sock" (Some 0%N) ].

(** The outside world of the sample runs, up to the user's choices and
    the faults: DATA-HOME integration on, a service that answers with a
    longer name at each attempt. *)
Definition sample_env (choice : nat -> Choice) (log_fault : nat -> option Exn)
    (move_fault rename_fault : option Exn) : Env :=
  {| data_home_root := Some "/data";
     directory_path := "inbox/talks";
     processed_subdir := false;
     session_id := "20250101_120000";
     has_api_key := true;
     service := fun k _ =>
       Reply (nth k ["docNotes"; "transMtgBudget"; "transMtgQuarterlyBudget";
                     "transMtgQuarterlyBudgetReview"] "docNotes");
     clock := fun _ => {| year := 2025; month := 1; day := 1 |};
     choice := choice;
     typed_feedback := fun k =>
       nth k ["too generic"; "wrong focus"; "too short"] "";
     directory_at := fun _ => sample_directory;
     log_fault := log_fault;
     existing_in := fun _ => ∅;
     consent := true;
     makedirs_fault := None;
     move_fault := move_fault;
     rename_fault := rename_fault |}.

(** A user who asks for another name at every prompt, with a complaint
    each time. *)
Definition scenario_C : Env :=
  sample_env (fun _ => UserRetry) (fun _ => None) None None.


(** A user who accepts the first name while the log file cannot be
    opened. *)
Definition scenario_log_unwritable : Env :=
  sample_env (fun _ => UserAccept) (fun _ => Some (OSError "Permission denied"))
    None None.

End Scenarios.

(** ** FeedbackCategories: [categorize_feedback] *)

Module FeedbackCategories.
Import PyStr.

(** [any(word in feedback_lower for word in words)] *)
Definition any_word_in (feedback_lower : string) (words : list string) : bool :=
  existsb (fun word => contains word feedback_lower) words.

(** The [categories] list as the seven tests build it, one after the
    other, on the lowercased feedback. *)
Definition matched_categories (feedback_lower : string) : list string :=
  let categories := [] in
  let categories :=
    if any_word_in feedback_lower ["generic"; "specific"; "vague"; "unclear"]
    then categories ++ ["specificity"] else categories in
  let categories :=
    if any_word_in feedback_lower ["long"; "short"; "length"; "brief"; "verbose"]
    then categories ++ ["length"] else categories in
  let categories :=
    if any_word_in feedback_lower ["location"; "directory"; "path"; "folder"; "place"]
    then categories ++ ["location"] else categories in
  let categories :=
    if any_word_in feedback_lower ["topic"; "subject"; "focus"; "about"; "theme"]
    then categories ++ ["content_focus"] else categories in
  let categories :=
    if any_word_in feedback_lower ["abbreviation"; "abbrev"; "short"; "expand"]
    then categories ++ ["abbreviations"] else categories in
  let categories :=
    if any_word_in feedback_lower ["missing"; "include"; "add"; "mention"]
    then categories ++ ["missing_info"] else categories in
  let categories :=
    if any_word_in feedback_lower ["context"; "background"; "situation"]
    then categories ++ ["context"] else categories in
  categories.

Definition categorize_feedback (feedback : string) : string :=
  if negb (truthy feedback) then ""
  else
    let feedback_lower := lower feedback in
    let categories := matched_categories feedback_lower in
    match categories with
    | [] => "other"
    | _ => join "|" categories
    end.

(** *** Vocabulary of the properties *)

(** The categories with their keywords, in the order of the tests. *)
Definition category_table : list (string * list string) :=
  [ ("specificity", ["generic"; "specific"; "vague"; "unclear"]);
    ("length", ["long"; "short"; "length"; "brief"; "verbose"]);
    ("location", ["location"; "directory"; "path"; "folder"; "place"]);
    ("content_focus", ["topic"; "subject"; "focus"; "about"; "theme"]);
    ("abbreviations", ["abbreviation"; "abbrev"; "short"; "expand"]);
    ("missing_info", ["missing"; "include"; "add"; "mention"]);
    ("context", ["context"; "background"; "situation"]) ].

(** A keyword of the category occurs in the feedback, in any letter
    case. *)
Definition mentions (feedback : string) (row : string * list string) : bool :=
  any_word_in (lower feedback) row.2.

End FeedbackCategories.

(** ** AttemptLog: the row [log_naming_attempt] writes *)

Module AttemptLog.
Import PyStr ContentAnalyzer FeedbackCategories.
Import Orchestrator.

(** The [analysis_summary] dictionary [main] passes: both keys are always
    set. *)
Record Summary : Type := {
  summary_files_analyzed : nat;
  had_audio_files : bool
}.

(** A value of the row: a [str] or an [int]. *)
Inductive Cell : Type :=
| Text (s : string)
| Number (n : nat).

(** The string [main] passes as [user_action]. *)
Definition action_name (a : Action) : string :=
  match a with
  | accept => "accept"
  | retry => "retry"
  | cancel => "cancel"
  | generation_failed => "generation_failed"
  | max_retries_reached => "max_retries_reached"
  | moved_successfully => "moved_successfully"
  | move_failed => "move_failed"
  | local_rename_success => "local_rename_success"
  | rename_failed => "rename_failed"
  | total_failure => "total_failure"
  end.

(** The [log_entry] dictionary, keys in the order the source writes them.
    [timestamp] is [datetime.now().isoformat()]. *)
Definition log_entry (timestamp : string) (e : LogEntry)
    (analysis_summary : option Summary) : list (string * Cell) :=
  [ ("timestamp", Text timestamp);
    ("session_id", Text (entry_session_id e));
    ("attempt_number", Number (attempt_number e));
    ("source_path", Text (source_path e));
    ("generated_name", Text (generated_name e));
    ("generated_name_length",
       Number (if truthy (generated_name e)
               then String.length (generated_name e) else 0));
    ("optimal_parent_path",
       Text (if truthy (optimal_parent e) then optimal_parent e else ""));
    ("user_action", Text (action_name (user_action e)));
    ("user_feedback", Text (user_feedback e));
    ("final_destination", Text (final_destination e));
    ("files_analyzed",
       Number (match analysis_summary with
               | Some summary => summary_files_analyzed summary
               | None => 0
               end));
    ("has_audio_files",
       Text (if match analysis_summary with
                | Some summary => had_audio_files summary
                | None => false
                end
             then "yes" else "no"));
    ("source_is_news_transcript",
       Text (if contains "News/transcripts" (source_path e) then "yes" else "no"));
    ("content_type_prefix",
       Text (if truthy (generated_name e) && (4 <=? String.length (generated_name e))
             then first_chars 4 (generated_name e) else ""));
    ("feedback_length",
       Number (if truthy (user_feedback e)
               then String.length (user_feedback e) else 0));
    ("feedback_categories",
       Text (if truthy (user_feedback e)
             then categorize_feedback (user_feedback e) else "")) ].

(** [str(value)], as the CSV writer renders a field. *)
Definition render (c : Cell) : string :=
  match c with
  | Text s => s
  | Number n => pretty n
  end.

(** The log file: [None] while it does not exist, else its records, each
    the list of its fields.  [write_log] is the part of
    [log_naming_attempt] from [log_file.exists()] on: the file is opened
    for appending, the header is written when the file did not exist, then
    the row. *)
Definition write_log (timestamp : string) (e : LogEntry)
    (analysis_summary : option Summary) (file : option (list (list string)))
  : option (list (list string)) :=
  let log_entry := log_entry timestamp e analysis_summary in
  let file_exists := match file with Some _ => true | None => false end in
  let fieldnames := dict_keys log_entry in
  let records := default [] file in
  let records := if negb file_exists then records ++ [fieldnames] else records in
  Some (records ++ [map (fun item => render item.2) log_entry]).

(** *** Vocabulary of the properties *)

(** The value a row has in a column. *)
Definition column (name : string) (row : list (string * Cell)) : option Cell :=
  TaxonomyRouter.dict_get name row.

(** The header [DictWriter.writeheader] writes. *)
Definition fieldnames : list string :=
  [ "timestamp"; "session_id"; "attempt_number"; "source_path"; "generated_name";
    "generated_name_length"; "optimal_parent_path"; "user_action"; "user_feedback";
    "final_destination"; "files_analyzed"; "has_audio_files";
    "source_is_news_transcript"; "content_type_prefix"; "feedback_length";
    "feedback_categories" ].

(** The file after the calls of a run, one per pair of a clock reading
    and the arguments of the call. *)
Definition write_all (analysis_summary : option Summary)
    (calls : list (string * LogEntry)) (file : option (list (list string)))
  : option (list (list string)) :=
  fold_left (fun file call => write_log call.1 call.2 analysis_summary file)
    calls file.

Definition record_of (analysis_summary : option Summary) (call : string * LogEntry)
  : list string :=
  map (fun item => render item.2) (log_entry call.1 call.2 analysis_summary).

End AttemptLog.

(** ** Prompts: the questions [main] asks at the terminal *)

Module Prompts.
Import PyStr.
Import Orchestrator.

(** Standard input is the list of the lines still to be typed; [input()]
    takes the first one, and raises [EOFError] when there is none, which
    the functions below return as [None]. *)

(** [prompt_user_naming_satisfaction]: the answer and the lines left. *)
Fixpoint prompt_user_naming_satisfaction (stdin : list string)
  : option (Choice * list string) :=
  match stdin with
  | [] => None
  | line :: rest =>
      let response := strip line in
      if String.eqb response "1" then Some (UserAccept, rest)
      else if String.eqb response "2" then Some (UserRetry, rest)
      else prompt_user_naming_satisfaction rest
  end.

(** The [while True:] loop of [prompt_user_consent], which
    [AudioProcessor.prompt_user_for_transcription] repeats word for
    word. *)
Fixpoint yes_no_loop (stdin : list string) : option (bool * list string) :=
  match stdin with
  | [] => None
  | line :: rest =>
      let response := lower (strip line) in
      if bool_decide (response ∈ ["y"; "yes"]) then Some (true, rest)
      else if bool_decide (response ∈ ["n"; "no"]) then Some (false, rest)
      else yes_no_loop rest
  end.

Definition prompt_user_consent (stdin : list string) : option (bool * list string) :=
  yes_no_loop stdin.

(** *** Vocabulary of the properties *)

(** What one typed line answers, if anything. *)
Definition satisfaction_answer (line : string) : option Choice :=
  if String.eqb (strip line) "1" then Some UserAccept
  else if String.eqb (strip line) "2" then Some UserRetry
  else None.

Definition consent_answer (line : string) : option bool :=
  if bool_decide (lower (strip line) ∈ ["y"; "yes"]) then Some true
  else if bool_decide (lower (strip line) ∈ ["n"; "no"]) then Some false
  else None.

End Prompts.

(** ** AudioProcessor: [main_audio_processor.py] *)

Module AudioProcessor.
Import PyStr Exec ContentAnalyzer.
Import Prompts.

Definition audio_extensions : gset string :=
  list_to_set [".mp3"; ".wav"; ".m4a"; ".flac"; ".aac"; ".ogg"; ".wma"].

(** [Path.stem]: the name without its suffix. *)
Definition stem (name : string) : string :=
  first_chars (String.length name - String.length (suffix name)) name.

(** What [detect_audio_files] finds at [directory]: nothing, something
    that [iterdir] cannot list, or the entries in enumeration order. *)
Inductive DirState : Type :=
| Missing
| Unlistable (e : Exn)
| Listing (items : list Node).

Definition is_audio (file_path : Node) : bool :=
  is_file file_path
  && bool_decide (lower (suffix (node_name file_path)) ∈ audio_extensions).

(** [detect_audio_files]: the names of the audio files, in enumeration
    order. *)
Definition detect_audio_files (directory : string) (state : DirState)
  : Result (list string) :=
  match state with
  | Missing => Raised (OSError ("Directory " +:+ directory +:+ " does not exist"))
  | Unlistable e => Raised e
  | Listing items => Ok (map node_name (filter (fun file_path => is_audio file_path) items))
  end.

(** The changes [process_directory] makes to the file system, by the
    names of the files: the sub-directory created in the directory, a
    transcript written into the sub-directory, an audio file moved into
    it. *)
Inductive Event : Type :=
| Mkdir (subdir_name : string)
| SaveTranscript (transcript_filename : string) (transcription : string)
| MoveAudio (audio_file : string).

(** The state of a run: the changes made so far and the lines still to be
    typed. *)
Record Studio : Type := {
  events : list Event;
  stdin : list string
}.

(** The outside: what the Whisper model returns for a file ([None] when
    it raises), and which file-system call fails, by the number of changes
    made before it. *)
Record Outside : Type := {
  whisper : string -> option string;
  io_fault : nat -> option Exn
}.

(** A file-system call: it raises and changes nothing, or it takes
    effect. *)
Definition perform (out : Outside) (ev : Event) : M Studio unit :=
  fun w =>
    match io_fault out (length (events w)) with
    | Some e => (Raised e, w)
    | None => (Ok tt, {| events := events w ++ [ev]; stdin := stdin w |})
    end.

Definition lift_result {A : Type} (r : Result A) : M Studio A :=
  fun w => (r, w).

(** [prompt_user_for_transcription] *)
Definition prompt_user_for_transcription (audio_files : list string) : M Studio bool :=
  fun w =>
    match audio_files with
    | [] => (Ok false, w)
    | _ =>
        match yes_no_loop (stdin w) with
        | Some (answer, rest) => (Ok answer, {| events := events w; stdin := rest |})
        | None =>
            (Raised (OSError "EOF when reading a line"),
             {| events := events w; stdin := [] |})
        end
    end.

(** [create_subdirectory]: the name of the sub-directory made. *)
Definition create_subdirectory (out : Outside) (subdir_name : string) : M Studio string :=
  perform out (Mkdir subdir_name);;
  mret subdir_name.

(** [transcribe_audio]: the text, or the empty string when Whisper
    raises. *)
Definition transcribe_audio (out : Outside) (audio_file : string) : string :=
  match whisper out audio_file with
  | Some text => text
  | None => ""
  end.

Definition save_transcription (out : Outside) (transcription output_name : string)
  : M Studio unit :=
  perform out (SaveTranscript output_name transcription).

Definition move_audio_file (out : Outside) (audio_file : string) : M Studio unit :=
  perform out (MoveAudio audio_file).

(** The [for audio_file in audio_files:] loop of [process_directory]. *)
Fixpoint process_files (out : Outside) (audio_files : list string) : M Studio unit :=
  match audio_files with
  | [] => mret tt
  | audio_file :: rest =>
      let transcription := transcribe_audio out audio_file in
      (if truthy transcription then
         let transcript_filename := stem audio_file +:+ "_transcript.txt" in
         save_transcription out transcription transcript_filename
       else mret tt);;
      move_audio_file out audio_file;;
      process_files out rest
  end.

(** [process_directory]: the name of the sub-directory the files were
    moved to, or [None]. *)
Definition process_directory (out : Outside) (directory : string) (state : DirState)
  : M Studio (option string) :=
  try_except
    (audio_files ← lift_result (detect_audio_files directory state);
     match audio_files with
     | [] => mret None
     | _ =>
         proceed ← prompt_user_for_transcription audio_files;
         if negb proceed then mret None
         else
           subdir ← create_subdirectory out "transcribed_audio";
           process_files out audio_files;;
           mret (Some subdir)
     end)
    (fun e => mret None).

(** *** Vocabulary of the properties *)

(** The changes a file asks for: its transcript when there is one, then
    its move. *)
Definition file_events (out : Outside) (audio_file : string) : list Event :=
  (if truthy (transcribe_audio out audio_file)
   then [SaveTranscript (stem audio_file +:+ "_transcript.txt")
           (transcribe_audio out audio_file)]
   else [])
  ++ [MoveAudio audio_file].

(** The changes of a run in which nothing fails. *)
Definition planned_events (out : Outside) (audio_files : list string) : list Event :=
  Mkdir "transcribed_audio" :: flat_map (file_events out) audio_files.

(** The audio files a list of changes moves, and the transcripts it
    writes. *)
Definition moved_files (evs : list Event) : list string :=
  flat_map (fun ev => match ev with MoveAudio audio_file => [audio_file] | _ => [] end) evs.

Definition saved_transcripts (evs : list Event) : list (string * string) :=
  flat_map (fun ev =>
              match ev with
              | SaveTranscript transcript_filename transcription =>
                  [(transcript_filename, transcription)]
              | _ => []
              end) evs.

(** The state after further changes and with other lines left. *)
Definition after_events (w : Studio) (evs : list Event) (rest : list string) : Studio :=
  {| events := events w ++ evs; stdin := rest |}.

(** The calls for a list of changes, one after the other. *)
Fixpoint perform_all (out : Outside) (evs : list Event) : M Studio unit :=
  match evs with
  | [] => mret tt
  | ev :: rest => perform out ev;; perform_all out rest
  end.

(** The first [k] calls made from the state [w] succeed. *)
Definition calls_succeed (out : Outside) (w : Studio) (k : nat) : Prop :=
  forall j, j < k -> io_fault out (length (events w) + j) = None.

End AudioProcessor.

(** ** SessionClock: [generate_session_id] *)

Module SessionClock.
Import PyStr.
Import NamingClient.





End SessionClock.

(** ** Vocabulary of the date in the fallback name *)

Module FallbackStamp.
Import PyStr NamingClient.

(** A date of the calendar in a year of four digits. *)
Definition calendar_date (d : Date) : Prop :=
  1000 <= year d < 100 * 100 /\ 1 <= month d <= 12 /\ 1 <= day d <= 31.

(** [int(s)] for a string of decimal digits. *)
Fixpoint read_digits (acc : nat) (s : string) : nat :=
  match s with
  | EmptyString => acc
  | String c r => read_digits (10 * acc + (code c - code "0"%char)) r
  end.

Definition int (s : string) : nat := read_digits 0 s.

End FallbackStamp.

(** ** Vocabulary of further properties of the router *)

Module RouterBounds.
Import PyStr TaxonomyRouter.

(** The folders of the taxonomy, relative to [filetree/roots]: the
    default, the folder of the special rule, and the primary and context
    paths of the table. *)
Definition taxonomy_folders : list string :=
  "documents" :: "documents/Text Documents"
  :: flat_map (fun entry => primary_path entry.2 :: map snd (context_mappings entry.2))
       data_home_mapping.

(** The content types the table knows. *)
Definition content_types : list string := map fst data_home_mapping.

End RouterBounds.

(** ** Vocabulary of further properties of the analyzer *)

Module AnalyzerBounds.
Import PyStr ContentAnalyzer.

(** The number of dictionaries nested in a value of the file tree. *)
Fixpoint tree_height (t : Tree) : nat :=
  match t with
  | Leaf _ => 0
  | Sub entries =>
      S ((fix highest (l : list (string * Tree)) : nat :=
            match l with
            | [] => 0
            | (_, sub) :: rest => Nat.max (tree_height sub) (highest rest)
            end) entries)
  end.

(** A chain of [n] directories, each the only entry of the one before. *)
Fixpoint nested_dirs (n : nat) : list Node :=
  match n with
  | 0 => []
  | S m => [Dir "d" (Some (nested_dirs m))]
  end.

(** The file [extract_text_snippets] reads for a key: a regular file at
    that relative path with a readable extension and a content that can be
    read. *)
Definition snippet_source (directory : Node) (extract_from_end : bool)
    (item : string * string) : Prop :=
  exists name size content,
    (item.1, File name size (Some content)) ∈ rglob directory
    /\ lower (suffix name) ∈ readable_extensions
    /\ item.2 = snippet_of extract_from_end content.

(** What the scan takes from an entry of the walk: the snippet of a
    regular file with a readable extension whose content can be read, under
    the file's relative path, and nothing from any other entry. *)
Definition quoted (extract_from_end : bool) (entry : string * Node)
  : option (string * string) :=
  match entry.2 with
  | File name _ (Some content) =>
      if bool_decide (lower (suffix name) ∈ readable_extensions)
      then Some (entry.1, snippet_of extract_from_end content)
      else None
  | _ => None
  end.

(** The same directory with the entries of any of its levels listed in
    another order. *)
Inductive relisted : Node -> Node -> Prop :=
| relisted_file (name : string) (size : option N) (content : option string) :
    relisted (File name size content) (File name size content)
| relisted_other (name : string) (size : option N) :
    relisted (Other name size) (Other name size)
| relisted_denied (name : string) :
    relisted (Dir name None) (Dir name None)
| relisted_dir (name : string) (items shuffled items' : list Node) :
    Permutation items shuffled ->
    Forall2 relisted shuffled items' ->
    relisted (Dir name (Some items)) (Dir name (Some items')).

(** At no level do two entries of a directory have the same sort key:
    none are of the same kind with names that differ in letter case
    only. *)
Fixpoint distinct_sort_keys (n : Node) : Prop :=
  match n with
  | Dir _ (Some items) =>
      NoDup (map sort_key items)
      /\ fold_right (fun m rest => distinct_sort_keys m /\ rest) True items
  | _ => True
  end.

End AnalyzerBounds.

(** ** Further sample runs *)

Module MoreScenarios.
Import ContentAnalyzer.
Import Exec.
Import Orchestrator.

(** The outside world [env] with another root, key, consent and set of
    existing names. *)
Definition adjust (env : Env) (root : option string) (api_key agreed : bool)
    (existing : string -> gset string) : Env :=
  {| data_home_root := root;
     directory_path := directory_path env;
     processed_subdir := processed_subdir env;
     session_id := session_id env;
     has_api_key := api_key;
     service := service env;
     clock := clock env;
     choice := choice env;
     typed_feedback := typed_feedback env;
     directory_at := directory_at env;
     log_fault := log_fault env;
     existing_in := existing;
     consent := agreed;
     makedirs_fault := makedirs_fault env;
     move_fault := move_fault env;
     rename_fault := rename_fault env |}.

(** A user who accepts the first name. *)
Definition scenario_accept : Env :=
  Scenarios.sample_env (fun _ => UserAccept) (fun _ => None) None None.

(** A user who accepts the name and then declines the move. *)
Definition scenario_declined : Env :=
  adjust scenario_accept (Some "/data") true false (fun _ => ∅).

(** A run without DATA-HOME, in a parent that already holds a directory
    of the name the service proposes. *)
Definition scenario_local : Env :=
  adjust scenario_accept None true true (fun _ => {["docNotes"]}).


(** A run without an API key. *)
Definition scenario_no_key : Env :=
  adjust Scenarios.scenario_C (Some "/data") false true (fun _ => ∅).

(** A user who asks for another name once and accepts the second. *)
Definition scenario_second_try : Env :=
  Scenarios.sample_env (fun k => if k =? 0 then UserRetry else UserAccept)
    (fun _ => None) None None.



(** The outside world [env] started on another directory. *)
Definition started_on (env : Env) (path : string) : Env :=
  {| data_home_root := data_home_root env;
     directory_path := path;
     processed_subdir := processed_subdir env;
     session_id := session_id env;
     has_api_key := has_api_key env;
     service := service env;
     clock := clock env;
     choice := choice env;
     typed_feedback := typed_feedback env;
     directory_at := directory_at env;
     log_fault := log_fault env;
     existing_in := existing_in env;
     consent := consent env;
     makedirs_fault := makedirs_fault env;
     move_fault := move_fault env;
     rename_fault := rename_fault env |}.




(** The run of [scenario_second_try] without DATA-HOME. *)
Definition scenario_second_try_local : Env :=
  adjust scenario_second_try None true true (fun _ => ∅).

(** The run of [scenario_local] on a directory given by its name alone. *)
Definition scenario_local_bare : Env :=
  started_on scenario_local "talks".

(** A directory with two audio files and a text file; Whisper transcribes
    the first and fails on the second. *)
Definition studio_listing : list Node :=
  [ File "talk.mp3" (Some 4000%N) None;
    File "notes.txt" (Some 42%N) (Some "Quarterly budget review");
    File "song.WAV" (Some 9000%N) None ].

Definition studio_outside (io_fault : nat -> option Exn) : AudioProcessor.Outside :=
  {| AudioProcessor.whisper :=
       fun audio_file => if String.eqb audio_file "talk.mp3" then Some "hello" else None;
     AudioProcessor.io_fault := io_fault |}.

(** The user answers with a word that is not understood, then with yes. *)
Definition studio_start : AudioProcessor.Studio :=
  {| AudioProcessor.events := []; AudioProcessor.stdin := ["maybe"; " Y "] |}.

End MoreScenarios.

(** * Properties *)

(** ** Strings *)

Section StringFacts.
Import PyStr.

Lemma string_length_app (s t : string) :
  String.length (s +:+ t) = String.length s + String.length t.
Proof. induction s as [|c s IH]; simpl; [reflexivity | by rewrite IH]. Qed.

Lemma forallb_chars_app (p : ascii -> bool) (s t : string) :
  forallb_chars p (s +:+ t) = forallb_chars p s && forallb_chars p t.
Proof.
  induction s as [|c s IH]; simpl; [reflexivity|].
  by rewrite IH, andb_assoc.
Qed.

Lemma string_length_cons (c : ascii) (s : string) :
  String.length (String c s) = S (String.length s).
Proof. reflexivity. Qed.

Lemma forallb_chars_cons (p : ascii -> bool) (c : ascii) (s : string) :
  forallb_chars p (String c s) = p c && forallb_chars p s.
Proof. reflexivity. Qed.

Lemma truthy_nonempty (s : string) : truthy s = true <-> s <> "".
Proof. destruct s; simpl; split; congruence. Qed.

Lemma is_alnum_newline : is_alnum newline = false.
Proof. reflexivity. Qed.

Lemma is_lower_alnum (c : ascii) : is_lower c = true -> is_alnum c = true.
Proof. unfold is_alnum. intros ->. reflexivity. Qed.

Lemma is_digit_alnum (c : ascii) : is_digit c = true -> is_alnum c = true.
Proof. unfold is_alnum. intros ->. by rewrite !orb_true_r. Qed.

End StringFacts.

(** ** NameValidator *)

Section ValidatorFacts.
Import PyStr NameValidator.

(** What the pattern's tail accepts: alphanumerics, then nothing or one
    final line feed. *)
Lemma match_alnum_star_end_iff (s : string) :
  match_alnum_star_end s = true <->
  forallb_chars is_alnum s = true \/
  exists r, s = r +:+ String newline "" /\ forallb_chars is_alnum r = true.
Proof.
  induction s as [|c s IH]; simpl.
  - split; auto.
  - destruct (is_alnum c) eqn:Hc; simpl.
    + rewrite IH. split.
      * intros [H | (r & -> & H)]; [by left|].
        right. exists (String c r). simpl. by rewrite Hc.
      * intros [H | (r & Hr & H)]; [by left|].
        destruct r as [|d r]; simpl in *.
        { injection Hr as -> _. by rewrite is_alnum_newline in Hc. }
        injection Hr as -> ->. rewrite Hc in H. right. by exists r.
    + split.
      * intros [Hn He]%andb_true_iff. right. exists "".
        apply Ascii.eqb_eq in Hn as ->. apply String.eqb_eq in He as ->. done.
      * intros [H | (r & Hr & H)]; [done|].
        destruct r as [|d r]; simpl in *.
        { injection Hr as -> ->. reflexivity. }
        injection Hr as -> ->. by rewrite Hc in H.
Qed.

(** The validator, in full: the length bound, a lowercase first character,
    alphanumerics after it, and possibly one line feed at the very end. *)
Lemma validate_directory_name_iff (name : string) :
  validate_directory_name name = true <->
  String.length name <= 75 /\
  exists c r, is_lower c = true /\ forallb_chars is_alnum r = true /\
    (name = String c r \/ name = String c (r +:+ String newline "")).
Proof.
  unfold validate_directory_name, max_name_length, re_match_camel.
  destruct (Nat.ltb_spec 75 (String.length name)) as [Hlen | Hlen].
  { split; [done | lia]. }
  destruct name as [|c s]; simpl.
  { split; [done|]. intros (_ & c & r & _ & _ & [? | ?]); done. }
  destruct (is_lower c) eqn:Hc; simpl.
  - destruct (match_alnum_star_end s) eqn:Hm; simpl.
    + split; [intros _ | done]. split; [done|].
      apply match_alnum_star_end_iff in Hm as [H | (r & -> & H)].
      * exists c, s. auto.
      * exists c, r. auto.
    + split; [done|]. intros (_ & c' & r & _ & Hr & [H | H]).
      * injection H as -> ->.
        assert (match_alnum_star_end r = true) by (apply match_alnum_star_end_iff; auto).
        congruence.
      * injection H as -> ->.
        assert (match_alnum_star_end (r +:+ String newline "") = true)
          by (apply match_alnum_star_end_iff; eauto).
        congruence.
  - split; [done|]. intros (_ & c' & r & Hc' & _ & [H | H]);
      injection H as -> _; congruence.
Qed.

(** Every name the specification's rule admits is accepted. *)
Lemma spec_valid_accepted (name : string) :
  spec_valid name -> validate_directory_name name = true.
Proof.
  intros (Hlen & c & r & -> & Hc & Hr).
  apply validate_directory_name_iff. split; [done|]. exists c, r. auto.
Qed.

(** An accepted name is never empty. *)
Lemma validated_nonempty (name : string) :
  validate_directory_name name = true -> truthy name = true.
Proof.
  intros (_ & c & r & _ & _ & [-> | ->])%validate_directory_name_iff; reflexivity.
Qed.

End ValidatorFacts.

(** ** ContentAnalyzer *)

Section AnalyzerFacts.
Import PyStr ContentAnalyzer.

(** *** The order on sort keys *)

Lemma string_leb_refl (s : string) : String.leb s s = true.
Proof. apply Is_true_true. change (String.le s s). reflexivity. Qed.

Lemma string_leb_trans (s1 s2 s3 : string) :
  String.leb s1 s2 = true -> String.leb s2 s3 = true -> String.leb s1 s3 = true.
Proof.
  intros H1%Is_true_true H2%Is_true_true. apply Is_true_true.
  change (String.le s1 s3). by trans s2.
Qed.

Lemma key_le_total (a b : bool * string) : key_le a b = true \/ key_le b a = true.
Proof.
  destruct a as [[] s], b as [[] t]; unfold key_le; cbn [fst snd];
    auto using String.leb_total.
Qed.

Lemma key_le_trans (a b c : bool * string) :
  key_le a b = true -> key_le b c = true -> key_le a c = true.
Proof.
  destruct a as [[] s], b as [[] t], c as [[] u]; unfold key_le; cbn [fst snd];
    try done; apply string_leb_trans.
Qed.

Lemma key_before_trans (a b c : Node) :
  key_before a b -> key_before b c -> key_before a c.
Proof. apply key_le_trans. Qed.

(** *** [sorted] *)

Lemma insert_by_key_perm (x : Node) (l : list Node) :
  Permutation (x :: l) (insert_by_key x l).
Proof.
  induction l as [|y l IH]; cbn [insert_by_key]; [done|].
  destruct (key_le _ _); [done|].
  rewrite Permutation_swap. by constructor.
Qed.

Lemma sorted_by_key_perm (l : list Node) : Permutation l (sorted_by_key l).
Proof.
  induction l as [|x l IH]; cbn [sorted_by_key fold_right]; [done|].
  rewrite <-insert_by_key_perm. by constructor.
Qed.

Lemma insert_by_key_sorted (x : Node) (l : list Node) :
  StronglySorted key_before l -> StronglySorted key_before (insert_by_key x l).
Proof.
  induction l as [|y l IH]; cbn [insert_by_key]; intros Hs.
  - repeat constructor.
  - apply StronglySorted_cons in Hs as [Hy Hs].
    destruct (key_le (sort_key x) (sort_key y)) eqn:Hxy.
    + apply StronglySorted_cons. split; [|by apply StronglySorted_cons].
      constructor; [done|].
      eapply Forall_impl; [exact Hy|]. intros z Hz.
      by apply (key_before_trans x y z).
    + apply StronglySorted_cons. split; [|by apply IH].
      rewrite <-insert_by_key_perm. constructor; [|done].
      destruct (key_le_total (sort_key x) (sort_key y)); [congruence|done].
Qed.

Lemma sorted_by_key_sorted (l : list Node) :
  StronglySorted key_before (sorted_by_key l).
Proof.
  induction l as [|x l IH]; cbn [sorted_by_key fold_right]; [constructor|].
  by apply insert_by_key_sorted.
Qed.

(** *** Dictionaries built from distinct keys *)

Lemma dict_set_fresh {V : Type} (k : string) (v : V) (d : list (string * V)) :
  k ∉ dict_keys d -> dict_set k v d = d ++ [(k, v)].
Proof.
  induction d as [|[k' v'] d IH]; cbn [dict_set dict_keys map fst app]; [done|].
  intros Hk. apply not_elem_of_cons in Hk as [Hne Hk].
  destruct (String.eqb_spec k k') as [->|_]; [done|].
  by rewrite IH.
Qed.


(** *** Keys of a well-formed directory *)








(** *** The file tree *)




(** Two enumerations of the same entries give the same tree, provided no
    two entries share a sort key: sorting makes the tree independent of the
    order in which the operating system lists a directory. *)
Lemma key_le_antisym (a b : bool * string) :
  key_le a b = true -> key_le b a = true -> a = b.
Proof.
  destruct a as [[] s], b as [[] t]; unfold key_le; cbn [fst snd]; try done;
    intros H1 H2; f_equal; by apply String.leb_antisym.
Qed.

Lemma nodup_map_inj {A B : Type} (f : A -> B) (l : list A) (x y : A) :
  NoDup (map f l) -> x ∈ l -> y ∈ l -> f x = f y -> x = y.
Proof.
  induction l as [|z l IH]; intros Hnd Hx Hy Hf; [by apply elem_of_nil in Hx|].
  cbn [map] in Hnd. apply NoDup_cons in Hnd as [Hz Hnd].
  apply elem_of_cons in Hx as [->|Hx]; apply elem_of_cons in Hy as [->|Hy].
  - done.
  - destruct Hz. rewrite Hf. by apply list_elem_of_fmap_2.
  - destruct Hz. rewrite <-Hf. by apply list_elem_of_fmap_2.
  - by apply IH.
Qed.

Lemma sorted_by_key_enumeration (items items' : list Node) :
  Permutation items items' ->
  NoDup (map sort_key items) ->
  sorted_by_key items = sorted_by_key items'.
Proof.
  intros Hperm Hnd.
  apply (StronglySorted_unique_strong key_before);
    [|apply sorted_by_key_sorted..|by rewrite <-!sorted_by_key_perm].
  intros x1 x2 Hx1 Hx2 H12 H21.
  rewrite <-sorted_by_key_perm in Hx1.
  rewrite <-sorted_by_key_perm, <-Hperm in Hx2.
  apply (nodup_map_inj sort_key items); [done..|].
  by apply key_le_antisym.
Qed.

Lemma file_tree_enumeration_independent (levels : nat) (name : string)
    (items items' : list Node) :
  Permutation items items' ->
  NoDup (map sort_key items) ->
  build_tree levels (Dir name (Some items)) = build_tree levels (Dir name (Some items')).
Proof.
  intros Hperm Hnd. destruct levels as [|deeper]; [done|].
  cbn [build_tree]. by rewrite (sorted_by_key_enumeration items items').
Qed.

Lemma sample_tree_well_formed : well_formed (Dir "inbox" Scenarios.sample_tree).
Proof.
  cbn [well_formed Scenarios.sample_tree map node_name fold_right].
  split_and!; try done; apply (bool_decide_unpack _); vm_compute; exact I.
Qed.

End AnalyzerFacts.

(** ** NamingClient: the fallback name and what generation returns *)

Section NamingClientFacts.
Import PyStr NameValidator NamingClient ContentAnalyzer.

Lemma digit_char_is_digit (n : nat) : is_digit (digit_char n) = true.
Proof.
  unfold digit_char.
  pose proof (Nat.mod_upper_bound n 10 ltac:(lia)) as Hlt.
  destruct (n mod 10) as [|[|[|[|[|[|[|[|[|[|m]]]]]]]]]]; try reflexivity; lia.
Qed.

Lemma strftime_Ymd_digits (d : Date) :
  forallb_chars is_alnum (strftime_Ymd d) = true.
Proof.
  unfold strftime_Ymd.
  repeat (rewrite (forallb_chars_cons is_alnum), (is_digit_alnum _ (digit_char_is_digit _))).
  reflexivity.
Qed.

Lemma strftime_Ymd_length (d : Date) : String.length (strftime_Ymd d) = 8.
Proof. unfold strftime_Ymd. rewrite !string_length_cons. reflexivity. Qed.

(** The fallback name is well formed by the specification's own rule. *)
Lemma fallback_name_spec_valid (now : Date) : spec_valid (create_fallback_name now).
Proof.
  unfold create_fallback_name. split.
  - rewrite string_length_app, strftime_Ymd_length.
    change (String.length "processedAudio") with 14. lia.
  - exists "p"%char, ("rocessedAudio" +:+ strftime_Ymd now).
    split; [reflexivity|]. split; [reflexivity|].
    rewrite forallb_chars_app, strftime_Ymd_digits. reflexivity.
Qed.

Lemma fallback_name_validates (now : Date) :
  validate_directory_name (create_fallback_name now) = true.
Proof. apply spec_valid_accepted, fallback_name_spec_valid. Qed.

Lemma name_of_response_validates (now : Date) (r : Response) :
  validate_directory_name (name_of_response now r) = true.
Proof.
  destruct r as [text|]; simpl; [|apply fallback_name_validates].
  destruct (validate_directory_name (strip text)) eqn:Hv; [done|].
  apply fallback_name_validates.
Qed.

Lemma generate_directory_name_validates (client : Client) (now : Date)
    (analysis_data : Payload) :
  validate_directory_name (generate_directory_name client now analysis_data) = true.
Proof.
  destruct client; simpl;
    [apply name_of_response_validates | apply fallback_name_validates].
Qed.

Lemma generate_with_feedback_validates (client : Client) (now : Date)
    (analysis_data : Payload) (feedback : option string) :
  validate_directory_name
    (generate_directory_name_with_feedback client now analysis_data feedback) = true.
Proof.
  destruct client; simpl;
    [apply name_of_response_validates | apply fallback_name_validates].
Qed.

End NamingClientFacts.

(** ** TaxonomyRouter *)

Section RouterFacts.
Import PyStr TaxonomyRouter.

Lemma prefix_map_chars (f : ascii -> ascii) (needle s : string) :
  forallb_chars (fun c => Ascii.eqb (f c) c) needle = true ->
  String.prefix needle s = true ->
  String.prefix needle (map_chars f s) = true.
Proof.
  revert needle. induction s as [|b s IH]; intros [|a needle] Hfix Hp;
    [done | done | done |].
  cbn [String.prefix map_chars] in Hp |- *. cbn [forallb_chars] in Hfix.
  apply andb_true_iff in Hfix as [Ha Hfix]. apply Ascii.eqb_eq in Ha.
  destruct (ascii_dec a b) as [<-|Hne]; [|done].
  rewrite Ha. destruct (ascii_dec a a); [|congruence]. by apply IH.
Qed.

Lemma contains_map_chars (f : ascii -> ascii) (needle s : string) :
  forallb_chars (fun c => Ascii.eqb (f c) c) needle = true ->
  contains needle s = true ->
  contains needle (map_chars f s) = true.
Proof.
  intros Hfix. induction s as [|b s IH]; cbn [contains map_chars]; intros Hc.
  - apply orb_true_iff in Hc as [Hp|]; [|done].
    apply (prefix_map_chars f) in Hp; [|done]. cbn [map_chars] in Hp.
    by rewrite Hp.
  - apply orb_true_iff in Hc as [Hp|Hc].
    + apply (prefix_map_chars f) in Hp; [|done]. cbn [map_chars] in Hp.
      by rewrite Hp.
    + rewrite (IH Hc). apply orb_true_r.
Qed.

Lemma prefix_contains (needle hay : string) :
  String.prefix needle hay = true -> contains needle hay = true.
Proof. intros H. destruct hay; cbn [contains]; by rewrite H. Qed.

Lemma contains_tail (c : ascii) (needle hay : string) :
  contains (String c needle) hay = true -> contains needle hay = true.
Proof.
  induction hay as [|d hay IH]; cbn [contains]; intros H.
  - apply orb_true_iff in H as [H|]; done.
  - apply orb_true_iff in H as [H|H].
    + cbn [String.prefix] in H. destruct (ascii_dec c d); [|done].
      rewrite (prefix_contains _ _ H). apply orb_true_r.
    + rewrite (IH H). apply orb_true_r.
Qed.

(** The test of the special rule is the occurrence of the pattern: the
    test for a non-empty path and the second operand add nothing. *)
Lemma news_test_iff (source_path : string) :
  is_news_transcript_source (Some source_path) = true
  <-> news_pattern_in source_path = true.
Proof.
  unfold is_news_transcript_source, news_pattern_in. split.
  - intros [_ [H|H]%orb_true_iff]%andb_true_iff; [done|].
    by apply contains_tail in H.
  - intros H. rewrite H. destruct source_path; [discriminate H | reflexivity].
Qed.

(** A path in which the text occurs as it is matches the pattern. *)
Lemma news_path_matches (source_path : string) :
  contains "News/transcripts" source_path = true ->
  news_pattern_in source_path = true.
Proof.
  intros Hc. unfold news_pattern_in, normalize_source.
  by apply contains_map_chars.
Qed.

(** C6.  Whenever the source path matches the pattern [News/transcripts]
    (the text occurs in it, with slashes of either kind), the test of the
    special rule succeeds and the router returns
    [os.path.join(data_home_root, "filetree/roots/documents/Text Documents")],
    whatever the candidate name and the root; for a non-empty root without a
    final slash this is the root followed by
    [/filetree/roots/documents/Text Documents]. *)
Theorem news_override_wins (directory_name data_home_root source_path : string) :
  news_pattern_in source_path = true ->
  is_news_transcript_source (Some source_path) = true
  /\ determine_optimal_parent_directory directory_name data_home_root
       (Some source_path)
     = os_path_join data_home_root [text_documents_fragment]
  /\ (truthy data_home_root = true ->
      ends_with_char "/" data_home_root = false ->
      determine_optimal_parent_directory directory_name data_home_root
        (Some source_path)
      = data_home_root +:+ "/filetree/roots/documents/Text Documents").
Proof.
  intros Hnews%news_test_iff. split; [done|].
  unfold determine_optimal_parent_directory. rewrite Hnews.
  split; [reflexivity|].
  intros Hroot Hslash. cbn [os_path_join fold_left]. unfold join_step.
  cbn [text_documents_fragment starts_with_char Ascii.eqb].
  rewrite Hroot, Hslash. reflexivity.
Qed.

(** The route of the specification's example source, for a name whose
    prefix would otherwise send it to the podcasts. *)
Lemma news_override_wins_witness :
  news_pattern_in "~/News/transcripts/x" = true
  /\ determine_optimal_parent_directory "audPodClimatePolicy" "/data"
       (Some "~/News/transcripts/x")
     = "/data/filetree/roots/documents/Text Documents"
  /\ determine_optimal_parent_directory "audPodClimatePolicy" "/data" None
     = "/data/filetree/roots/audio/podcasts".
Proof.
  split; [reflexivity|]. split; [|reflexivity].
  apply (news_override_wins "audPodClimatePolicy" "/data" "~/News/transcripts/x");
    reflexivity.
Defined.

End RouterFacts.

(** ** PlacementResolver *)

Section ResolverFacts.
Import PlacementResolver.

Lemma pretty_N_go_length (x : N) (s : string) :
  String.length s <= String.length (pretty_N_go x s).
Proof.
  revert s. induction (N.lt_wf_0 x) as [x _ IH]. intros s.
  destruct (decide (x = 0%N)) as [->|Hx]; [by rewrite pretty_N_go_0|].
  rewrite pretty_N_go_step by lia.
  etrans; [|apply IH, N.div_lt; lia]. simpl. lia.
Qed.

Lemma pretty_nat_nonempty (j : nat) : pretty j <> "".
Proof.
  unfold pretty, pretty_nat, pretty, pretty_N.
  case_decide as Hz; [done|].
  rewrite pretty_N_go_step by lia.
  intros Hp. pose proof (pretty_N_go_length (N.of_nat j `div` 10)
    (String (pretty_N_char (N.of_nat j `mod` 10)) "")) as Hlen.
  rewrite Hp in Hlen. simpl in Hlen. lia.
Qed.

Lemma string_app_empty_r (s : string) : s +:+ "" = s.
Proof. induction s as [|c s IH]; [done|]. unfold String.app in *. simpl. by rewrite IH. Qed.

(** Distinct conflict counts give distinct names. *)
Lemma candidate_inj (base : string) : Inj (=) (=) (candidate base).
Proof.
  intros [|j] [|k] H; cbn [candidate] in H; [done| | |].
  - rewrite <-(string_app_empty_r base) in H at 1.
    apply (inj (String.app base)) in H. by destruct (pretty_nat_nonempty (S k)).
  - rewrite <-(string_app_empty_r base) in H at 2.
    apply (inj (String.app base)) in H. by destruct (pretty_nat_nonempty (S j)).
  - apply (inj (String.app base)) in H. by apply (inj pretty) in H.
Qed.

(** The probe, started after [j] conflicts with enough fuel, stops at the
    first candidate from [j] on that does not exist.  [X] is any set that
    holds the existing candidates still ahead. *)
Lemma probe_finds_first_free (fuel : nat) (existing X : gset string)
    (base : string) (j : nat) :
  (forall i, j <= i -> (candidate base i ∈ existing) -> (candidate base i ∈ X)) ->
  size X < fuel ->
  exists k, j <= k
    /\ probe fuel existing base (candidate base j) (S j)
       = Some (candidate base k, S k)
    /\ (candidate base k ∉ existing)
    /\ forall i, j <= i < k -> (candidate base i ∈ existing).
Proof.
  revert X j. induction fuel as [|fuel IH]; intros X j HX Hsize; [lia|].
  cbn [probe].
  destruct (decide (candidate base j ∈ existing)) as [Hin|Hin];
    [rewrite bool_decide_true by done | rewrite bool_decide_false by done].
  - destruct (IH (X ∖ {[candidate base j]}) (S j)) as (k & Hk & Hp & Hfree & Hbelow).
    + intros i Hi Hex. apply elem_of_difference. split; [apply HX; [lia|done]|].
      rewrite elem_of_singleton. intros Heq%candidate_inj. lia.
    + assert (candidate base j ∈ X) as HjX by (apply HX; [lia|done]).
      assert (size X = size (X ∖ {[candidate base j]}) + 1) as Hsz.
      { rewrite (union_difference_L {[candidate base j]} X) at 1;
          [|by apply singleton_subseteq_l].
        rewrite size_union; [|apply disjoint_difference_r1; done].
        rewrite size_singleton. lia. }
      lia.
    + exists k. split; [lia|]. split; [exact Hp|]. split; [done|].
      intros i Hi. destruct (decide (i = j)) as [->|]; [done|].
      apply Hbelow. lia.
  - exists j. split; [done|]. split; [done|]. split; [done|]. intros i Hi. lia.
Qed.

(** C7.  For every set of names present in the destination parent and for
    every amount of fuel beyond the size of that set, the probe returns a
    name: the candidate with the least number of conflicts [k] that does
    not exist, which is the name itself when it is free ([k = 0]) and
    otherwise the name followed by the least positive integer whose
    candidate is free, every earlier candidate existing.  With the name,
    the name followed by 1 and the name followed by 2 present, the result
    is the name followed by 3. *)
Theorem resolve_picks_first_free (existing : gset string) (base : string) :
  (exists k,
     (forall fuel, size existing < fuel ->
        resolve_conflict fuel existing base = Some (candidate base k))
     /\ resolve existing base = Some (candidate base k)
     /\ (candidate base k ∉ existing)
     /\ (forall j, j < k -> (candidate base j ∈ existing))
     /\ ((base ∉ existing) -> candidate base k = base)
     /\ ((base ∈ existing) -> 1 <= k /\ candidate base k = base +:+ pretty k))
  /\ resolve {[base; base +:+ "1"; base +:+ "2"]} base = Some (base +:+ "3").
Proof.
  assert (forall existing : gset string, exists k,
     (forall fuel, size existing < fuel ->
        resolve_conflict fuel existing base = Some (candidate base k))
     /\ (candidate base k ∉ existing)
     /\ (forall j, j < k -> (candidate base j ∈ existing))) as Hgen.
  { clear existing. intros existing.
    destruct (probe_finds_first_free (S (size existing)) existing existing base 0)
      as (k & _ & _ & Hfree & Hbelow); [done | lia |].
    exists k. split; [|split; [done|intros j Hj; apply Hbelow; lia]].
    intros fuel Hfuel.
    destruct (probe_finds_first_free fuel existing existing base 0)
      as (k' & _ & Hp' & Hfree' & Hbelow'); [done | lia |].
    assert (k' = k) as ->.
    { destruct (Nat.lt_trichotomy k' k) as [Hlt | [-> | Hlt]]; [|done|].
      - destruct Hfree'. apply Hbelow. lia.
      - destruct Hfree. apply Hbelow'. lia. }
    unfold resolve_conflict. cbn [candidate] in Hp'. rewrite Hp'.
    destruct k as [|k]; [done|]. done. }
  split.
  - destruct (Hgen existing) as (k & Hres & Hfree & Hbelow).
    exists k. split; [done|]. split; [apply Hres; lia|]. split; [done|].
    split; [done|]. split.
    + intros Hbase. destruct k as [|k]; [done|].
      destruct Hbase. apply (Hbelow 0). lia.
    + intros Hbase. destruct k as [|k]; [done|]. split; [lia|done].
  - destruct (Hgen {[base; base +:+ "1"; base +:+ "2"]}) as (k & Hres & Hfree & Hbelow).
    unfold resolve. rewrite Hres by lia. f_equal.
    change (base +:+ "3") with (candidate base 3). f_equal.
    destruct (Nat.lt_trichotomy k 3) as [Hlt | [-> | Hlt]]; [|done|].
    + destruct Hfree.
      assert (k = 0 \/ k = 1 \/ k = 2) as [-> | [-> | ->]] by lia;
        [change (candidate base 0) with base
        |change (candidate base 1) with (base +:+ "1")
        |change (candidate base 2) with (base +:+ "2")]; set_solver.
    + specialize (Hbelow 3 Hlt).
      rewrite !elem_of_union, !elem_of_singleton in Hbelow.
      destruct Hbelow as [[Hb | Hb] | Hb];
        [apply (candidate_inj base 3 0) in Hb
        |apply (candidate_inj base 3 1) in Hb
        |apply (candidate_inj base 3 2) in Hb]; lia.
Qed.

End ResolverFacts.

(** ** The negotiation loop *)

Section LoopFacts.
Import PyStr Exec ContentAnalyzer Orchestrator.

Lemma run_bind {W A B : Type} (m : M W A) (k : A -> M W B) (w : W) :
  (m ≫= k) w =
  match m w with
  | (Ok a, w') => k a w'
  | (Raised e, w') => (Raised e, w')
  end.
Proof. reflexivity. Qed.

(** The generation call of a pass never fails: it returns a validated
    name and adds one call to the trace. *)
Lemma generate_run (env : Env) (s : Session) (w : World) :
  exists name parent data,
    generate env s w =
      (Ok {| retry_count := retry_count s;
             feedback_history := feedback_history s;
             current_analysis_data := data;
             new_directory_name := Some name;
             optimal_parent_path := parent |},
       add_generation_call
         {| call_retry_count := retry_count s;
            call_payload := data;
            call_feedback :=
              if retry_count s =? 0 then None
              else Some (join " | " (feedback_history s));
            call_history := feedback_history s |} w)
    /\ validate_directory_name name = true.
Proof.
  unfold generate.
  destruct (active_root env) as [root|]; destruct (retry_count s =? 0) eqn:Hk;
    unfold generate_directory_name_and_path,
      generate_directory_name_and_path_with_feedback;
    rewrite ?(validated_nonempty _ (generate_with_feedback_validates _ _ _ _));
    eexists _, _, _; (split; [reflexivity|]);
    auto using generate_with_feedback_validates, generate_directory_name_validates.
Qed.

(** The decision on a non-empty candidate, branch by branch. *)
Lemma decide_on_run (env : Env) (s : Session) (w : World) (name : string) :
  new_directory_name s = Some name -> truthy name = true ->
  decide_on env s w =
  match log_fault env (log_calls w) with
  | Some e => (Raised e, count_log_call w)
  | None =>
      if choice_eqb (choice env (retry_count s)) UserAccept then
        (Ok (Break s), append_row (loop_entry env s name accept "") (count_log_call w))
      else if retry_count s <? max_retries then
        let feedback := collect_user_feedback (typed_feedback env (retry_count s)) in
        (Ok (Continue
               {| retry_count := retry_count s + 1;
                  feedback_history := feedback_history s ++ [feedback];
                  current_analysis_data := current_analysis_data s;
                  new_directory_name := new_directory_name s;
                  optimal_parent_path := optimal_parent_path s |}),
         append_row (loop_entry env s name retry feedback) (count_log_call w))
      else
        (Ok (Break s),
         append_row (loop_entry env s name max_retries_reached "") (count_log_call w))
  end.
Proof.
  intros Hn Ht. unfold decide_on. rewrite Hn. cbn [truthy_opt default negb].
  rewrite Ht. cbn [negb].
  destruct (choice env (retry_count s)); cbn [choice_eqb andb].
  - rewrite run_bind. unfold log_naming_attempt.
    destruct (log_fault env (log_calls w)); reflexivity.
  - destruct (Nat.ltb_spec (retry_count s) max_retries) as [Hlt|Hge].
    + rewrite run_bind. unfold log_naming_attempt.
      destruct (log_fault env (log_calls w)); reflexivity.
    + destruct (Nat.leb_spec max_retries (retry_count s)); [|lia].
      rewrite run_bind. unfold log_naming_attempt.
      destruct (log_fault env (log_calls w)); reflexivity.
Qed.

(** One pass of the loop, branch by branch. *)
Lemma iteration_run (env : Env) (s : Session) (w : World) :
  exists name parent data,
    let s1 := {| retry_count := retry_count s;
                 feedback_history := feedback_history s;
                 current_analysis_data := data;
                 new_directory_name := Some name;
                 optimal_parent_path := parent |} in
    let w1 := add_generation_call
                {| call_retry_count := retry_count s;
                   call_payload := data;
                   call_feedback :=
                     if retry_count s =? 0 then None
                     else Some (join " | " (feedback_history s));
                   call_history := feedback_history s |} w in
    validate_directory_name name = true /\
    generate env s w = (Ok s1, w1) /\
    iteration env s w =
    match log_fault env (log_calls w) with
    | Some e => (Raised e, count_log_call w1)
    | None =>
        if choice_eqb (choice env (retry_count s)) UserAccept then
          (Ok (Break s1), append_row (loop_entry env s1 name accept "") (count_log_call w1))
        else if retry_count s <? max_retries then
          let feedback := collect_user_feedback (typed_feedback env (retry_count s)) in
          (Ok (Continue
                 {| retry_count := retry_count s + 1;
                    feedback_history := feedback_history s ++ [feedback];
                    current_analysis_data := data;
                    new_directory_name := Some name;
                    optimal_parent_path := parent |}),
           append_row (loop_entry env s1 name retry feedback) (count_log_call w1))
        else
          (Ok (Break s1),
           append_row (loop_entry env s1 name max_retries_reached "") (count_log_call w1))
    end.
Proof.
  destruct (generate_run env s w) as (name & parent & data & Hg & Hv).
  exists name, parent, data. cbn zeta. split; [done|]. split; [done|].
  unfold iteration. rewrite run_bind, Hg.
  erewrite (decide_on_run env _ _ name); [reflexivity | reflexivity |].
  by apply validated_nonempty.
Qed.

(** At the head of the loop, [retry_count] is within the limit and counts
    the generation calls made so far. *)
Lemma reachable_invariant (env : Env) (s : Session) (w : World) :
  reachable env s w ->
  retry_count s <= max_retries /\ length (generation_calls w) = retry_count s.
Proof.
  induction 1 as [|s s' w w' Hr [IHle IHlen] Hguard Hstep].
  - split; [cbn; lia | reflexivity].
  - destruct (iteration_run env s w) as (name & parent & data & _ & _ & Hi).
    cbn zeta in Hi. rewrite Hi in Hstep. clear Hi.
    destruct (log_fault env (log_calls w)); [discriminate|].
    destruct (choice_eqb _ _); [discriminate|].
    destruct (Nat.ltb_spec (retry_count s) max_retries) as [Hlt|Hge]; [|discriminate].
    injection Hstep as <- <-.
    cbn [retry_count generation_calls append_row count_log_call add_generation_call].
    rewrite length_app. cbn [length]. lia.
Qed.

Lemma after_retries_reachable (env : Env) (n : nat) :
  reachable env (after_retries env n).1 (after_retries env n).2.
Proof.
  induction n as [|n IH]; cbn [after_retries]; [constructor|].
  destruct (after_retries env n) as [s w]. cbn [fst snd] in IH.
  destruct (iteration env s w) as [[[s'|s']|e] w'] eqn:Hi; cbn [fst snd]; try done.
  eapply reachable_retry; [exact IH | | exact Hi].
  apply Nat.leb_le. by apply reachable_invariant in IH as [? _].
Qed.

(** However the loop goes on from a reachable state, it ends with at most
    [max_retries + 1] generation calls made, and the session it ends with
    has its [retry_count] within the limit. *)
Lemma loop_calls_bounded (fuel : nat) (env : Env) (s : Session) (w : World)
    (r : Result (option Session)) (w' : World) :
  reachable env s w ->
  negotiation_loop fuel env s w = (r, w') ->
  length (generation_calls w') <= max_retries + 1
  /\ forall s', r = Ok (Some s') -> retry_count s' <= max_retries.
Proof.
  revert s w. induction fuel as [|fuel IH]; intros s w Hr Hrun.
  - injection Hrun as <- <-. apply reachable_invariant in Hr.
    split; [lia | done].
  - pose proof (reachable_invariant _ _ _ Hr) as [Hle Hlen].
    cbn [negotiation_loop] in Hrun.
    destruct (Nat.leb_spec (retry_count s) max_retries) as [Hg|Hg]; [|lia].
    rewrite run_bind in Hrun.
    destruct (iteration_run env s w) as (name & parent & data & _ & _ & Hi).
    cbn zeta in Hi.
    destruct (iteration env s w) as [[[s1|s1]|e] w1] eqn:Hit.
    + eapply IH; [|exact Hrun].
      eapply reachable_retry; [exact Hr | by apply Nat.leb_le | exact Hit].
    + injection Hrun as <- <-.
      destruct (log_fault env (log_calls w)); [discriminate|].
      destruct (choice_eqb _ _); [|destruct (_ <? _); [discriminate|]];
        injection Hi as -> ->;
        (split; [|by intros s' [= <-]]);
        cbn [generation_calls append_row count_log_call add_generation_call];
        rewrite length_app; cbn [length]; lia.
    + injection Hrun as <- <-.
      destruct (log_fault env (log_calls w));
        [|destruct (choice_eqb _ _); [|destruct (_ <? _)]; discriminate].
      injection Hi as _ ->. split; [|done].
      cbn [generation_calls append_row count_log_call add_generation_call].
      rewrite length_app. cbn [length]. lia.
Qed.

(** C1.  In every state the loop can reach, the attempt the pass makes is
    at most number [retry_limit + 1]; it is the only generation call of the
    pass, so that after the pass (however it ends) exactly [attempt_count]
    calls have been made; a pass ends in a retry only when the user asked
    for one while [attempt_count] was below that bound, and the retry adds
    one; at the bound a request to retry ends the loop with the candidate
    kept and a [max_retries_reached] row; and whatever the rest of the run,
    the loop ends with at most [retry_limit + 1] generation calls made and,
    when it returns a session, with that session's [attempt_count] within
    the bound. *)
Theorem attempts_never_exceed_limit (env : Env) (s : Session) (w : World) :
  reachable env s w ->
  attempt_count s <= retry_limit + 1
  /\ length (generation_calls w) = retry_count s
  /\ (forall r w', iteration env s w = (r, w') ->
        length (generation_calls w') = attempt_count s)
  /\ (forall s' w', iteration env s w = (Ok (Continue s'), w') ->
        choice env (retry_count s) = UserRetry
        /\ attempt_count s < retry_limit + 1
        /\ attempt_count s' = attempt_count s + 1)
  /\ (attempt_count s = retry_limit + 1 ->
      choice env (retry_count s) = UserRetry ->
      log_fault env (log_calls w) = None ->
      exists s' w' name,
        iteration env s w = (Ok (Break s'), w')
        /\ new_directory_name s' = Some name
        /\ retry_count s' = retry_count s
        /\ last (log_file w') = Some (loop_entry env s' name max_retries_reached ""))
  /\ (forall fuel r w', negotiation_loop fuel env s w = (r, w') ->
        length (generation_calls w') <= retry_limit + 1
        /\ forall s', r = Ok (Some s') -> attempt_count s' <= retry_limit + 1).
Proof.
  intros Hr. pose proof (reachable_invariant _ _ _ Hr) as [Hle Hlen].
  unfold attempt_count, retry_limit.
  destruct (iteration_run env s w) as (name & parent & data & _ & _ & Hi).
  cbn zeta in Hi.
  split; [lia|]. split; [done|]. split; [|split; [|split]].
  - intros r w' Hit. rewrite Hi in Hit. clear Hi.
    destruct (log_fault env (log_calls w));
      [|destruct (choice_eqb _ _); [|destruct (_ <? _)]];
      injection Hit as _ <-;
      cbn [generation_calls append_row count_log_call add_generation_call];
      rewrite length_app; cbn [length]; lia.
  - intros s' w' Hit. rewrite Hi in Hit. clear Hi.
    destruct (log_fault env (log_calls w)); [discriminate|].
    destruct (choice env (retry_count s)) eqn:Hc; cbn [choice_eqb] in Hit;
      [discriminate|].
    destruct (Nat.ltb_spec (retry_count s) max_retries); [|discriminate].
    injection Hit as <- _. cbn [retry_count]. split; [done|]. lia.
  - intros Hbound Hc Hlog. rewrite Hlog, Hc in Hi. cbn [choice_eqb] in Hi.
    destruct (Nat.ltb_spec (retry_count s) max_retries); [lia|].
    eexists _, _, name. split; [exact Hi|].
    cbn [new_directory_name retry_count log_file append_row].
    split; [done|]. split; [done|]. apply last_snoc.
  - intros fuel r w' Hrun.
    destruct (loop_calls_bounded _ _ _ _ _ _ Hr Hrun) as [Hcalls Hend].
    split; [done|]. intros s' Hs'. specialize (Hend s' Hs'). lia.
Qed.

(** The bound is reached: after three retries the sample run stands at
    attempt 4, where a fourth request to retry ends the loop. *)
Lemma attempts_never_exceed_limit_witness :
  let st := after_retries Scenarios.scenario_C 3 in
  reachable Scenarios.scenario_C st.1 st.2
  /\ attempt_count st.1 = retry_limit + 1
  /\ length (generation_calls st.2) = 3
  /\ exists s' w' name,
       iteration Scenarios.scenario_C st.1 st.2 = (Ok (Break s'), w')
       /\ new_directory_name s' = Some name
       /\ retry_count s' = retry_count st.1
       /\ last (log_file w')
          = Some (loop_entry Scenarios.scenario_C s' name max_retries_reached "").
Proof.
  cbv zeta.
  pose proof (after_retries_reachable Scenarios.scenario_C 3) as Hr.
  pose proof (attempts_never_exceed_limit Scenarios.scenario_C _ _ Hr)
    as (_ & Hlen & _ & _ & Hbound & _).
  split; [exact Hr|]. split; [vm_compute; reflexivity|].
  split; [rewrite Hlen; vm_compute; reflexivity|].
  apply Hbound; vm_compute; reflexivity.
Defined.

End LoopFacts.

(** ** The claims on names *)

Section NameClaims.
Import PyStr NameValidator NamingClient ContentAnalyzer Exec Orchestrator.

(** C5.  The validator accepts the two-character name made of [a] and a
    line feed, which the rule "first character a lowercase letter, remainder
    alphanumeric only" excludes: the [$] of the pattern also matches just
    before a final line feed.  Outside this case the validator and the rule
    agree ([validate_directory_name_iff], [spec_valid_accepted]). *)
Theorem validate_accepts_trailing_newline :
  validate_directory_name (String "a" (String newline "")) = true
  /\ ~ spec_valid (String "a" (String newline "")).
Proof.
  split; [reflexivity|].
  intros (_ & c & r & Heq & _ & Hr). injection Heq as <- <-. discriminate Hr.
Qed.

Lemma strftime_Ymd_all_digits (d : Date) :
  forallb_chars is_digit (strftime_Ymd d) = true.
Proof.
  unfold strftime_Ymd.
  repeat (rewrite (forallb_chars_cons is_digit), digit_char_is_digit).
  reflexivity.
Qed.

Lemma string_app_inv_head (p a b : string) : p +:+ a = p +:+ b -> a = b.
Proof.
  induction p as [|c p IH]; [done|].
  intros Heq. injection Heq as Heq. by apply IH.
Qed.

Lemma digit_char_code (n : nat) : code (digit_char n) = 48 + n mod 10.
Proof.
  unfold digit_char, code. apply nat_ascii_embedding.
  pose proof (Nat.mod_upper_bound n 10 ltac:(lia)). lia.
Qed.

Lemma digit_value (n : nat) : code (digit_char n) - code "0"%char = n mod 10.
Proof. rewrite digit_char_code. change (code "0"%char) with 48. lia. Qed.

(** Two and four decimal digits, read back. *)
Lemma read_two_digits (n : nat) :
  n < 100 ->
  FallbackStamp.int (String (digit_char (n / 10)) (String (digit_char n) "")) = n.
Proof.
  intros Hn. unfold FallbackStamp.int. cbn [FallbackStamp.read_digits].
  rewrite !digit_value.
  assert (n / 10 < 10) as Hq by (apply Nat.Div0.div_lt_upper_bound; lia).
  rewrite (Nat.mod_small (n / 10) 10 Hq).
  pose proof (Nat.div_mod_eq n 10). lia.
Qed.

Lemma read_four_digits (n : nat) :
  n < 100 * 100 ->
  FallbackStamp.int
    (String (digit_char (n / 1000)) (String (digit_char (n / 100))
       (String (digit_char (n / 10)) (String (digit_char n) "")))) = n.
Proof.
  intros Hn. unfold FallbackStamp.int. cbn [FallbackStamp.read_digits].
  rewrite !digit_value.
  assert (n / 1000 < 10) as Hq by (apply Nat.Div0.div_lt_upper_bound; lia).
  rewrite (Nat.mod_small (n / 1000) 10 Hq).
  change 1000 with (10 * 100). change 100 with (10 * 10).
  rewrite <-!Nat.Div0.div_div.
  pose proof (Nat.div_mod_eq n 10).
  pose proof (Nat.div_mod_eq (n / 10) 10).
  pose proof (Nat.div_mod_eq (n / 10 / 10) 10).
  pose proof (Nat.div_mod_eq (n / 10 / 10 / 10) 10).
  lia.
Qed.

(** The eight characters of the date, read back as numbers. *)
Lemma strftime_Ymd_reads_back (d : Date) :
  FallbackStamp.calendar_date d ->
  FallbackStamp.int (substring 0 4 (strftime_Ymd d)) = year d
  /\ FallbackStamp.int (substring 4 2 (strftime_Ymd d)) = month d
  /\ FallbackStamp.int (substring 6 2 (strftime_Ymd d)) = day d.
Proof.
  intros (Hy & Hm & Hd). unfold strftime_Ymd. cbn [substring].
  split; [apply read_four_digits; lia|].
  split; apply read_two_digits; lia.
Qed.

Lemma strftime_Ymd_inj (d1 d2 : Date) :
  FallbackStamp.calendar_date d1 -> FallbackStamp.calendar_date d2 ->
  strftime_Ymd d1 = strftime_Ymd d2 -> d1 = d2.
Proof.
  intros H1 H2 Heq.
  destruct (strftime_Ymd_reads_back d1 H1) as (Hy1 & Hm1 & Hd1).
  destruct (strftime_Ymd_reads_back d2 H2) as (Hy2 & Hm2 & Hd2).
  rewrite Heq in Hy1, Hm1, Hd1.
  destruct d1, d2. cbn [year month day] in *. congruence.
Qed.

(** C8.  Without a client, on an exception of the external call, and on a
    reply that fails validation, both generation methods return the fallback
    name.  That name is the stub [processedAudio] followed by eight digits
    which are the date the clock reads: the first four read as a number are
    its year, the next two its month and the last two its day, so that two
    dates of the calendar never give the same name.  The name passes the
    validator, and so does whatever the generation methods return, for
    every client. *)
Theorem fallback_on_any_failure (now : Date) (analysis_data : Payload)
    (feedback : option string) :
  generate_directory_name None now analysis_data = create_fallback_name now
  /\ generate_directory_name_with_feedback None now analysis_data feedback
     = create_fallback_name now
  /\ (forall svc, svc (create_naming_prompt analysis_data) = Failure ->
        generate_directory_name (Some svc) now analysis_data
        = create_fallback_name now)
  /\ (forall svc,
        svc (create_naming_prompt_with_feedback analysis_data feedback) = Failure ->
        generate_directory_name_with_feedback (Some svc) now analysis_data feedback
        = create_fallback_name now)
  /\ (forall svc text,
        svc (create_naming_prompt analysis_data) = Reply text ->
        validate_directory_name (strip text) = false ->
        generate_directory_name (Some svc) now analysis_data
        = create_fallback_name now)
  /\ (forall svc text,
        svc (create_naming_prompt_with_feedback analysis_data feedback) = Reply text ->
        validate_directory_name (strip text) = false ->
        generate_directory_name_with_feedback (Some svc) now analysis_data feedback
        = create_fallback_name now)
  /\ (exists stamp,
        create_fallback_name now = "processedAudio" +:+ stamp
        /\ String.length stamp = 8
        /\ forallb_chars is_digit stamp = true
        /\ (FallbackStamp.calendar_date now ->
            FallbackStamp.int (substring 0 4 stamp) = year now
            /\ FallbackStamp.int (substring 4 2 stamp) = month now
            /\ FallbackStamp.int (substring 6 2 stamp) = day now))
  /\ (forall other,
        FallbackStamp.calendar_date now -> FallbackStamp.calendar_date other ->
        create_fallback_name now = create_fallback_name other -> now = other)
  /\ validate_directory_name (create_fallback_name now) = true
  /\ (forall client,
        validate_directory_name (generate_directory_name client now analysis_data)
        = true
        /\ validate_directory_name
             (generate_directory_name_with_feedback client now analysis_data feedback)
           = true).
Proof.
  split_and!.
  - reflexivity.
  - reflexivity.
  - intros svc H. unfold generate_directory_name. by rewrite H.
  - intros svc H. unfold generate_directory_name_with_feedback. by rewrite H.
  - intros svc text H Hv. unfold generate_directory_name, name_of_response.
    by rewrite H, Hv.
  - intros svc text H Hv.
    unfold generate_directory_name_with_feedback, name_of_response.
    by rewrite H, Hv.
  - exists (strftime_Ymd now). split; [reflexivity|].
    split; [apply strftime_Ymd_length|].
    split; [apply strftime_Ymd_all_digits|].
    apply strftime_Ymd_reads_back.
  - intros other Hnow Hother Heq. apply strftime_Ymd_inj; [done..|].
    by apply (string_app_inv_head "processedAudio").
  - apply fallback_name_validates.
  - intros client. split.
    + apply generate_directory_name_validates.
    + apply generate_with_feedback_validates.
Qed.

(** On the first of January 2025, without a client, the name is
    [processedAudio20250101]; a day later it is another name. *)
Lemma fallback_on_any_failure_witness :
  let now := {| year := 2025; month := 1; day := 1 |} in
  let next := {| year := 2025; month := 1; day := 2 |} in
  let analysis_data :=
    create_analysis_payload "inbox/talks" Scenarios.sample_directory false in
  FallbackStamp.calendar_date now
  /\ FallbackStamp.calendar_date next
  /\ generate_directory_name None now analysis_data = "processedAudio20250101"
  /\ generate_directory_name None next analysis_data
     <> generate_directory_name None now analysis_data.
Proof.
  cbv zeta.
  assert (FallbackStamp.calendar_date {| year := 2025; month := 1; day := 1 |})
    as Hnow by (unfold FallbackStamp.calendar_date; cbn; lia).
  assert (FallbackStamp.calendar_date {| year := 2025; month := 1; day := 2 |})
    as Hnext by (unfold FallbackStamp.calendar_date; cbn; lia).
  split; [exact Hnow|]. split; [exact Hnext|].
  destruct (fallback_on_any_failure {| year := 2025; month := 1; day := 1 |}
              (create_analysis_payload "inbox/talks" Scenarios.sample_directory
                 false) None)
    as (Hnone & _ & _ & _ & _ & _ & _ & Hinj & _).
  split; [rewrite Hnone; vm_compute; reflexivity|].
  intros Heq. rewrite Hnone in Heq.
  change (generate_directory_name None {| year := 2025; month := 1; day := 2 |}
            (create_analysis_payload "inbox/talks" Scenarios.sample_directory false))
    with (create_fallback_name {| year := 2025; month := 1; day := 2 |}) in Heq.
  specialize (Hinj _ Hnow Hnext (eq_sym Heq)). discriminate Hinj.
Defined.

(** What a generation method returns is the fallback name or the trimmed,
    validated reply of the service. *)
Lemma name_of_response_cases (now : Date) (r : Response) :
  name_of_response now r = create_fallback_name now
  \/ exists text, r = Reply text
       /\ name_of_response now r = strip text
       /\ validate_directory_name (strip text) = true.
Proof.
  destruct r as [text|]; cbn [name_of_response]; [|by left].
  destruct (validate_directory_name (strip text)) eqn:Hv; [|by left].
  right. by exists text.
Qed.

(** C10.  Both generation methods return a non-empty string, which is the
    fallback name or the trimmed reply of the service when it validates; so
    the generation step of a pass always yields a candidate, and no pass of
    the loop writes a [generation_failed] row: the rows a pass adds to the
    log are never of that kind. *)
Theorem generation_never_empty (client : Client) (now : Date)
    (analysis_data : Payload) (feedback : option string) :
  generate_directory_name client now analysis_data <> ""
  /\ generate_directory_name_with_feedback client now analysis_data feedback <> ""
  /\ (generate_directory_name client now analysis_data = create_fallback_name now
      \/ exists svc text,
           client = Some svc
           /\ svc (create_naming_prompt analysis_data) = Reply text
           /\ generate_directory_name client now analysis_data = strip text
           /\ validate_directory_name (strip text) = true)
  /\ (generate_directory_name_with_feedback client now analysis_data feedback
      = create_fallback_name now
      \/ exists svc text,
           client = Some svc
           /\ svc (create_naming_prompt_with_feedback analysis_data feedback)
              = Reply text
           /\ generate_directory_name_with_feedback client now analysis_data feedback
              = strip text
           /\ validate_directory_name (strip text) = true)
  /\ (forall env s w, exists s' w',
        generate env s w = (Ok s', w')
        /\ truthy_opt (new_directory_name s') = true)
  /\ (forall env s w, exists rows,
        log_file (iteration env s w).2 = log_file w ++ rows
        /\ Forall (fun row => user_action row <> generation_failed) rows).
Proof.
  split_and!.
  - apply truthy_nonempty, validated_nonempty, generate_directory_name_validates.
  - apply truthy_nonempty, validated_nonempty, generate_with_feedback_validates.
  - destruct client as [svc|]; cbn [generate_directory_name]; [|by left].
    destruct (name_of_response_cases now (svc (create_naming_prompt analysis_data)))
      as [Hf | (text & Hr & Hn & Hv)]; [by left|].
    right. by exists svc, text.
  - destruct client as [svc|]; cbn [generate_directory_name_with_feedback];
      [|by left].
    destruct (name_of_response_cases now
                (svc (create_naming_prompt_with_feedback analysis_data feedback)))
      as [Hf | (text & Hr & Hn & Hv)]; [by left|].
    right. by exists svc, text.
  - intros env s w.
    destruct (generate_run env s w) as (name & parent & data & Hg & Hv).
    eexists _, _. split; [exact Hg|]. cbn [new_directory_name truthy_opt].
    by apply validated_nonempty.
  - intros env s w.
    destruct (iteration_run env s w) as (name & parent & data & _ & _ & Hi).
    cbn zeta in Hi. rewrite Hi. clear Hi.
    destruct (log_fault env (log_calls w)).
    { exists []. cbn [snd log_file count_log_call add_generation_call].
      by rewrite app_nil_r. }
    destruct (choice_eqb _ _); [|destruct (_ <? _)];
      (eexists [_]; split; [reflexivity|]);
      by repeat constructor.
Qed.

End NameClaims.

(** ** Placement *)

Section PlacementFacts.
Import PyStr Exec ContentAnalyzer Orchestrator.

Lemma log_naming_attempt_ok (env : Env) (row : LogEntry) (w : World) :
  log_fault env (log_calls w) = None ->
  log_naming_attempt env row w = (Ok tt, append_row row (count_log_call w)).
Proof. intros H. unfold log_naming_attempt. by rewrite H. Qed.

Lemma fs_relocate_run (fault : option Exn) (src dst : string) (w : World) :
  location w = src ->
  fs_relocate fault src dst w =
  match fault with
  | Some e => (Raised e, w)
  | None => (Ok tt, set_location dst w)
  end.
Proof. intros H. unfold fs_relocate. by rewrite bool_decide_true. Qed.







End PlacementFacts.

(** ** The loop as a whole *)

Section LoopClaims.
Import PyStr Exec ContentAnalyzer Orchestrator.

(** A pass in which the user asks for another name while retries are left. *)
Lemma iteration_retry (env : Env) (s : Session) (w : World) :
  retry_count s < max_retries ->
  choice env (retry_count s) = UserRetry ->
  log_fault env (log_calls w) = None ->
  exists name parent data,
    let feedback := collect_user_feedback (typed_feedback env (retry_count s)) in
    iteration env s w =
      (Ok (Continue
             {| retry_count := retry_count s + 1;
                feedback_history := feedback_history s ++ [feedback];
                current_analysis_data := data;
                new_directory_name := Some name;
                optimal_parent_path := parent |}),
       append_row
         {| entry_session_id := session_id env;
            attempt_number := retry_count s + 1;
            source_path := directory_path env;
            generated_name := name;
            optimal_parent := default "" parent;
            user_action := retry;
            user_feedback := feedback;
            final_destination := "" |}
         (count_log_call
            (add_generation_call
               {| call_retry_count := retry_count s;
                  call_payload := data;
                  call_feedback :=
                    if retry_count s =? 0 then None
                    else Some (join " | " (feedback_history s));
                  call_history := feedback_history s |} w))).
Proof.
  intros Hlt Hc Hlog.
  destruct (iteration_run env s w) as (name & parent & data & _ & _ & Hi).
  cbn zeta in Hi. rewrite Hlog, Hc in Hi. cbn [choice_eqb] in Hi.
  destruct (Nat.ltb_spec (retry_count s) max_retries); [|lia].
  exists name, parent, data. exact Hi.
Qed.

(** A pass in which the user asks for another name and none is left. *)
Lemma iteration_limit (env : Env) (s : Session) (w : World) :
  max_retries <= retry_count s ->
  choice env (retry_count s) = UserRetry ->
  log_fault env (log_calls w) = None ->
  exists name parent data,
    let s1 := {| retry_count := retry_count s;
                 feedback_history := feedback_history s;
                 current_analysis_data := data;
                 new_directory_name := Some name;
                 optimal_parent_path := parent |} in
    iteration env s w =
      (Ok (Break s1),
       append_row (loop_entry env s1 name max_retries_reached "")
         (count_log_call
            (add_generation_call
               {| call_retry_count := retry_count s;
                  call_payload := data;
                  call_feedback :=
                    if retry_count s =? 0 then None
                    else Some (join " | " (feedback_history s));
                  call_history := feedback_history s |} w))).
Proof.
  intros Hge Hc Hlog.
  destruct (iteration_run env s w) as (name & parent & data & _ & _ & Hi).
  cbn zeta in Hi. rewrite Hlog, Hc in Hi. cbn [choice_eqb] in Hi.
  destruct (Nat.ltb_spec (retry_count s) max_retries); [lia|].
  exists name, parent, data. exact Hi.
Qed.

Lemma loop_continue (fuel : nat) (env : Env) (s s' : Session) (w w' : World) :
  retry_count s <= max_retries ->
  iteration env s w = (Ok (Continue s'), w') ->
  negotiation_loop (S fuel) env s w = negotiation_loop fuel env s' w'.
Proof.
  intros Hle Hi. cbn [negotiation_loop].
  destruct (Nat.leb_spec (retry_count s) max_retries); [|lia].
  by rewrite run_bind, Hi.
Qed.

Lemma loop_break (fuel : nat) (env : Env) (s s' : Session) (w w' : World) :
  retry_count s <= max_retries ->
  iteration env s w = (Ok (Break s'), w') ->
  negotiation_loop (S fuel) env s w = (Ok (Some s'), w').
Proof.
  intros Hle Hi. cbn [negotiation_loop].
  destruct (Nat.leb_spec (retry_count s) max_retries); [|lia].
  by rewrite run_bind, Hi.
Qed.

Local Ltac count_retries :=
  unfold max_retries;
  repeat match goal with x := _ : Session |- _ => subst x end;
  cbn [retry_count initial_session]; lia.

Local Ltac name_state s w H :=
  match type of H with
  | _ = (Ok (_ ?s0), ?w0) => set (s := s0) in *; set (w := w0) in *
  end.

(** C2, as the code has it.  When the user asks for another name at each
    of the four prompts and the logger works, the loop makes four
    generation calls: the first with no feedback, and the call after the
    k-th retry with the k complaints collected so far, joined by [" | "].
    The history therefore has two entries at the third call and three at
    the fourth, the call of the third retry.  The fourth request is not
    granted: the loop ends with the fourth candidate kept, [retry_count]
    still 3, three entries in the history, and the rows [retry], [retry],
    [retry], [max_retries_reached] in the log.  A complaint that is not
    blank enters the history as typed, trimmed. *)
Theorem three_retries_then_forced_acceptance (env : Env) :
  (forall k, k <= 3 -> choice env k = UserRetry) ->
  (forall k, log_fault env k = None) ->
  let f := fun k => collect_user_feedback (typed_feedback env k) in
  let run := negotiate env (initial_world env) in
  map call_history (generation_calls run.2)
  = [[]; [f 0]; [f 0; f 1]; [f 0; f 1; f 2]]
  /\ map call_feedback (generation_calls run.2)
     = [None; Some (f 0); Some (f 0 +:+ " | " +:+ f 1);
        Some (f 0 +:+ " | " +:+ f 1 +:+ " | " +:+ f 2)]
  /\ (exists s name,
        run.1 = Ok (Some s)
        /\ retry_count s = 3
        /\ feedback_history s = [f 0; f 1; f 2]
        /\ new_directory_name s = Some name
        /\ last (log_file run.2)
           = Some (loop_entry env s name max_retries_reached ""))
  /\ map user_action (log_file run.2) = [retry; retry; retry; max_retries_reached]
  /\ (forall k, strip (typed_feedback env k) <> "" ->
        f k = strip (typed_feedback env k)).
Proof.
  intros Hchoice Hlog f run. subst run.
  unfold negotiate, max_retries.
  destruct (iteration_retry env (initial_session env) (initial_world env))
    as (n0 & p0 & d0 & H0);
    [count_retries
    |apply Hchoice; count_retries | apply Hlog |].
  cbn zeta in H0. name_state s1 w1 H0.
  rewrite (loop_continue _ env (initial_session env) _ _ _
             ltac:(count_retries) H0).
  destruct (iteration_retry env s1 w1) as (n1 & p1 & d1 & H1);
    [count_retries
    |apply Hchoice; count_retries | apply Hlog |].
  cbn zeta in H1. name_state s2 w2 H1.
  rewrite (loop_continue _ env s1 _ _ _
             ltac:(count_retries) H1).
  destruct (iteration_retry env s2 w2) as (n2 & p2 & d2 & H2);
    [count_retries
    |apply Hchoice; count_retries | apply Hlog |].
  cbn zeta in H2. name_state s3 w3 H2.
  rewrite (loop_continue _ env s2 _ _ _
             ltac:(count_retries) H2).
  destruct (iteration_limit env s3 w3) as (n3 & p3 & d3 & H3);
    [count_retries
    |apply Hchoice; count_retries | apply Hlog |].
  cbn zeta in H3. name_state s4 w4 H3.
  rewrite (loop_break _ env s3 _ _ _
             ltac:(count_retries) H3).
  clear H0 H1 H2 H3.
  cbn [fst snd].
  split_and!.
  - reflexivity.
  - reflexivity.
  - exists s4, n3. split_and!; reflexivity.
  - reflexivity.
  - intros k Hk. subst f. unfold collect_user_feedback.
    apply truthy_nonempty in Hk. by rewrite Hk.
Qed.

(** The sample run: four requests to retry, three complaints. *)
Lemma three_retries_then_forced_acceptance_witness :
  let env := Scenarios.scenario_C in
  let run := negotiate env (initial_world env) in
  (forall k, k <= 3 -> choice env k = UserRetry)
  /\ (forall k, log_fault env k = None)
  /\ map call_history (generation_calls run.2)
      = [[]; ["too generic"]; ["too generic"; "wrong focus"];
         ["too generic"; "wrong focus"; "too short"]]
  /\ map call_feedback (generation_calls run.2)
      = [None; Some "too generic"; Some "too generic | wrong focus";
         Some "too generic | wrong focus | too short"]
  /\ map user_action (log_file run.2) = [retry; retry; retry; max_retries_reached].
Proof.
  cbv zeta.
  assert (forall k, k <= 3 -> choice Scenarios.scenario_C k = UserRetry) as Hc
    by (intros k _; reflexivity).
  assert (forall k, log_fault Scenarios.scenario_C k = None) as Hl
    by (intros k; reflexivity).
  split; [exact Hc|]. split; [exact Hl|].
  pose proof (three_retries_then_forced_acceptance Scenarios.scenario_C Hc Hl)
    as (Hh & Hf & _ & Hrows & _).
  split; [exact Hh|]. split; [exact Hf|]. exact Hrows.
Defined.

(** C2 as stated fails on the sample run: the user asks for another name
    with a complaint at each of the first three attempts, and the history
    seen by the third generation call has two entries, not three. *)
Lemma third_call_sees_two_complaints :
  let env := Scenarios.scenario_C in
  let run := negotiate env (initial_world env) in
  (forall k, k < 3 ->
     choice env k = UserRetry /\ strip (typed_feedback env k) <> "")
  /\ call_history <$> generation_calls run.2 !! 2
      = Some ["too generic"; "wrong focus"]
  /\ ~ (exists c, generation_calls run.2 !! 2 = Some c
                  /\ length (call_history c) = 3).
Proof.
  cbv zeta. split; [|split].
  - intros k Hk.
    assert (k = 0 \/ k = 1 \/ k = 2) as [-> | [-> | ->]] by lia;
      (split; [reflexivity | vm_compute; discriminate]).
  - vm_compute. reflexivity.
  - intros (c & Hc & Hlen).
    assert (length <$> (call_history <$> generation_calls
              (negotiate Scenarios.scenario_C
                 (initial_world Scenarios.scenario_C)).2 !! 2) = Some 2) as H2
      by (vm_compute; reflexivity).
    rewrite Hc in H2. cbn in H2. congruence.
Qed.

(** *** The logger and the outcome *)

Lemma generate_without_log_faults (env : Env) (s : Session) (w : World) :
  generate (without_log_faults env) s w = generate env s w.
Proof. reflexivity. Qed.

(** A pass calls the logger exactly once. *)
Lemma iteration_log_calls (env : Env) (s : Session) (w : World) :
  log_calls (iteration env s w).2 = S (log_calls w).
Proof.
  destruct (iteration_run env s w) as (name & parent & data & _ & _ & Hi).
  cbn zeta in Hi. rewrite Hi.
  destruct (log_fault env (log_calls w));
    [|destruct (choice_eqb _ _); [|destruct (_ <? _)]]; reflexivity.
Qed.

(** With a logger that works at this call, a pass does what it does with a
    logger that always works; with one that fails, it raises. *)
Lemma iteration_log_fault (env : Env) (s : Session) (w : World) :
  match log_fault env (log_calls w) with
  | None => iteration env s w = iteration (without_log_faults env) s w
  | Some e => (iteration env s w).1 = Raised e
  end.
Proof.
  destruct (iteration_run env s w) as (name & parent & data & _ & Hg & Hi).
  destruct (iteration_run (without_log_faults env) s w)
    as (name0 & parent0 & data0 & _ & Hg0 & Hi0).
  cbn zeta in *. rewrite generate_without_log_faults, Hg in Hg0.
  injection Hg0 as <- <- <-. rewrite Hi, Hi0.
  destruct (log_fault env (log_calls w)); reflexivity.
Qed.

Lemma iteration_without_log_faults_ok (env : Env) (s : Session) (w : World) :
  exists step, (iteration (without_log_faults env) s w).1 = Ok step.
Proof.
  destruct (iteration_run (without_log_faults env) s w)
    as (name & parent & data & _ & _ & Hi).
  cbn zeta in Hi. rewrite Hi. cbn [log_fault without_log_faults].
  destruct (choice_eqb _ _); [|destruct (_ <? _)]; eauto.
Qed.

Lemma loop_log_calls_mono (fuel : nat) (env : Env) (s : Session) (w : World) :
  log_calls w <= log_calls (negotiation_loop fuel env s w).2.
Proof.
  revert s w. induction fuel as [|fuel IH]; intros s w; [done|].
  cbn [negotiation_loop]. destruct (_ <=? _); [|done].
  rewrite run_bind. pose proof (iteration_log_calls env s w) as Hc.
  destruct (iteration env s w) as [[[s'|s']|e] w'];
    cbn [snd mret M_ret ret] in Hc |- *;
    [specialize (IH s' w')|..]; lia.
Qed.

(** The loop under a logger that may fail, against the loop under one
    that never fails, from the same state: the same result while every
    append the latter makes works, the exception of the first append that
    fails otherwise. *)
Lemma loop_log_faults (fuel : nat) (env : Env) (s : Session) (w : World) :
  let run := negotiation_loop fuel env s w in
  let run0 := negotiation_loop fuel (without_log_faults env) s w in
  ((forall k, log_calls w <= k < log_calls run0.2 -> log_fault env k = None) ->
   run = run0)
  /\ (forall k e,
        log_calls w <= k < log_calls run0.2 ->
        log_fault env k = Some e ->
        (forall j, log_calls w <= j < k -> log_fault env j = None) ->
        run.1 = Raised e /\ log_calls run.2 = S k).
Proof.
  revert s w. induction fuel as [|fuel IH]; intros s w; cbv zeta.
  - cbn [negotiation_loop]. split; [done|]. intros k e Hk. cbn in Hk. lia.
  - cbn [negotiation_loop].
    destruct (retry_count s <=? max_retries).
    2:{ split; [done|]. intros k e Hk. cbn in Hk. lia. }
    rewrite !run_bind.
    pose proof (iteration_log_fault env s w) as Hf.
    pose proof (iteration_log_calls (without_log_faults env) s w) as Hc0.
    pose proof (iteration_log_calls env s w) as Hc.
    destruct (iteration_without_log_faults_ok env s w) as [step0 Hok].
    destruct (iteration (without_log_faults env) s w) as [r0 w0] eqn:Hi0.
    cbn [fst snd] in Hok, Hc0. subst r0.
    destruct (log_fault env (log_calls w)) as [e0|] eqn:Hlf.
    + destruct (iteration env s w) as [r1 w1]. cbn [fst snd] in Hf, Hc. subst r1.
      split.
      * intros Hnone. rewrite Hnone in Hlf; [done|].
        split; [lia|]. destruct step0 as [s'|s'].
        -- pose proof (loop_log_calls_mono fuel (without_log_faults env) s' w0).
           lia.
        -- cbn [snd mret M_ret ret]. lia.
      * intros k e Hk Hke Hmin.
        destruct (decide (k = log_calls w)) as [->|Hne].
        -- rewrite Hlf in Hke. injection Hke as ->. cbn [fst snd]. by rewrite Hc.
        -- rewrite Hmin in Hlf; [done|]. lia.
    + rewrite Hf. destruct step0 as [s'|s'].
      * destruct (IH s' w0) as [IHa IHb]. split.
        -- intros Hnone. apply IHa. intros k Hk. apply Hnone. lia.
        -- intros k e Hk Hke Hmin. apply IHb; [|done|].
           ++ destruct (decide (k = log_calls w)) as [->|]; [congruence|lia].
           ++ intros j Hj. apply Hmin. lia.
      * split; [done|]. intros k e Hk Hke _. cbn [snd mret M_ret ret] in Hk.
        assert (k = log_calls w) as -> by lia. congruence.
Qed.

(** [max_retries + 1 - retry_count] passes are enough for the loop to end,
    whatever the outside world does. *)
Lemma loop_never_out_of_fuel (fuel : nat) (env : Env) (s : Session) (w : World) :
  retry_count s <= max_retries ->
  max_retries + 1 - retry_count s <= fuel ->
  (negotiation_loop fuel env s w).1 <> Ok None.
Proof.
  revert s w. induction fuel as [|fuel IH]; intros s w Hle Hfuel; [lia|].
  cbn [negotiation_loop].
  destruct (Nat.leb_spec (retry_count s) max_retries); [|lia].
  rewrite run_bind.
  destruct (iteration_run env s w) as (name & parent & data & _ & _ & Hi).
  cbn zeta in Hi. rewrite Hi. clear Hi.
  destruct (log_fault env (log_calls w)); [done|].
  destruct (choice_eqb _ _); [done|].
  destruct (Nat.ltb_spec (retry_count s) max_retries); [|done].
  apply IH; cbn [retry_count]; lia.
Qed.

Lemma negotiate_total (env : Env) (w : World) :
  (negotiate env w).1 <> Ok None.
Proof.
  apply loop_never_out_of_fuel; unfold max_retries; cbn [retry_count initial_session]; lia.
Qed.

Lemma loop_without_log_faults_ok (fuel : nat) (env : Env) (s : Session) (w : World) :
  exists r, (negotiation_loop fuel (without_log_faults env) s w).1 = Ok r.
Proof.
  revert s w. induction fuel as [|fuel IH]; intros s w; [by eexists|].
  cbn [negotiation_loop]. destruct (_ <=? _); [|by eexists].
  rewrite run_bind.
  destruct (iteration_without_log_faults_ok env s w) as [step Hok].
  destruct (iteration (without_log_faults env) s w) as [r0 w0].
  cbn [fst] in Hok. subst r0. destruct step; [apply IH | by eexists].
Qed.

(** The first logger call that fails, if any, among the first [n]. *)
Lemma first_log_fault (env : Env) (n : nat) :
  (forall k, k < n -> log_fault env k = None)
  \/ exists k e, k < n /\ log_fault env k = Some e
                /\ forall j, j < k -> log_fault env j = None.
Proof.
  induction n as [|n [IH | (k & e & Hk & He & Hmin)]].
  - left. intros k Hk. lia.
  - destruct (log_fault env n) as [e|] eqn:Hn.
    + right. exists n, e. split; [lia|]. split; [done|]. intros j Hj. by apply IH.
    + left. intros k Hk. destruct (decide (k = n)) as [->|]; [done|]. apply IH. lia.
  - right. exists k, e. split; [lia|]. done.
Qed.

(** C3, as the code has it.  The run with a logger that never fails always
    ends with a session.  A run in which every append made works ends in the
    same state, with the same candidate, retry count and feedback history:
    the loop never reads the log.  But nothing catches a failure of the
    logger: the first append that fails raises out of the loop at that
    decision point, and the run has no outcome.  So a run either equals the
    run without failures or is aborted by the logger's exception. *)
Theorem logger_failure_aborts_loop (env : Env) :
  let run := negotiate env (initial_world env) in
  let run0 := negotiate (without_log_faults env) (initial_world env) in
  (exists s, run0.1 = Ok (Some s))
  /\ ((forall k, k < log_calls run0.2 -> log_fault env k = None) -> run = run0)
  /\ (forall k e,
        k < log_calls run0.2 ->
        log_fault env k = Some e ->
        (forall j, j < k -> log_fault env j = None) ->
        run.1 = Raised e /\ log_calls run.2 = S k)
  /\ (run = run0
      \/ exists k e, log_fault env k = Some e /\ run.1 = Raised e).
Proof.
  cbv zeta. unfold negotiate.
  pose proof (loop_log_faults (S max_retries) env (initial_session env)
                (initial_world env)) as [Hsame Hfirst].
  cbv zeta in Hsame, Hfirst.
  change (initial_session (without_log_faults env)) with (initial_session env).
  change (log_calls (initial_world env)) with 0 in Hsame, Hfirst.
  split_and!.
  - destruct (loop_without_log_faults_ok (S max_retries) env (initial_session env)
                (initial_world env)) as [[s|] Hr]; [by exists s|].
    exfalso. revert Hr. apply loop_never_out_of_fuel;
      unfold max_retries; cbn [retry_count initial_session]; lia.
  - intros Hnone. apply Hsame. intros k Hk. apply Hnone. lia.
  - intros k e Hk He Hmin. apply Hfirst; [lia | done |].
    intros j Hj. apply Hmin. lia.
  - destruct (first_log_fault env
      (log_calls (negotiation_loop (S max_retries) (without_log_faults env)
                    (initial_session env) (initial_world env)).2))
      as [Hnone | (k & e & Hk & He & Hmin)].
    + left. apply Hsame. intros k Hk. apply Hnone. lia.
    + right. exists k, e. split; [done|].
      apply (Hfirst k e); [lia | done |]. intros j Hj. apply Hmin. lia.
Qed.

(** C3 as stated fails on the sample run in which the log file cannot be
    opened: the user accepts the first name, the append raises, and the loop
    is aborted with that exception; with a working logger the same run ends
    with the candidate [docNotes] accepted. *)
Lemma unwritable_log_aborts_accept :
  let env := Scenarios.scenario_log_unwritable in
  (negotiate env (initial_world env)).1 = Raised (OSError "Permission denied")
  /\ exists s,
       (negotiate (without_log_faults env) (initial_world env)).1 = Ok (Some s)
       /\ new_directory_name s = Some "docNotes"
       /\ retry_count s = 0
       /\ feedback_history s = [].
Proof.
  cbv zeta. split; [vm_compute; reflexivity|].
  eexists. split; [vm_compute; reflexivity|]. split_and!; reflexivity.
Qed.

End LoopClaims.


(** ** FeedbackCategories *)

Section FeedbackFacts.
Import PyStr FeedbackCategories Orchestrator.

Lemma map_chars_app (f : ascii -> ascii) (s t : string) :
  map_chars f (s +:+ t) = map_chars f s +:+ map_chars f t.
Proof.
  induction s as [|c s IH]; [reflexivity|].
  change (String c s +:+ t) with (String c (s +:+ t)).
  cbn [map_chars]. by rewrite IH.
Qed.

Lemma lower_app (s t : string) : lower (s +:+ t) = lower s +:+ lower t.
Proof. apply map_chars_app. Qed.

Lemma map_chars_length (f : ascii -> ascii) (s : string) :
  String.length (map_chars f s) = String.length s.
Proof. induction s as [|c s IH]; [reflexivity|]. cbn [map_chars String.length]. by rewrite IH. Qed.

Lemma prefix_app_l (needle s t : string) :
  String.prefix needle s = true -> String.prefix needle (s +:+ t) = true.
Proof.
  revert needle. induction s as [|c s IH]; intros [|a needle] H.
  - by destruct t.
  - done.
  - done.
  - change (String c s +:+ t) with (String c (s +:+ t)).
    cbn [String.prefix] in H |- *. destruct (ascii_dec a c); [by apply IH | done].
Qed.

Lemma contains_app_l (needle s t : string) :
  contains needle s = true -> contains needle (s +:+ t) = true.
Proof.
  induction s as [|c s IH]; intros H.
  - cbn [contains] in H. apply orb_true_iff in H as [H|]; [|done].
    destruct needle; [|done]. by destruct t.
  - change (String c s +:+ t) with (String c (s +:+ t)).
    cbn [contains] in H |- *. apply orb_true_iff in H as [H|H].
    + apply (prefix_app_l _ _ t) in H.
      change (String c s +:+ t) with (String c (s +:+ t)) in H. by rewrite H.
    + rewrite (IH H). apply orb_true_r.
Qed.

Lemma contains_app_r (needle s t : string) :
  contains needle t = true -> contains needle (s +:+ t) = true.
Proof.
  intros H. induction s as [|c s IH]; [done|].
  change (String c s +:+ t) with (String c (s +:+ t)).
  cbn [contains]. rewrite IH. apply orb_true_r.
Qed.

Lemma prefix_refl_app (s t : string) : String.prefix s (s +:+ t) = true.
Proof.
  induction s as [|c s IH]; [by destruct t|].
  change (String c s +:+ t) with (String c (s +:+ t)).
  cbn [String.prefix]. destruct (ascii_dec c c); [done | congruence].
Qed.

(** A word occurs in any text written around it. *)
Lemma contains_middle (word pre post : string) :
  contains word (pre +:+ word +:+ post) = true.
Proof.
  apply contains_app_r, prefix_contains, prefix_refl_app.
Qed.

Lemma filter_table_cons {A : Type} (p : A -> bool) (x : A) (l : list A) :
  filter (fun y => p y) (x :: l)
  = if p x then x :: filter (fun y => p y) l else filter (fun y => p y) l.
Proof. rewrite filter_cons. by destruct (p x). Qed.

Lemma filter_none {A : Type} (p : A -> bool) (l : list A) :
  filter (fun y => p y) l = [] <-> forall x, x ∈ l -> p x = false.
Proof.
  induction l as [|y l IH]; [split; [intros _ x Hx; by apply not_elem_of_nil in Hx | done]|].
  rewrite filter_table_cons. destruct (p y) eqn:Hy.
  - split; [done|]. intros Hall. specialize (Hall y (list_elem_of_here _ _)). congruence.
  - rewrite IH. split.
    + intros Hall x [->|Hx]%elem_of_cons; auto.
    + intros Hall x Hx. apply Hall. by right.
Qed.

(** The tests keep the order of the table and take each category at most
    once. *)
Lemma matched_categories_table (feedback_lower : string) :
  matched_categories feedback_lower
  = map fst (filter (fun row => any_word_in feedback_lower row.2) category_table).
Proof.
  unfold matched_categories, category_table.
  rewrite !(filter_table_cons (fun row => any_word_in feedback_lower row.2)), filter_nil.
  cbn [snd].
  repeat match goal with
         | |- context [any_word_in feedback_lower ?ws] =>
             generalize (any_word_in feedback_lower ws); intros []
         end; reflexivity.
Qed.

(** Joined category names are neither empty nor the word [other]. *)
Lemma matched_categories_joined (feedback_lower : string) :
  matched_categories feedback_lower = []
  \/ (join "|" (matched_categories feedback_lower) <> ""
      /\ join "|" (matched_categories feedback_lower) <> "other").
Proof.
  unfold matched_categories.
  repeat match goal with
         | |- context [any_word_in feedback_lower ?ws] =>
             generalize (any_word_in feedback_lower ws); intros []
         end; cbv; first [by left | right; split; discriminate].
Qed.

Lemma any_word_in_true (text : string) (words : list string) (word : string) :
  word ∈ words -> contains word text = true -> any_word_in text words = true.
Proof.
  intros Hin Hc. unfold any_word_in. apply existsb_exists.
  exists word. split; [by apply list_elem_of_In | done].
Qed.

Lemma collect_user_feedback_nonempty (typed : string) :
  collect_user_feedback typed <> "".
Proof.
  unfold collect_user_feedback. by destruct (strip typed).
Qed.

Lemma categorize_feedback_nonempty (c : ascii) (r : string) :
  categorize_feedback (String c r)
  = match matched_categories (lower (String c r)) with
    | [] => "other"
    | _ => join "|" (matched_categories (lower (String c r)))
    end.
Proof. reflexivity. Qed.

(** The two ways a feedback that is not empty is answered. *)
Lemma categorize_feedback_cases (c : ascii) (r : string) :
  let hits := filter (mentions (String c r)) category_table in
  (hits = [] /\ categorize_feedback (String c r) = "other")
  \/ (hits <> []
      /\ categorize_feedback (String c r) = join "|" (map fst hits)
      /\ categorize_feedback (String c r) <> ""
      /\ categorize_feedback (String c r) <> "other").
Proof.
  cbv zeta.
  pose proof (matched_categories_joined (lower (String c r))) as Hjoin.
  rewrite categorize_feedback_nonempty.
  rewrite matched_categories_table in Hjoin |- *.
  change (fun row : string * list string => any_word_in (lower (String c r)) row.2)
    with (fun row => mentions (String c r) row) in *.
  destruct (filter _ category_table) as [|row rows] eqn:Hf; [by left|].
  destruct Hjoin as [Hnil | [Hne Hother]]; [done|]. by right.
Qed.

Lemma categorize_feedback_empty_iff (feedback : string) :
  categorize_feedback feedback = "" <-> feedback = "".
Proof.
  destruct feedback as [|c r]; [done|].
  destruct (categorize_feedback_cases c r) as [[_ ->] | (_ & _ & Hne & _)]; done.
Qed.

Lemma categorize_feedback_other_iff (feedback : string) :
  feedback <> "" ->
  (categorize_feedback feedback = "other"
   <-> forall row, row ∈ category_table -> mentions feedback row = false).
Proof.
  destruct feedback as [|c r]; [done|]. intros _.
  rewrite <-(filter_none (mentions (String c r)) category_table).
  destruct (categorize_feedback_cases c r) as [[Hnil ->] | (Hhits & _ & _ & Hother)]; done.
Qed.

(** X1.  [categorize_feedback] returns the empty string for the empty
    feedback only.  For any other feedback it returns the names of the
    categories of which a keyword occurs in the lowercased text, in the
    fixed order of the table and joined by [|]; the answer is [other]
    exactly when no keyword of any category occurs. *)
Theorem feedback_always_categorized (feedback : string) :
  (categorize_feedback feedback = "" <-> feedback = "")
  /\ (feedback <> "" ->
      categorize_feedback feedback
      = match filter (mentions feedback) category_table with
        | [] => "other"
        | rows => join "|" (map fst rows)
        end)
  /\ (feedback <> "" ->
      (categorize_feedback feedback = "other"
       <-> forall row, row ∈ category_table -> mentions feedback row = false)).
Proof.
  split; [apply categorize_feedback_empty_iff|].
  split; [|apply categorize_feedback_other_iff].
  destruct feedback as [|c r]; [done|]. intros _.
  destruct (categorize_feedback_cases c r) as [[-> ->] | (Hhits & -> & _)]; [done|].
  by destruct (filter _ category_table).
Qed.

(** X2.  Keywords are matched as substrings of the lowercased text: a
    keyword of a category written in any letter case anywhere in the
    feedback, inside a longer word included, puts the category into the
    answer. *)
Theorem keyword_anywhere_counts (row : string * list string)
    (word pre mid post : string) :
  row ∈ category_table -> word ∈ row.2 -> lower mid = word ->
  row ∈ filter (mentions (pre +:+ mid +:+ post)) category_table
  /\ row.1 ∈ matched_categories (lower (pre +:+ mid +:+ post))
  /\ categorize_feedback (pre +:+ mid +:+ post) <> "other".
Proof.
  intros Hrow Hword Hmid.
  assert (mentions (pre +:+ mid +:+ post) row = true) as Hm.
  { unfold mentions. apply (any_word_in_true _ _ word); [done|].
    rewrite !lower_app, Hmid. apply contains_middle. }
  assert (row ∈ filter (mentions (pre +:+ mid +:+ post)) category_table) as Hin.
  { apply list_elem_of_filter. split; [by rewrite Hm | done]. }
  split; [done|]. split.
  - rewrite matched_categories_table. apply list_elem_of_fmap. by exists row.
  - assert (pre +:+ mid +:+ post <> "") as Hne.
    { intros He. rewrite He in Hm. unfold mentions, any_word_in in Hm.
      apply existsb_exists in Hm as (w & Hw & Hc).
      destruct w; [|done].
      assert (forallb (fun row : string * list string =>
                forallb (fun w => negb (String.eqb w "")) row.2) category_table
              = true) as Hall by reflexivity.
      rewrite forallb_forall in Hall.
      specialize (Hall row (proj1 (list_elem_of_In _ _) Hrow)).
      rewrite forallb_forall in Hall. by specialize (Hall "" Hw). }
    rewrite (categorize_feedback_other_iff _ Hne). intros Hnone. rewrite (Hnone row Hrow) in Hm. done.
Qed.

(** The keyword [add] inside the word [Address]. *)
Lemma keyword_anywhere_counts_witness :
  let row := ("missing_info", ["missing"; "include"; "add"; "mention"]) in
  row ∈ category_table
  /\ "add" ∈ row.2
  /\ lower "Add" = "add"
  /\ "missing_info" ∈ matched_categories (lower "Please Address the budget")
  /\ categorize_feedback "Please Address the budget" = "missing_info".
Proof.
  cbv zeta.
  assert (("missing_info", ["missing"; "include"; "add"; "mention"]) ∈ category_table)
    as Hrow by (apply list_elem_of_In; cbn; tauto).
  assert ("add" ∈ ["missing"; "include"; "add"; "mention"])
    as Hword by (apply list_elem_of_In; cbn; tauto).
  split; [exact Hrow|]. split; [exact Hword|]. split; [reflexivity|].
  split; [|reflexivity].
  exact (proj1 (proj2 (keyword_anywhere_counts
                         ("missing_info", ["missing"; "include"; "add"; "mention"])
                         "add" "Please " "Add" "ress the budget"
                         Hrow Hword eq_refl))).
Defined.

(** X3.  What [collect_user_feedback] returns is never empty, so the
    feedback of a retry is always given a category: a complaint that is
    not blank is kept as typed, trimmed, and a blank one is replaced by
    the standard request, which falls under [specificity]. *)
Theorem retry_feedback_always_categorized (typed : string) :
  collect_user_feedback typed <> ""
  /\ categorize_feedback (collect_user_feedback typed) <> ""
  /\ (strip typed <> "" -> collect_user_feedback typed = strip typed)
  /\ (strip typed = "" ->
      collect_user_feedback typed
      = "Please make the name more specific and descriptive"
      /\ categorize_feedback (collect_user_feedback typed) = "specificity").
Proof.
  pose proof (collect_user_feedback_nonempty typed) as Hne.
  split; [done|]. split.
  - by rewrite categorize_feedback_empty_iff.
  - unfold collect_user_feedback. destruct (strip typed) eqn:Hs.
    + split; [done|]. intros _. split; reflexivity.
    + split; [done | done].
Qed.

End FeedbackFacts.

(** ** AttemptLog *)

Section AttemptLogFacts.
Import PyStr ContentAnalyzer FeedbackCategories TaxonomyRouter Orchestrator AttemptLog.

Lemma first_chars_app_exact (s t : string) :
  first_chars (String.length s) (s +:+ t) = s.
Proof.
  induction s as [|c s IH]; [by destruct t|].
  change (String c s +:+ t) with (String c (s +:+ t)).
  cbn [String.length first_chars]. by rewrite IH.
Qed.

Lemma first_chars_length (n : nat) (s : string) :
  String.length (first_chars n s) = Nat.min n (String.length s).
Proof.
  revert s. induction n as [|n IH]; intros [|c s]; cbn [first_chars String.length];
    [done | done | done |].
  by rewrite IH.
Qed.

Lemma first_chars_prefix (n : nat) (s : string) :
  String.prefix (first_chars n s) s = true.
Proof.
  revert s. induction n as [|n IH]; intros [|c s]; cbn [first_chars String.prefix];
    [done | done | done |].
  destruct (ascii_dec c c); [apply IH | congruence].
Qed.

(** The leading run of lowercase letters is the start of the name, and
    what follows it does not begin with a lowercase letter. *)
Lemma leading_lowercase_split (s : string) :
  exists rest,
    s = leading_lowercase s +:+ rest
    /\ forallb_chars is_lower (leading_lowercase s) = true
    /\ match rest with
       | EmptyString => True
       | String c _ => is_lower c = false
       end.
Proof.
  induction s as [|c s (rest & Hs & Hl & Hr)]; [by exists ""|].
  cbn [leading_lowercase]. destruct (is_lower c) eqn:Hc.
  - exists rest. split; [|split; [|done]].
    + change (String c (leading_lowercase s) +:+ rest)
        with (String c (leading_lowercase s +:+ rest)). by rewrite <-Hs.
    + cbn [forallb_chars]. by rewrite Hc, Hl.
  - exists (String c s). by rewrite Hc.
Qed.

Lemma column_content_type_prefix (timestamp : string) (e : LogEntry)
    (analysis_summary : option Summary) :
  column "content_type_prefix" (log_entry timestamp e analysis_summary)
  = Some (Text (if truthy (generated_name e) && (4 <=? String.length (generated_name e))
                then first_chars 4 (generated_name e) else "")).
Proof. reflexivity. Qed.

Lemma column_source_is_news (timestamp : string) (e : LogEntry)
    (analysis_summary : option Summary) :
  column "source_is_news_transcript" (log_entry timestamp e analysis_summary)
  = Some (Text (if contains "News/transcripts" (source_path e) then "yes" else "no")).
Proof. reflexivity. Qed.

(** X4.  The column [content_type_prefix] holds the first four characters
    of the generated name, and nothing for a name shorter than that.  It
    is the content type by which the router places the directory, the
    leading run of lowercase letters, only for the types of four
    letters. *)
Theorem logged_prefix_is_first_four (timestamp : string) (e : LogEntry)
    (analysis_summary : option Summary) :
  exists p,
    column "content_type_prefix" (log_entry timestamp e analysis_summary)
    = Some (Text p)
    /\ String.prefix p (generated_name e) = true
    /\ (String.length (generated_name e) < 4 -> p = "")
    /\ (4 <= String.length (generated_name e) ->
        String.length p = 4
        /\ (p = leading_lowercase (generated_name e)
            <-> String.length (leading_lowercase (generated_name e)) = 4)).
Proof.
  eexists. split; [apply column_content_type_prefix|].
  generalize (generated_name e). intros name.
  destruct (Nat.leb_spec 4 (String.length name)) as [Hlen|Hlen].
  - assert (truthy name = true) as -> by (destruct name; [cbn in Hlen; lia | done]).
    cbn [andb]. split; [apply first_chars_prefix|]. split; [lia|]. intros _.
    pose proof (first_chars_length 4 name) as Hp.
    split; [lia|]. split; [intros <-; lia|]. intros HL.
    destruct (leading_lowercase_split name) as (rest & Hs & _).
    rewrite Hs at 1. rewrite <-HL. apply first_chars_app_exact.
  - rewrite andb_false_r. split; [by destruct name|]. split; [done|]. lia.
Qed.

Lemma prefix_map_chars_image (f : ascii -> ascii) (needle s : string) :
  String.prefix needle s = true ->
  String.prefix (map_chars f needle) (map_chars f s) = true.
Proof.
  revert needle. induction s as [|c s IH]; intros [|a needle] H; try done.
  cbn [map_chars String.prefix] in H |- *.
  destruct (ascii_dec a c) as [->|]; [|done].
  destruct (ascii_dec (f c) (f c)); [by apply IH | congruence].
Qed.

Lemma contains_map_chars_image (f : ascii -> ascii) (needle s : string) :
  contains needle s = true ->
  contains (map_chars f needle) (map_chars f s) = true.
Proof.
  induction s as [|c s IH]; cbn [contains map_chars]; intros H.
  - apply orb_true_iff in H as [H|]; [|done].
    apply (prefix_map_chars_image f) in H. cbn [map_chars] in H. by rewrite H.
  - apply orb_true_iff in H as [H|H].
    + apply (prefix_map_chars_image f) in H. cbn [map_chars] in H. by rewrite H.
    + rewrite (IH H). apply orb_true_r.
Qed.

(** X5.  The column [source_is_news_transcript] is [yes] when the text
    [News/transcripts] occurs in the source path as it stands.  The router
    then applies its special rule whatever the name.  The converse fails:
    the router reads backslashes as slashes and the logger does not, so a
    path that has the text with a backslash only is routed by the special
    rule and logged as [no]. *)
Theorem logged_news_flag_implies_override (timestamp : string) (e : LogEntry)
    (analysis_summary : option Summary) :
  (column "source_is_news_transcript" (log_entry timestamp e analysis_summary)
   = Some (Text "yes") ->
   forall directory_name data_home_root,
     determine_optimal_parent_directory directory_name data_home_root
       (Some (source_path e))
     = os_path_join data_home_root [text_documents_fragment])
  /\ (contains "News\transcripts" (source_path e) = true ->
      contains "News/transcripts" (source_path e) = false ->
      column "source_is_news_transcript" (log_entry timestamp e analysis_summary)
      = Some (Text "no")
      /\ forall directory_name data_home_root,
           determine_optimal_parent_directory directory_name data_home_root
             (Some (source_path e))
           = os_path_join data_home_root [text_documents_fragment]).
Proof.
  rewrite column_source_is_news. split.
  - destruct (contains "News/transcripts" (source_path e)) eqn:Hc; [|done].
    intros _ directory_name data_home_root.
    unfold determine_optimal_parent_directory.
    by rewrite (proj2 (news_test_iff _) (news_path_matches _ Hc)).
  - intros Hback ->. split; [reflexivity|]. intros directory_name data_home_root.
    unfold determine_optimal_parent_directory.
    rewrite (proj2 (news_test_iff (source_path e))); [reflexivity|].
    unfold news_pattern_in, normalize_source.
    exact (contains_map_chars_image
             (fun c => if Ascii.eqb c backslash then "/"%char else c)
             "News\transcripts" (source_path e) Hback).
Qed.

(** A Windows path of a news transcript. *)
Lemma logged_news_flag_implies_override_witness :
  let e := {| entry_session_id := "20250101_120000"; attempt_number := 1;
              source_path := "C:\News\transcripts\talk";
              generated_name := "audPodClimatePolicy"; optimal_parent := "";
              user_action := accept; user_feedback := "";
              final_destination := "" |} in
  column "source_is_news_transcript" (log_entry "2025-01-01T12:00:00" e None)
  = Some (Text "no")
  /\ determine_optimal_parent_directory "audPodClimatePolicy" "/data"
       (Some (source_path e))
     = "/data/filetree/roots/documents/Text Documents".
Proof.
  cbv zeta.
  destruct (proj2 (logged_news_flag_implies_override "2025-01-01T12:00:00"
    {| entry_session_id := "20250101_120000"; attempt_number := 1;
       source_path := "C:\News\transcripts\talk";
       generated_name := "audPodClimatePolicy"; optimal_parent := "";
       user_action := accept; user_feedback := "";
       final_destination := "" |} None) eq_refl eq_refl) as [Hno Hroute].
  split; [exact Hno|]. rewrite Hroute. reflexivity.
Defined.

Lemma write_log_some (timestamp : string) (e : LogEntry)
    (analysis_summary : option Summary) (records : list (list string)) :
  write_log timestamp e analysis_summary (Some records)
  = Some (records ++ [record_of analysis_summary (timestamp, e)]).
Proof. reflexivity. Qed.

Lemma write_all_some (analysis_summary : option Summary)
    (calls : list (string * LogEntry)) (records : list (list string)) :
  write_all analysis_summary calls (Some records)
  = Some (records ++ map (record_of analysis_summary) calls).
Proof.
  revert records. induction calls as [|[timestamp e] calls IH]; intros records.
  - cbn [write_all fold_left map]. by rewrite app_nil_r.
  - unfold write_all in *. cbn [fold_left fst snd map]. rewrite write_log_some, IH.
    by rewrite <-app_assoc.
Qed.

(** X6.  The log is only ever appended to.  A file that exists keeps its
    records and gets one record per call after them, without a header,
    even when it is empty; a file that does not exist gets the header
    once, before the first record.  Every record written has the sixteen
    fields the header names. *)
Theorem log_header_written_once (analysis_summary : option Summary)
    (calls : list (string * LogEntry)) (file : option (list (list string))) :
  write_all analysis_summary calls file
  = match file, calls with
    | None, [] => None
    | None, _ => Some (fieldnames :: map (record_of analysis_summary) calls)
    | Some records, _ => Some (records ++ map (record_of analysis_summary) calls)
    end
  /\ Forall (fun record => length record = length fieldnames)
       (map (record_of analysis_summary) calls).
Proof.
  split.
  - destruct file as [records|]; [apply write_all_some|].
    destruct calls as [|[timestamp e] calls]; [reflexivity|].
    unfold write_all. cbn [fold_left fst snd].
    change (write_log timestamp e analysis_summary None)
      with (Some ([fieldnames] ++ [record_of analysis_summary (timestamp, e)])).
    apply write_all_some.
  - apply Forall_forall. intros record Hrec.
    apply list_elem_of_In, in_map_iff in Hrec as [call [<- _]]. reflexivity.
Qed.

End AttemptLogFacts.

(** ** Prompts *)

Section PromptFacts.
Import PyStr Orchestrator Prompts.

Lemma prompt_user_naming_satisfaction_step (line : string) (rest : list string) :
  prompt_user_naming_satisfaction (line :: rest)
  = match satisfaction_answer line with
    | Some user_choice => Some (user_choice, rest)
    | None => prompt_user_naming_satisfaction rest
    end.
Proof.
  cbn [prompt_user_naming_satisfaction]. unfold satisfaction_answer.
  by repeat destruct (String.eqb _ _).
Qed.

Lemma yes_no_loop_step (line : string) (rest : list string) :
  yes_no_loop (line :: rest)
  = match consent_answer line with
    | Some answer => Some (answer, rest)
    | None => yes_no_loop rest
    end.
Proof.
  cbn [yes_no_loop]. unfold consent_answer.
  by repeat destruct (bool_decide _).
Qed.

(** A loop that takes lines until one of them answers: it ends without an
    answer exactly when no line answers, and otherwise returns the answer
    of the first line that has one, with the lines after it. *)
Lemma first_answer_loop {A : Type} (answer : string -> option A)
    (loop : list string -> option (A * list string)) :
  loop [] = None ->
  (forall line rest,
     loop (line :: rest)
     = match answer line with
       | Some a => Some (a, rest)
       | None => loop rest
       end) ->
  forall stdin,
    (loop stdin = None <-> Forall (fun line => answer line = None) stdin)
    /\ (forall a rest,
          loop stdin = Some (a, rest)
          <-> exists ignored line,
                stdin = ignored ++ line :: rest
                /\ Forall (fun l => answer l = None) ignored
                /\ answer line = Some a).
Proof.
  intros Hnil Hstep stdin. induction stdin as [|line0 stdin [IHn IHs]].
  - rewrite Hnil. split; [done|]. intros a rest. split; [done|].
    intros (ignored & line & Heq & _). by destruct ignored.
  - rewrite Hstep. destruct (answer line0) as [a0|] eqn:Ha.
    + split.
      * split; [done|]. intros Hall. apply Forall_cons in Hall as [Hl _]. congruence.
      * intros a rest. split.
        -- intros [= <- <-]. by exists [], line0.
        -- intros (ignored & line & Heq & Hign & Hline).
           destruct ignored as [|l ignored].
           ++ injection Heq as <- <-. congruence.
           ++ injection Heq as <- _. apply Forall_cons in Hign as [Hl _]. congruence.
    + split.
      * rewrite IHn. split; [by constructor|]. by intros [_ ?]%Forall_cons.
      * intros a rest. rewrite IHs. split.
        -- intros (ignored & line & -> & Hign & Hline).
           exists (line0 :: ignored), line. split; [done|]. split; [by constructor|done].
        -- intros (ignored & line & Heq & Hign & Hline).
           destruct ignored as [|l ignored].
           ++ injection Heq as <- <-. congruence.
           ++ injection Heq as <- ->. apply Forall_cons in Hign as [_ Hign].
              by exists ignored, line.
Qed.

(** X7.  [prompt_user_naming_satisfaction] goes on asking until a line
    is [1] or [2] once trimmed: every line before that one is passed over,
    the answer is [accept] for [1] and [retry] for [2], and no other value
    is ever returned; when the input ends before such a line the call
    raises instead of choosing for the user. *)
Theorem satisfaction_prompt_first_valid_answer (stdin : list string) :
  (prompt_user_naming_satisfaction stdin = None
   <-> Forall (fun line => strip line <> "1" /\ strip line <> "2") stdin)
  /\ (forall user_choice rest,
        prompt_user_naming_satisfaction stdin = Some (user_choice, rest)
        <-> exists ignored line,
              stdin = ignored ++ line :: rest
              /\ Forall (fun l => strip l <> "1" /\ strip l <> "2") ignored
              /\ strip line = match user_choice with
                              | UserAccept => "1"
                              | UserRetry => "2"
                              end).
Proof.
  assert (forall line, satisfaction_answer line = None
                       <-> strip line <> "1" /\ strip line <> "2") as Hnone.
  { intros line. unfold satisfaction_answer.
    destruct (String.eqb_spec (strip line) "1") as [->|H1]; [by split; [|intros []]|].
    destruct (String.eqb_spec (strip line) "2") as [->|H2]; [by split; [|intros []]|].
    done. }
  assert (forall line c, satisfaction_answer line = Some c
                         <-> strip line = match c with
                                          | UserAccept => "1"
                                          | UserRetry => "2"
                                          end) as Hsome.
  { intros line c. unfold satisfaction_answer.
    destruct (String.eqb_spec (strip line) "1") as [->|H1]; [by destruct c|].
    destruct (String.eqb_spec (strip line) "2") as [->|H2]; by destruct c. }
  destruct (first_answer_loop satisfaction_answer prompt_user_naming_satisfaction
              eq_refl prompt_user_naming_satisfaction_step stdin) as [Hn Hs].
  split.
  - rewrite Hn. apply Forall_proper; [intros line; apply Hnone | done].
  - intros c rest. rewrite Hs. split; intros (ignored & line & Heq & Hign & Hline);
      exists ignored, line; (split; [done|]); split;
      [ by eapply Forall_impl; [exact Hign | intros l; apply Hnone]
      | by apply Hsome
      | by eapply Forall_impl; [exact Hign | intros l; apply Hnone]
      | by apply Hsome ].
Qed.

(** X8.  [prompt_user_consent] takes the first line that, trimmed and
    lowercased, is [y], [yes], [n] or [no], and passes over every line
    before it; it answers yes for [y] and [yes] only, in any letter
    case, and never assumes an answer: when the input ends first, the call
    raises. *)
Theorem consent_prompt_first_valid_answer (stdin : list string) :
  let yes := fun line => lower (strip line) = "y" \/ lower (strip line) = "yes" in
  let no := fun line => lower (strip line) = "n" \/ lower (strip line) = "no" in
  (prompt_user_consent stdin = None
   <-> Forall (fun line => ~ yes line /\ ~ no line) stdin)
  /\ (forall answer rest,
        prompt_user_consent stdin = Some (answer, rest)
        <-> exists ignored line,
              stdin = ignored ++ line :: rest
              /\ Forall (fun l => ~ yes l /\ ~ no l) ignored
              /\ if answer then yes line else no line).
Proof.
  intros yes no.
  assert (forall line, yes line <-> lower (strip line) ∈ ["y"; "yes"]) as Hyes
    by (intros line; unfold yes; rewrite !elem_of_cons, elem_of_nil; tauto).
  assert (forall line, no line <-> lower (strip line) ∈ ["n"; "no"]) as Hno
    by (intros line; unfold no; rewrite !elem_of_cons, elem_of_nil; tauto).
  assert (forall line, ~ (yes line /\ no line)) as Hexcl.
  { intros line [[Hy|Hy] [Hn|Hn]]; rewrite Hy in Hn; discriminate. }
  assert (forall line,
            match consent_answer line with
            | Some true => yes line
            | Some false => no line /\ ~ yes line
            | None => ~ yes line /\ ~ no line
            end) as Hcases.
  { intros line. pose proof (Hyes line) as Hy. pose proof (Hno line) as Hn.
    unfold consent_answer.
    destruct (decide (lower (strip line) ∈ ["y"; "yes"]));
      [rewrite bool_decide_true by done; tauto | rewrite bool_decide_false by done].
    destruct (decide (lower (strip line) ∈ ["n"; "no"]));
      [rewrite bool_decide_true by done | rewrite bool_decide_false by done]; tauto. }
  assert (forall line, consent_answer line = None <-> ~ yes line /\ ~ no line) as Hnone.
  { intros line. pose proof (Hcases line) as Hc.
    destruct (consent_answer line) as [[]|]; split; try done; tauto. }
  assert (forall line answer, consent_answer line = Some answer
                              <-> if answer then yes line else no line) as Hsome.
  { intros line answer. pose proof (Hcases line) as Hc. pose proof (Hexcl line) as Hex.
    destruct (consent_answer line) as [[]|], answer; split; try done; tauto. }
  destruct (first_answer_loop consent_answer yes_no_loop
              eq_refl yes_no_loop_step stdin) as [Hn Hs].
  unfold prompt_user_consent. split.
  - rewrite Hn. apply Forall_proper; [intros line; apply Hnone | done].
  - intros answer rest. rewrite Hs.
    split; intros (ignored & line & Heq & Hign & Hline);
      exists ignored, line; (split; [done|]); split;
      [ by eapply Forall_impl; [exact Hign | intros l; apply Hnone]
      | by apply Hsome
      | by eapply Forall_impl; [exact Hign | intros l; apply Hnone]
      | by apply Hsome ].
Qed.

End PromptFacts.

(** ** ContentAnalyzer: bounds and sources of the payload *)

Section AnalyzerBoundFacts.
Import PyStr ContentAnalyzer AnalyzerBounds.

Lemma string_app_assoc (a b c : string) : (a +:+ b) +:+ c = a +:+ (b +:+ c).
Proof.
  induction a as [|x a IH]; [reflexivity|].
  change (String x a +:+ b) with (String x (a +:+ b)).
  change (String x (a +:+ b) +:+ c) with (String x ((a +:+ b) +:+ c)).
  change (String x a +:+ (b +:+ c)) with (String x (a +:+ (b +:+ c))).
  by rewrite IH.
Qed.

Lemma split_lines_nonempty (s : string) : split_lines s <> [].
Proof.
  induction s as [|c s IH]; [done|]. cbn [split_lines].
  destruct (Ascii.eqb c newline); [done|]. by destruct (split_lines s).
Qed.

Lemma join_cons2 (sep x y : string) (l : list string) :
  join sep (x :: y :: l) = x +:+ sep +:+ join sep (y :: l).
Proof. reflexivity. Qed.

(** Splitting at the line feeds and joining with line feeds gives the
    text back. *)
Lemma join_split_lines (s : string) : join (String newline "") (split_lines s) = s.
Proof.
  induction s as [|c s IH]; [reflexivity|]. cbn [split_lines].
  destruct (Ascii.eqb_spec c newline) as [->|Hc].
  - pose proof (split_lines_nonempty s) as Hne.
    destruct (split_lines s) as [|p ps]; [done|].
    rewrite join_cons2, IH. reflexivity.
  - destruct (split_lines s) as [|p ps] eqn:Hs; [by destruct (split_lines_nonempty s)|].
    destruct ps as [|q ps].
    + cbn [join String.concat] in IH |- *. by rewrite IH.
    + rewrite join_cons2 in IH |- *.
      change (String c p +:+ String newline "" +:+ join (String newline "") (q :: ps))
        with (String c (p +:+ String newline "" +:+ join (String newline "") (q :: ps))).
      by rewrite IH.
Qed.

Lemma join_take_prefix (sep : string) (n : nat) (l : list string) :
  exists rest, join sep l = join sep (take n l) +:+ rest.
Proof.
  revert n. induction l as [|x l IH]; intros n; [exists ""; by destruct n|].
  destruct n as [|n]; [by exists (join sep (x :: l))|].
  destruct l as [|y l].
  { exists "". cbn [take]. rewrite take_nil. by rewrite string_app_empty_r. }
  destruct n as [|n].
  { exists (sep +:+ join sep (y :: l)). reflexivity. }
  destruct (IH (S n)) as [rest Hrest]. exists rest.
  cbn [take] in Hrest |- *. rewrite !join_cons2, Hrest.
  by rewrite !string_app_assoc.
Qed.

Lemma join_drop_suffix (sep : string) (k : nat) (l : list string) :
  exists pre, join sep l = pre +:+ join sep (drop k l).
Proof.
  revert l. induction k as [|k IH]; intros l; [by exists ""|].
  destruct l as [|x l]; [by exists ""|].
  destruct (IH l) as [pre Hpre]. cbn [drop].
  destruct l as [|y l].
  - exists x. rewrite drop_nil. cbn [join String.concat]. by rewrite string_app_empty_r.
  - exists (x +:+ sep +:+ pre). rewrite join_cons2, Hpre.
    by rewrite !string_app_assoc.
Qed.

Lemma first_skip_chars (n : nat) (s : string) :
  s = first_chars n s +:+ skip_chars n s.
Proof.
  revert s. induction n as [|n IH]; intros [|c s]; cbn [first_chars skip_chars];
    [done | done | done |].
  change (String c (first_chars n s) +:+ skip_chars n s)
    with (String c (first_chars n s +:+ skip_chars n s)).
  by rewrite <-IH.
Qed.

Lemma skip_chars_length (k : nat) (s : string) :
  String.length (skip_chars k s) = String.length s - k.
Proof.
  revert s. induction k as [|k IH]; intros [|c s]; cbn [skip_chars String.length];
    [done | done | done |].
  by rewrite IH.
Qed.

Lemma first_chars_all (n : nat) (s : string) :
  String.length s <= n -> first_chars n s = s.
Proof.
  revert s. induction n as [|n IH]; intros [|c s] Hlen; cbn [first_chars];
    [done | cbn in Hlen; lia | done |].
  rewrite IH; [done | cbn in Hlen; lia].
Qed.

(** The tag a snippet starts with. *)
Lemma snippet_of_shape (extract_from_end : bool) (content : string) :
  exists before body after,
    snippet_of extract_from_end content
    = (if extract_from_end then "[end] " else "[beginning] ") +:+ body
    /\ content = before +:+ body +:+ after
    /\ String.length body <= max_snippet_length
    /\ (if extract_from_end then after = "" else before = "").
Proof.
  unfold snippet_of. destruct extract_from_end.
  - set (lines := split_lines content).
    set (relevant_lines := if lines_to_extract <? length lines
                           then last_items lines_to_extract lines else lines).
    assert (exists pre, content = pre +:+ join (String newline "") relevant_lines)
      as [pre Hpre].
    { subst relevant_lines lines. destruct (lines_to_extract <? _).
      - unfold last_items.
        destruct (join_drop_suffix (String newline "")
                    (length (split_lines content) - lines_to_extract)
                    (split_lines content)) as [pre Hpre].
        rewrite join_split_lines in Hpre. by exists pre.
      - exists "". by rewrite join_split_lines. }
    set (joined := join (String newline "") relevant_lines) in *.
    exists (pre +:+ first_chars (String.length joined - max_snippet_length) joined),
      (last_chars max_snippet_length joined), "".
    split; [done|]. split; [|split; [|done]].
    + rewrite string_app_empty_r, string_app_assoc. unfold last_chars.
      by rewrite <-first_skip_chars.
    + unfold last_chars. rewrite skip_chars_length. lia.
  - set (lines := take lines_to_extract (split_lines content)).
    destruct (join_take_prefix (String newline "") lines_to_extract (split_lines content))
      as [rest Hrest].
    rewrite join_split_lines in Hrest. fold lines in Hrest.
    set (joined := join (String newline "") lines) in *.
    exists "", (first_chars max_snippet_length joined),
      (skip_chars max_snippet_length joined +:+ rest).
    split; [done|]. split; [|split; [|done]].
    + change ("" +:+ ?x) with x. rewrite <-string_app_assoc.
      by rewrite <-first_skip_chars.
    + rewrite first_chars_length. lia.
Qed.


Lemma dict_set_Forall {V : Type} (P : string * V -> Prop) (k : string) (v : V)
    (d : list (string * V)) :
  Forall P d -> P (k, v) -> Forall P (dict_set k v d).
Proof.
  intros Hd Hkv. induction d as [|[k' v'] d IH]; cbn [dict_set]; [by constructor|].
  apply Forall_cons in Hd as [Hk' Hd].
  destruct (String.eqb k k'); constructor; auto.
Qed.

Lemma dict_set_length {V : Type} (k : string) (v : V) (d : list (string * V)) :
  length (dict_set k v d) <= S (length d).
Proof.
  induction d as [|[k' v'] d IH]; cbn [dict_set length]; [done|].
  destruct (String.eqb k k'); cbn [length]; lia.
Qed.

Lemma dict_set_keys {V : Type} (k : string) (v : V) (d : list (string * V)) :
  dict_keys (dict_set k v d)
  = if bool_decide (k ∈ dict_keys d) then dict_keys d else dict_keys d ++ [k].
Proof.
  unfold dict_keys. induction d as [|[k' v'] d IH]; cbn [dict_set map fst]; [done|].
  destruct (String.eqb_spec k k') as [->|Hne].
  - rewrite bool_decide_true by apply list_elem_of_here. done.
  - cbn [map fst]. rewrite IH. destruct (decide (k ∈ map fst d)) as [Hin|Hin].
    + rewrite !bool_decide_true; [done | by apply list_elem_of_further | done].
    + rewrite !bool_decide_false; [done | | done].
      intros [?|?]%elem_of_cons; done.
Qed.

Lemma dict_set_nodup {V : Type} (k : string) (v : V) (d : list (string * V)) :
  NoDup (dict_keys d) -> NoDup (dict_keys (dict_set k v d)).
Proof.
  intros Hd. rewrite dict_set_keys. case_bool_decide as Hin; [done|].
  apply NoDup_app. split; [done|]. split; [|apply NoDup_singleton].
  intros x Hx ->%list_elem_of_singleton. done.
Qed.

(** What holds of every snippet taken holds of the result of the scan. *)
Lemma scan_files_Forall (P : string * string -> Prop) (extract_from_end : bool)
    (paths : list (string * Node)) (file_count : nat)
    (snippets : list (string * string)) :
  (forall relative_path name size content,
     (relative_path, File name size (Some content)) ∈ paths ->
     lower (suffix name) ∈ readable_extensions ->
     P (relative_path, snippet_of extract_from_end content)) ->
  Forall P snippets ->
  Forall P (scan_files extract_from_end paths file_count snippets).
Proof.
  revert file_count snippets.
  induction paths as [|[relative_path file_path] paths IH];
    intros file_count snippets Hnew Hold; [done|].
  assert (forall file_count snippets, Forall P snippets ->
            Forall P (scan_files extract_from_end paths file_count snippets)) as Hrest.
  { intros n sn Hsn. apply IH; [|done].
    intros rp name size content Hin Hext.
    apply (Hnew rp name size content); [by right | done]. }
  cbn [scan_files].
  destruct (max_files_to_analyze <=? file_count); [done|].
  destruct file_path as [name size [content|] | name listing | name size];
    cbn [is_file negb node_name]; try by apply Hrest.
  - case_bool_decide as Hext; cbn [negb]; [|by apply Hrest].
    apply Hrest. apply dict_set_Forall; [done|].
    apply (Hnew relative_path name size content); [by left | done].
  - case_bool_decide; by apply Hrest.
Qed.

Lemma scan_files_length (extract_from_end : bool) (paths : list (string * Node))
    (file_count : nat) (snippets : list (string * string)) :
  length snippets <= file_count ->
  length (scan_files extract_from_end paths file_count snippets)
  <= Nat.max file_count max_files_to_analyze.
Proof.
  revert file_count snippets.
  induction paths as [|[relative_path file_path] paths IH];
    intros file_count snippets Hlen; [cbn [scan_files]; lia|].
  cbn [scan_files].
  destruct (Nat.leb_spec max_files_to_analyze file_count) as [Hfull|Hroom]; [lia|].
  destruct file_path as [name size [content|] | name listing | name size];
    cbn [is_file negb node_name]; try by apply IH.
  - case_bool_decide as Hext; cbn [negb]; [|by apply IH].
    etrans; [apply IH|lia].
    pose proof (dict_set_length relative_path (snippet_of extract_from_end content) snippets).
    lia.
  - case_bool_decide; by apply IH.
Qed.

Lemma scan_files_nodup (extract_from_end : bool) (paths : list (string * Node))
    (file_count : nat) (snippets : list (string * string)) :
  NoDup (dict_keys snippets) ->
  NoDup (dict_keys (scan_files extract_from_end paths file_count snippets)).
Proof.
  revert file_count snippets.
  induction paths as [|[relative_path file_path] paths IH];
    intros file_count snippets Hnd; [done|].
  cbn [scan_files].
  destruct (max_files_to_analyze <=? file_count); [done|].
  destruct file_path as [name size [content|] | name listing | name size];
    cbn [is_file negb node_name]; try by apply IH.
  - case_bool_decide as Hext; cbn [negb]; [|by apply IH].
    by apply IH, dict_set_nodup.
  - case_bool_decide; by apply IH.
Qed.

(** X10.  The payload is bounded whatever the directory holds: at most
    25 files are quoted, each under a key of its own and with at most 512
    characters (the tag and 500 characters of text), and
    [total_files_analyzed] is the number of files quoted. *)
Theorem payload_snippets_bounded (directory_path : string)
    (listing : option (list Node)) (extract_from_end : bool) :
  let payload := create_analysis_payload directory_path listing extract_from_end in
  length (text_snippets payload) <= 25
  /\ total_files_analyzed (analysis_metadata payload) = length (text_snippets payload)
  /\ NoDup (dict_keys (text_snippets payload))
  /\ Forall (fun item => String.length item.2 <= 512) (text_snippets payload).
Proof.
  cbv zeta. cbn [create_analysis_payload text_snippets analysis_metadata
                   total_files_analyzed].
  unfold extract_text_snippets. split; [|split; [done|split]].
  - apply (scan_files_length extract_from_end _ 0 []). cbn [length]. lia.
  - apply scan_files_nodup. constructor.
  - apply scan_files_Forall; [|constructor].
    intros relative_path name size content _ _. cbn [snd].
    destruct (snippet_of_shape extract_from_end content)
      as (before & body & after & -> & _ & Hlen & _).
    rewrite string_length_app. unfold max_snippet_length in Hlen.
    destruct extract_from_end; cbn [String.length]; lia.
Qed.

(** X11.  Text is quoted only from regular files whose extension,
    lowercased, is one of the readable ones and whose content could be
    read: every entry of [text_snippets] has the relative path of such a
    file of the tree as its key and the snippet of that file's content as
    its value. *)
Theorem snippets_only_from_readable_files (directory : Node)
    (extract_from_end : bool) :
  Forall (snippet_source directory extract_from_end)
    (extract_text_snippets directory extract_from_end).
Proof.
  unfold extract_text_snippets.
  apply scan_files_Forall; [|constructor].
  intros relative_path name size content Hin Hext.
  exists name, size, content. done.
Qed.

Lemma scan_files_keys (paths : list (string * Node)) (file_count : nat)
    (first again : list (string * string)) :
  dict_keys first = dict_keys again ->
  dict_keys (scan_files false paths file_count first)
  = dict_keys (scan_files true paths file_count again).
Proof.
  revert file_count first again.
  induction paths as [|[relative_path file_path] paths IH];
    intros file_count first again Hkeys; [done|].
  cbn [scan_files].
  destruct (max_files_to_analyze <=? file_count); [done|].
  destruct file_path as [name size [content|] | name listing | name size];
    cbn [is_file negb node_name]; try by apply IH.
  - case_bool_decide as Hext; cbn [negb]; [|by apply IH].
    apply IH. by rewrite !dict_set_keys, Hkeys.
  - case_bool_decide; by apply IH.
Qed.

(** X12.  On the same state of the directory, the payload of a retry
    differs from the first one only in the text quoted: the path, the file
    tree, the files quoted and their number are the same, the snippets are
    taken from the end of the files instead of their beginning, and
    [extraction_type] says so. *)
Theorem retry_payload_same_files (directory_path : string)
    (listing : option (list Node)) :
  let first := create_analysis_payload directory_path listing false in
  let again := create_retry_analysis_payload directory_path listing in
  ContentAnalyzer.directory_path again = ContentAnalyzer.directory_path first
  /\ file_tree again = file_tree first
  /\ dict_keys (text_snippets again) = dict_keys (text_snippets first)
  /\ total_files_analyzed (analysis_metadata again)
     = total_files_analyzed (analysis_metadata first)
  /\ extraction_type (analysis_metadata first) = "beginning_of_files"
  /\ extraction_type (analysis_metadata again) = "end_of_files"
  /\ Forall (snippet_source (Dir directory_path listing) true) (text_snippets again).
Proof.
  cbv zeta. unfold create_retry_analysis_payload.
  cbn [create_analysis_payload ContentAnalyzer.directory_path file_tree
         text_snippets analysis_metadata total_files_analyzed extraction_type].
  assert (dict_keys (extract_text_snippets (Dir directory_path listing) true)
          = dict_keys (extract_text_snippets (Dir directory_path listing) false))
    as Hkeys by (symmetry; by apply scan_files_keys).
  split; [done|]. split; [done|]. split; [done|]. split.
  - unfold dict_keys in Hkeys.
    by rewrite <-(length_map fst), Hkeys, length_map.
  - split; [done|]. split; [done|].
    unfold extract_text_snippets. apply scan_files_Forall; [|constructor].
    intros relative_path name size content Hin Hext. by exists name, size, content.
Qed.

Lemma tree_height_sub (entries : list (string * Tree)) (h : nat) :
  tree_height (Sub entries) <= S h
  <-> Forall (fun entry => tree_height entry.2 <= h) entries.
Proof.
  induction entries as [|[k t] entries IH].
  - split; [constructor | cbn; lia].
  - rewrite Forall_cons. cbn [snd]. rewrite <-IH.
    change (tree_height (Sub ((k, t) :: entries)))
      with (S (Nat.max (tree_height t) (pred (tree_height (Sub entries))))).
    change (tree_height (Sub entries)) with (S (pred (tree_height (Sub entries)))).
    lia.
Qed.

Lemma build_tree_height (levels : nat) (path : Node) :
  tree_height (Sub (build_tree levels path)) <= S levels.
Proof.
  revert path. induction levels as [|levels IH]; intros path.
  - cbn. lia.
  - apply tree_height_sub. cbn [build_tree].
    destruct path as [name size content | name [items|] | name size];
      [constructor | | repeat constructor; cbn; lia | constructor].
    generalize (sorted_by_key items). intros ordered.
    assert (forall tree : list (string * Tree),
              Forall (fun entry => tree_height entry.2 <= S levels) tree ->
              Forall (fun entry => tree_height entry.2 <= S levels)
                (fold_left
                   (fun tree item =>
                      match item with
                      | Dir name _ =>
                          dict_set (name +:+ "/") (Sub (build_tree levels item)) tree
                      | File name size _ | Other name size =>
                          dict_set name (Leaf (file_descr name size)) tree
                      end) ordered tree)) as Hfold.
    { induction ordered as [|item ordered IHo]; intros tree Htree; [done|].
      cbn [fold_left]. apply IHo.
      destruct item as [n sz c | n l | n sz];
        apply dict_set_Forall; try done; cbn [snd tree_height]; try lia.
      apply IH. }
    apply Hfold. constructor.
Qed.

(** X13.  The file tree never nests deeper than the depth limit allows,
    however deep the directory is: below the target there are at most
    the entries of three levels of sub-directories, and a directory of
    the fourth level is shown as the marker [max_depth_reached] alone, so
    that at most five dictionaries are nested.  A chain of five
    directories reaches that bound. *)
Theorem file_tree_depth_bounded (directory : Node) :
  tree_height (Sub (create_file_tree directory)) <= default_max_depth + 2
  /\ (forall path, build_tree 0 path = [("...", Leaf "max_depth_reached")])
  /\ tree_height (Sub (create_file_tree (Dir "top" (Some (nested_dirs 5)))))
     = default_max_depth + 2.
Proof.
  split; [|split; [done | reflexivity]].
  unfold create_file_tree.
  pose proof (build_tree_height (S default_max_depth) directory). lia.
Qed.

(** The digits [one_decimal] prints are those of the tenth nearest to the
    quotient. *)
Lemma one_decimal_nearest (num den : N) :
  (0 < den)%N ->
  exists tenths : N,
    one_decimal num den
    = pretty (tenths / 10)%N +:+ "." +:+ pretty (tenths mod 10)%N
    /\ (2 * (10 * num - tenths * den) <= den)%N
    /\ (2 * (tenths * den - 10 * num) <= den)%N.
Proof.
  intros Hden. unfold one_decimal.
  pose proof (N.div_mod (10 * num) den ltac:(lia)) as Hdm.
  pose proof (N.mod_lt (10 * num) den ltac:(lia)) as Hlt.
  set (tenths := (10 * num / den)%N) in *.
  set (r := (10 * num mod den)%N) in *.
  destruct ((den <? 2 * r) || ((2 * r =? den) && N.odd tenths))%N eqn:Hup.
  - exists (N.succ tenths). split; [done|].
    apply orb_true_iff in Hup as [Hup%N.ltb_lt | [Hup%N.eqb_eq _]%andb_true_iff]; nia.
  - exists tenths. split; [done|].
    apply orb_false_iff in Hup as [Hup%N.ltb_ge _]. nia.
Qed.

(** X14.  [format_file_size] prints a size below 2^53 bytes in the
    largest of the units B, KB, MB, GB and TB that does not exceed it
    (bytes for a size below 1024, and terabytes from 1024^4 bytes on),
    with one decimal: the number printed is the tenth nearest to the size
    divided by the unit.  Below 1024 bytes the size is printed as it is,
    followed by [.0B]. *)
Theorem file_size_unit_and_rounding (size_bytes : N) :
  (size_bytes < 2 ^ 53)%N ->
  (exists (unit : string) (den tenths : N),
     format_file_size size_bytes
     = pretty (tenths / 10)%N +:+ "." +:+ pretty (tenths mod 10)%N +:+ unit
     /\ (unit, den) ∈ [("B", 1%N); ("KB", 1024%N); ("MB", (1024 ^ 2)%N);
                        ("GB", (1024 ^ 3)%N); ("TB", (1024 ^ 4)%N)]
     /\ (unit = "B" \/ (den <= size_bytes)%N)
     /\ (unit = "TB" \/ (size_bytes < 1024 * den)%N)
     /\ (2 * (10 * size_bytes - tenths * den) <= den)%N
     /\ (2 * (tenths * den - 10 * size_bytes) <= den)%N)
  /\ ((size_bytes < 1024)%N ->
      format_file_size size_bytes = pretty size_bytes +:+ ".0B").
Proof.
  intros _. split.
  - assert (forall (unit : string) (den : N), (0 < den)%N ->
              exists tenths : N,
                one_decimal size_bytes den +:+ unit
                = pretty (tenths / 10)%N +:+ "." +:+ pretty (tenths mod 10)%N +:+ unit
                /\ (2 * (10 * size_bytes - tenths * den) <= den)%N
                /\ (2 * (tenths * den - 10 * size_bytes) <= den)%N) as Hone.
    { intros unit den Hden.
      destruct (one_decimal_nearest size_bytes den Hden) as (tenths & -> & H1 & H2).
      exists tenths. by rewrite !string_app_assoc. }
    unfold format_file_size. cbn [format_units].
    change (1024 * 1)%N with 1024%N.
    change (1024 * 1024)%N with (1024 ^ 2)%N.
    change (1024 * 1024 ^ 2)%N with (1024 ^ 3)%N.
    change (1024 * 1024 ^ 3)%N with (1024 ^ 4)%N.
    destruct (N.ltb_spec size_bytes 1024) as [H1|H1].
    { destruct (Hone "B" 1%N ltac:(lia)) as (tenths & -> & Ha & Hb).
      exists "B", 1%N, tenths. split; [done|]. split; [set_unfold; tauto|].
      split; [by left|]. split; [right; lia|]. done. }
    destruct (N.ltb_spec size_bytes (1024 ^ 2)) as [H2|H2].
    { destruct (Hone "KB" 1024%N ltac:(lia)) as (tenths & -> & Ha & Hb).
      exists "KB", 1024%N, tenths. split; [done|]. split; [set_unfold; tauto|].
      split; [by right|]. split; [right; lia|]. done. }
    destruct (N.ltb_spec size_bytes (1024 ^ 3)) as [H3|H3].
    { destruct (Hone "MB" (1024 ^ 2)%N ltac:(lia)) as (tenths & -> & Ha & Hb).
      exists "MB", (1024 ^ 2)%N, tenths. split; [done|]. split; [set_unfold; tauto|].
      split; [by right|]. split; [right; lia|]. done. }
    destruct (N.ltb_spec size_bytes (1024 ^ 4)) as [H4|H4].
    { destruct (Hone "GB" (1024 ^ 3)%N ltac:(lia)) as (tenths & -> & Ha & Hb).
      exists "GB", (1024 ^ 3)%N, tenths. split; [done|]. split; [set_unfold; tauto|].
      split; [by right|]. split; [right; lia|]. done. }
    destruct (Hone "TB" (1024 ^ 4)%N ltac:(lia)) as (tenths & -> & Ha & Hb).
    exists "TB", (1024 ^ 4)%N, tenths. split; [done|]. split; [set_unfold; tauto|].
    split; [by right|]. split; [by left|]. done.
  - intros Hsmall. unfold format_file_size. cbn [format_units].
    change (1024 * 1)%N with 1024%N.
    destruct (N.ltb_spec size_bytes 1024) as [_|?]; [|lia].
    unfold one_decimal. rewrite N.div_1_r, N.mod_1_r.
    change ((1 <? 2 * 0) || (2 * 0 =? 1) && N.odd (10 * size_bytes))%N with false.
    cbv iota.
    rewrite (N.mul_comm 10 size_bytes), N.div_mul by done.
    rewrite N.Div0.mod_mul. by rewrite string_app_assoc.
Qed.

(** Sizes at the edges of the units: the last byte count printed in bytes,
    and a size so close to a megabyte that it is printed as 1024.0KB. *)
Lemma file_size_unit_and_rounding_witness :
  (1023 < 2 ^ 53)%N
  /\ format_file_size 1536 = "1.5KB"
  /\ format_file_size 1048575 = "1024.0KB"
  /\ format_file_size 1023 = "1023.0B".
Proof.
  split; [reflexivity|]. split; [reflexivity|]. split; [reflexivity|].
  apply (file_size_unit_and_rounding 1023); reflexivity.
Defined.

Lemma relisted_sort_key (n n' : Node) : relisted n n' -> sort_key n = sort_key n'.
Proof. by intros []. Qed.

Lemma insert_by_key_relisted (x x' : Node) (l l' : list Node) :
  relisted x x' -> Forall2 relisted l l' ->
  Forall2 relisted (insert_by_key x l) (insert_by_key x' l').
Proof.
  intros Hx Hl. induction Hl as [|y y' l l' Hy Hl IH]; cbn [insert_by_key].
  - by repeat constructor.
  - rewrite <-(relisted_sort_key _ _ Hx), <-(relisted_sort_key _ _ Hy).
    destruct (key_le (sort_key x) (sort_key y)); by repeat constructor.
Qed.

Lemma sorted_by_key_relisted (l l' : list Node) :
  Forall2 relisted l l' -> Forall2 relisted (sorted_by_key l) (sorted_by_key l').
Proof.
  induction 1 as [|x x' l l' Hx Hl IH]; [constructor|].
  cbn [sorted_by_key fold_right]. by apply insert_by_key_relisted.
Qed.

Lemma distinct_sort_keys_entries (name : string) (items : list Node) :
  distinct_sort_keys (Dir name (Some items)) ->
  NoDup (map sort_key items) /\ Forall distinct_sort_keys items.
Proof.
  cbn [distinct_sort_keys]. intros [Hnd Hall]. split; [done|].
  induction items as [|m items IH]; [constructor|].
  cbn [fold_right] in Hall. destruct Hall as [Hm Hall].
  constructor; [done|]. apply IH; [|done].
  cbn [map] in Hnd. by apply NoDup_cons in Hnd as [_ ?].
Qed.

Lemma build_tree_relisted (levels : nat) (n n' : Node) :
  relisted n n' -> distinct_sort_keys n ->
  build_tree levels n = build_tree levels n'.
Proof.
  revert n n'. induction levels as [|levels IH]; intros n n' Hrel Hkeys; [done|].
  destruct Hrel as [name size content | name size | name
                   | name items shuffled items' Hperm Hrel]; [done..|].
  apply distinct_sort_keys_entries in Hkeys as [Hnd Hall].
  cbn [build_tree]. rewrite (sorted_by_key_enumeration items shuffled Hperm Hnd).
  apply sorted_by_key_relisted in Hrel.
  assert (Forall distinct_sort_keys (sorted_by_key shuffled)) as Hsorted.
  { rewrite <-sorted_by_key_perm, <-Hperm. done. }
  generalize (@nil (string * Tree)).
  induction Hrel as [|m m' l l' Hm Hl IHl]; intros tree; [done|].
  apply Forall_cons in Hsorted as [Hkm Hsorted].
  cbn [fold_left]. rewrite (IHl Hsorted). f_equal.
  destruct Hm as [name1 size1 content1 | name1 size1 | name1
                 | name1 items1 shuffled1 items1' Hperm1 Hrel1]; [done..|].
  f_equal. f_equal. apply IH; [by econstructor | done].
Qed.

(** X15.  The file tree does not depend on the order in which the system
    lists the entries of the directories, at any level, as long as no
    directory holds two entries of the same kind whose names differ in
    letter case only. *)
Theorem file_tree_ignores_listing_order (directory directory' : Node) :
  relisted directory directory' ->
  distinct_sort_keys directory ->
  create_file_tree directory = create_file_tree directory'.
Proof. intros Hrel Hkeys. unfold create_file_tree. by apply build_tree_relisted. Qed.

(** The sample directory listed backwards, at both levels. *)
Lemma file_tree_ignores_listing_order_witness :
  let listed :=
    Dir "inbox" (Some [ File "b.txt" (Some 10%N) (Some "hello");
                        Dir "Zed" (Some [ File "x.md" (Some 2000%N) None;
                                          File "y.md" (Some 1%N) None ]);
                        Dir "locked" None ]) in
  let relisted_backwards :=
    Dir "inbox" (Some [ Dir "locked" None;
                        Dir "Zed" (Some [ File "y.md" (Some 1%N) None;
                                          File "x.md" (Some 2000%N) None ]);
                        File "b.txt" (Some 10%N) (Some "hello") ]) in
  relisted listed relisted_backwards
  /\ distinct_sort_keys listed
  /\ create_file_tree listed = create_file_tree relisted_backwards
  /\ dict_keys (create_file_tree listed) = ["locked/"; "Zed/"; "b.txt"].
Proof.
  cbv zeta.
  assert (relisted
    (Dir "inbox" (Some [ File "b.txt" (Some 10%N) (Some "hello");
                         Dir "Zed" (Some [ File "x.md" (Some 2000%N) None;
                                           File "y.md" (Some 1%N) None ]);
                         Dir "locked" None ]))
    (Dir "inbox" (Some [ Dir "locked" None;
                         Dir "Zed" (Some [ File "y.md" (Some 1%N) None;
                                           File "x.md" (Some 2000%N) None ]);
                         File "b.txt" (Some 10%N) (Some "hello") ]))) as Hrel.
  { eapply relisted_dir; [apply Permutation_rev|]. cbn [rev app].
    repeat constructor.
    eapply relisted_dir; [apply Permutation_rev|]. cbn [rev app].
    repeat constructor. }
  assert (distinct_sort_keys
    (Dir "inbox" (Some [ File "b.txt" (Some 10%N) (Some "hello");
                         Dir "Zed" (Some [ File "x.md" (Some 2000%N) None;
                                           File "y.md" (Some 1%N) None ]);
                         Dir "locked" None ]))) as Hkeys.
  { cbn [distinct_sort_keys map fold_right].
    split_and!; try done; apply (bool_decide_unpack _); vm_compute; exact I. }
  split; [exact Hrel|]. split; [exact Hkeys|]. split; [|vm_compute; reflexivity].
  exact (file_tree_ignores_listing_order _ _ Hrel Hkeys).
Defined.

(** The scan, in closed form: with room for more files, the snippets of
    the entries still to be visited are appended in the order of the walk
    until the limit is reached. *)
Lemma scan_files_closed_form (extract_from_end : bool) (paths : list (string * Node))
    (file_count : nat) (snippets : list (string * string)) :
  NoDup (dict_keys snippets ++ map fst paths) ->
  scan_files extract_from_end paths file_count snippets
  = snippets
    ++ take (max_files_to_analyze - file_count) (omap (quoted extract_from_end) paths).
Proof.
  revert file_count snippets.
  induction paths as [|[relative_path file_path] paths IH];
    intros file_count snippets Hnd.
  { cbn [scan_files omap list_omap]. by rewrite take_nil, app_nil_r. }
  assert (NoDup (dict_keys snippets ++ map fst paths)) as Hrest.
  { cbn [map fst] in Hnd. apply NoDup_app in Hnd as (Hs & Hdisj & Hp).
    apply NoDup_cons in Hp as [_ Hp]. apply NoDup_app. split; [done|].
    split; [|done]. intros x Hx Hin. apply (Hdisj x Hx). by right. }
  cbn [scan_files].
  destruct (Nat.leb_spec max_files_to_analyze file_count) as [Hfull|Hroom].
  { replace (max_files_to_analyze - file_count) with 0 by lia.
    by rewrite take_0, app_nil_r. }
  change (omap (quoted extract_from_end) ((relative_path, file_path) :: paths))
    with (match quoted extract_from_end (relative_path, file_path) with
          | Some item => item :: omap (quoted extract_from_end) paths
          | None => omap (quoted extract_from_end) paths
          end).
  unfold quoted at 1. cbn [fst snd].
  destruct file_path as [name size [content|] | name listing | name size];
    cbn [is_file negb node_name]; try by apply IH.
  - case_bool_decide as Hext; cbn [negb]; [|by apply IH].
    assert (relative_path ∉ dict_keys snippets) as Hfresh.
    { cbn [map fst] in Hnd. apply NoDup_app in Hnd as (_ & Hdisj & _).
      intros Hin. apply (Hdisj relative_path Hin). by left. }
    rewrite (dict_set_fresh _ _ _ Hfresh), IH.
    + rewrite <-app_assoc. cbn [app].
      replace (max_files_to_analyze - file_count)
        with (S (max_files_to_analyze - S file_count)) by lia.
      reflexivity.
    + unfold dict_keys in *. rewrite map_app. cbn [map fst].
      rewrite <-app_assoc. exact Hnd.
  - case_bool_decide; by apply IH.
Qed.


(** X30.  In a directory tree, where no two entries of the walk have
    the same relative path, [extract_text_snippets] quotes the first 25
    files of the walk that are regular, have a readable extension and can
    be read, in the order of the walk (the entries of a directory before
    those of its sub-directories): each gets one entry, none is counted
    twice or overwritten, and [total_files_analyzed] is the number of such
    files, capped at 25. *)
Theorem snippets_are_first_readable_files (directory_path : string)
    (listing : option (list Node)) (extract_from_end : bool) :
  let directory := Dir directory_path listing in
  let payload := create_analysis_payload directory_path listing extract_from_end in
  NoDup (map fst (rglob directory)) ->
  text_snippets payload
  = take 25 (omap (quoted extract_from_end) (rglob directory))
  /\ total_files_analyzed (analysis_metadata payload)
     = Nat.min 25 (length (omap (quoted extract_from_end) (rglob directory))).
Proof.
  cbv zeta. intros Hnd.
  cbn [create_analysis_payload text_snippets analysis_metadata total_files_analyzed].
  unfold extract_text_snippets.
  rewrite (scan_files_closed_form extract_from_end _ 0 []) by done.
  cbn [app]. unfold max_files_to_analyze. rewrite Nat.sub_0_r.
  split; [done|]. by rewrite length_take.
Qed.

(** The sample directory: its two text files are quoted, the top-level one
    before the one in the sub-directory whose content cannot be
    read. *)
Lemma snippets_are_first_readable_files_witness :
  let directory := Dir "inbox" Scenarios.sample_tree in
  NoDup (map fst (rglob directory))
  /\ map fst (rglob directory) = ["b.txt"; "Zed"; "A.py"; "locked"; "sock"; "Zed/x.md"]
  /\ text_snippets (create_analysis_payload "inbox" Scenarios.sample_tree false)
     = [("b.txt", "[beginning] hello"); ("A.py", "[beginning] x")].
Proof.
  cbv zeta.
  assert (NoDup (map fst (rglob (Dir "inbox" Scenarios.sample_tree)))) as Hnd
    by (apply (bool_decide_unpack _); vm_compute; exact I).
  split; [exact Hnd|]. split; [vm_compute; reflexivity|].
  rewrite (proj1 (snippets_are_first_readable_files "inbox" Scenarios.sample_tree
                    false Hnd)).
  vm_compute. reflexivity.
Defined.

(** *** The payload and the order of enumeration *)











End AnalyzerBoundFacts.

(** ** TaxonomyRouter: where a directory can go *)

Section RouterBoundFacts.
Import PyStr TaxonomyRouter RouterBounds.

Lemma ends_with_char_app (c : ascii) (s t : string) :
  t <> "" -> ends_with_char c (s +:+ t) = ends_with_char c t.
Proof.
  intros Ht. induction s as [|d s IH]; [done|].
  change (String d s +:+ t) with (String d (s +:+ t)).
  cbn [ends_with_char]. rewrite IH.
  destruct (s +:+ t) eqn:Hst; [|done].
  destruct s; [by destruct t | done].
Qed.

Lemma truthy_app_r (s t : string) : t <> "" -> truthy (s +:+ t) = true.
Proof. intros Ht. destruct s; [by destruct t | done]. Qed.

(** The root of the taxonomy under [data_home_root]. *)
Lemma join_filetree_roots (data_home_root : string) :
  os_path_join data_home_root ["filetree/roots"]
  = (if negb (truthy data_home_root) || ends_with_char "/" data_home_root
     then data_home_root else data_home_root +:+ "/") +:+ "filetree/roots".
Proof.
  cbn [os_path_join fold_left]. unfold join_step.
  cbn [starts_with_char Ascii.eqb Bool.eqb].
  destruct (negb (truthy data_home_root) || ends_with_char "/" data_home_root);
    [done|]. by rewrite string_app_assoc.
Qed.

(** Joining a relative folder after [filetree/roots], in one step or in
    two. *)
Lemma join_under_roots (data_home_root folder : string) :
  starts_with_char "/" folder = false ->
  os_path_join data_home_root ["filetree/roots"; folder]
  = os_path_join data_home_root ["filetree/roots"] +:+ "/" +:+ folder
  /\ os_path_join data_home_root ["filetree/roots/" +:+ folder]
     = os_path_join data_home_root ["filetree/roots"] +:+ "/" +:+ folder.
Proof.
  intros Hrel. split.
  - change (os_path_join data_home_root ["filetree/roots"; folder])
      with (join_step (os_path_join data_home_root ["filetree/roots"]) folder).
    rewrite join_filetree_roots. unfold join_step at 1. rewrite Hrel.
    rewrite ends_with_char_app by done.
    by rewrite truthy_app_r.
  - rewrite join_filetree_roots.
    cbn [os_path_join fold_left]. unfold join_step.
    change (starts_with_char "/" ("filetree/roots/" +:+ folder)) with false.
    cbv iota.
    destruct (negb (truthy data_home_root) || ends_with_char "/" data_home_root).
    + change ("filetree/roots/" +:+ folder) with ("filetree/roots" +:+ "/" +:+ folder).
      by rewrite !string_app_assoc.
    + change ("filetree/roots/" +:+ folder) with ("filetree/roots" +:+ "/" +:+ folder).
      by rewrite !string_app_assoc.
Qed.

Lemma dict_get_elem {V : Type} (k : string) (d : list (string * V)) (v : V) :
  dict_get k d = Some v -> (k, v) ∈ d.
Proof.
  induction d as [|[k' v'] d IH]; [done|]. cbn [dict_get].
  destruct (String.eqb_spec k k') as [->|Hne].
  - intros [= ->]. apply list_elem_of_here.
  - intros H. by apply list_elem_of_further, IH.
Qed.

Lemma dict_get_none {V : Type} (k : string) (d : list (string * V)) :
  k ∉ map fst d -> dict_get k d = None.
Proof.
  induction d as [|[k' v'] d IH]; [done|]. cbn [dict_get map fst].
  intros Hk. destruct (String.eqb_spec k k') as [->|Hne].
  - destruct Hk. apply list_elem_of_here.
  - apply IH. intros Hin. apply Hk. by apply list_elem_of_further.
Qed.

Lemma first_context_match_elem (lowered_name : string) (items : list (string * string))
    (context_path : string) :
  first_context_match lowered_name items = Some context_path ->
  exists context_abbrev,
    (context_abbrev, context_path) ∈ items
    /\ contains context_abbrev lowered_name = true.
Proof.
  induction items as [|[k p] items IH]; [done|]. cbn [first_context_match].
  destruct (contains k lowered_name) eqn:Hc.
  - intros [= ->]. exists k. split; [apply list_elem_of_here | done].
  - intros H. destruct (IH H) as (k' & Hin & Hk'). exists k'.
    split; [by apply list_elem_of_further | done].
Qed.

Lemma taxonomy_folders_relative (folder : string) :
  folder ∈ taxonomy_folders -> starts_with_char "/" folder = false.
Proof.
  assert (forallb (fun folder => negb (starts_with_char "/" folder)) taxonomy_folders
          = true) as Hall by reflexivity.
  rewrite forallb_forall in Hall. intros Hin%list_elem_of_In.
  specialize (Hall folder Hin). by destruct (starts_with_char "/" folder).
Qed.

Lemma taxonomy_folders_table (content_type : string) (mapping : Mapping) :
  (content_type, mapping) ∈ data_home_mapping ->
  primary_path mapping ∈ taxonomy_folders
  /\ forall context_abbrev context_path,
       (context_abbrev, context_path) ∈ context_mappings mapping ->
       context_path ∈ taxonomy_folders.
Proof.
  intros Hin. unfold taxonomy_folders. split.
  - do 2 apply list_elem_of_further. apply list_elem_of_In, in_flat_map.
    exists (content_type, mapping). split; [by apply list_elem_of_In | by left].
  - intros k p Hkp. do 2 apply list_elem_of_further.
    apply list_elem_of_In, in_flat_map.
    exists (content_type, mapping). split; [by apply list_elem_of_In|].
    right. apply in_map_iff. exists (k, p). split; [done | by apply list_elem_of_In].
Qed.

(** The destination, case by case. *)
Lemma determine_cases (directory_name data_home_root : string)
    (source_path : option string) :
  exists folder,
    folder ∈ taxonomy_folders
    /\ determine_optimal_parent_directory directory_name data_home_root source_path
       = os_path_join data_home_root ["filetree/roots"] +:+ "/" +:+ folder.
Proof.
  unfold determine_optimal_parent_directory.
  assert ("documents" ∈ taxonomy_folders) as Hdoc by apply list_elem_of_here.
  assert ("documents/Text Documents" ∈ taxonomy_folders) as Htext
    by apply list_elem_of_further, list_elem_of_here.
  assert (os_path_join data_home_root ["filetree/roots/documents"]
          = os_path_join data_home_root ["filetree/roots"] +:+ "/" +:+ "documents")
    as Hdefault by (by apply (join_under_roots data_home_root "documents")).
  destruct (is_news_transcript_source source_path).
  { exists "documents/Text Documents". split; [done|].
    by apply (join_under_roots data_home_root "documents/Text Documents"). }
  destruct (leading_lowercase directory_name) as [|c content_type];
    [by exists "documents"|].
  destruct (dict_get (String c content_type) data_home_mapping) as [mapping|] eqn:Hget;
    [|by exists "documents"].
  apply dict_get_elem, taxonomy_folders_table in Hget as [Hprimary Hcontext].
  destruct (first_context_match _ _) as [context_path|] eqn:Hmatch.
  - apply first_context_match_elem in Hmatch as (k & Hin & _).
    specialize (Hcontext k context_path Hin).
    exists context_path. split; [done|].
    by apply join_under_roots, taxonomy_folders_relative.
  - exists (primary_path mapping). split; [done|].
    by apply join_under_roots, taxonomy_folders_relative.
Qed.

(** X16.  Whatever the name and the source, the router answers with a
    folder of the taxonomy below [filetree/roots] of the root it was
    given: the destination is that root joined with [filetree/roots],
    then a slash and one of the relative folders of the table, the
    default [documents] or the folder of the special rule.  It is never
    a path outside the root. *)
Theorem destination_is_a_taxonomy_folder (directory_name data_home_root : string)
    (source_path : option string) :
  let roots := os_path_join data_home_root ["filetree/roots"] in
  let destination :=
    determine_optimal_parent_directory directory_name data_home_root source_path in
  (exists folder,
     folder ∈ taxonomy_folders
     /\ starts_with_char "/" folder = false
     /\ destination = roots +:+ "/" +:+ folder)
  /\ String.prefix data_home_root destination = true
  /\ String.prefix roots destination = true.
Proof.
  cbv zeta.
  destruct (determine_cases directory_name data_home_root source_path)
    as (folder & Hin & ->).
  split; [|split].
  - exists folder. split; [done|]. split; [by apply taxonomy_folders_relative | done].
  - rewrite join_filetree_roots.
    destruct (negb (truthy data_home_root) || ends_with_char "/" data_home_root);
      rewrite ?string_app_assoc; apply prefix_refl_app.
  - apply prefix_refl_app.
Qed.

(** X17.  The content type of a name is its whole leading run of
    lowercase letters.  When that run is not one of the six types of the
    table (a name that begins with a capital or a digit has none, and
    [audio] is not [aud]), and the special rule does not apply, the
    directory goes to the default folder [documents]. *)
Theorem unknown_content_type_goes_to_documents (directory_name data_home_root : string)
    (source_path : option string) :
  is_news_transcript_source source_path = false ->
  leading_lowercase directory_name ∉ content_types ->
  determine_optimal_parent_directory directory_name data_home_root source_path
  = os_path_join data_home_root ["filetree/roots/documents"].
Proof.
  intros Hnews Htype. unfold determine_optimal_parent_directory. rewrite Hnews.
  destruct (leading_lowercase directory_name) as [|c content_type]; [done|].
  by rewrite (dict_get_none _ _ Htype).
Qed.

(** [audioBookDune] has the content type [audio], which the table does
    not know; [audBookDune] is an audio book. *)
Lemma unknown_content_type_goes_to_documents_witness :
  is_news_transcript_source (Some "inbox/talks") = false
  /\ leading_lowercase "audioBookDune" = "audio"
  /\ ("audio" ∉ content_types)
  /\ determine_optimal_parent_directory "audioBookDune" "/data" (Some "inbox/talks")
     = "/data/filetree/roots/documents"
  /\ determine_optimal_parent_directory "audBookDune" "/data" (Some "inbox/talks")
     = "/data/filetree/roots/audio/books".
Proof.
  assert ("audio" ∉ content_types) as Htype
    by (apply (bool_decide_unpack _); vm_compute; exact I).
  split; [reflexivity|]. split; [reflexivity|]. split; [exact Htype|].
  split; [|reflexivity].
  rewrite (unknown_content_type_goes_to_documents "audioBookDune" "/data"
             (Some "inbox/talks") eq_refl Htype).
  reflexivity.
Defined.

End RouterBoundFacts.

(** ** After the loop: consent and placement *)

Section FinalizeFacts.
Import PyStr Exec ContentAnalyzer Orchestrator.

(** The probe started with the iterations [resolve] gives it always ends,
    at a candidate that does not exist yet and after those that do. *)
Lemma resolve_some (existing : gset string) (base : string) :
  exists k,
    resolve existing base = Some (candidate base k)
    /\ (candidate base k ∉ existing)
    /\ forall j, j < k -> (candidate base j ∈ existing).
Proof.
  destruct (probe_finds_first_free (S (size existing)) existing existing base 0)
    as (k & _ & Hp & Hfree & Hbelow); [done | lia |].
  exists k. split; [|split; [done | intros j Hj; apply Hbelow; lia]].
  unfold resolve, resolve_conflict. cbn [candidate] in Hp. rewrite Hp.
  by destruct k.
Qed.

Local Ltac run_stage Hloc :=
  repeat first
    [ rewrite run_bind
    | rewrite log_naming_attempt_ok
        by (cbn [log_calls set_location append_row count_log_call]; assumption)
    | rewrite fs_relocate_run by exact Hloc
    | progress cbv beta iota
    | progress cbn [mret M_ret ret raise] ].

(** The rename in place, case by case, when its append to the log
    succeeds. *)
Lemma rename_locally_run (env : Env) (s : Session) (name new_path : string)
    (w : World) :
  log_fault env (log_calls w) = None ->
  location w = target_directory env ->
  rename_locally env s name new_path w =
  match rename_fault env with
  | None =>
      (Ok new_path,
       append_row
         (place_entry env s name "no_data_home" local_rename_success "" new_path)
         (count_log_call (set_location new_path w)))
  | Some e =>
      (Ok (target_directory env),
       append_row
         (place_entry env s name "no_data_home" rename_failed
            ("Rename error: " +:+ message_of e) (target_directory env))
         (count_log_call w))
  end.
Proof.
  intros Hlog Hloc. unfold rename_locally, try_except.
  destruct (rename_fault env) as [e|]; run_stage Hloc; reflexivity.
Qed.

Lemma truthy_path_some (name : string) :
  name <> "" -> truthy_path (Some name) = Some name.
Proof. by destruct name. Qed.

(** X18.  Nothing is done without the user's consent: when the answer to
    the last question is no, [main] exits with the directory where it was
    and the log as it was, whether DATA-HOME is in use or not and whatever
    names exist at the destination. *)
Theorem nothing_moves_without_consent (env : Env) (s : Session) (w : World)
    (name : string) :
  consent env = false ->
  new_directory_name s = Some name -> name <> "" ->
  finalize env s w = (Ok Exited, w).
Proof.
  intros Hno Hname Hne. unfold finalize.
  rewrite Hname, (truthy_path_some _ Hne), Hno. cbn [negb].
  destruct (active_root env), (truthy_path (optimal_parent_path s)) as [parent|];
    [destruct (resolve_some (existing_in env parent) name) as (k & -> & _)
    |destruct (resolve_some (existing_in env (PurePath.str (parent_dir env))) name)
       as (k & -> & _)..];
    reflexivity.
Qed.

(** A user who accepts the name and answers no to the move. *)
Lemma nothing_moves_without_consent_witness :
  let env := MoreScenarios.scenario_declined in
  exists s w,
    negotiate env (initial_world env) = (Ok (Some s), w)
    /\ new_directory_name s = Some "docNotes"
    /\ optimal_parent_path s = Some "/data/filetree/roots/documents"
    /\ finalize env s w = (Ok Exited, w)
    /\ location w = "inbox/talks".
Proof.
  cbv zeta. eexists _, _. split; [vm_compute; reflexivity|].
  split; [reflexivity|]. split; [reflexivity|]. split; [|reflexivity].
  apply (nothing_moves_without_consent MoreScenarios.scenario_declined _ _ "docNotes");
    [reflexivity | reflexivity | discriminate].
Defined.

Local Ltac one_row :=
  unfold rows_since;
  cbn [fst snd log_file location append_row count_log_call set_location];
  rewrite <-?app_assoc, drop_app_length; reflexivity.

Local Ltac finish_stage :=
  cbv beta iota; cbn [mret M_ret ret fst snd];
  (split; [done|]); (split; [done|]); one_row.

(** X19.  Without DATA-HOME integration, with the user's consent and
    when the append to the log succeeds, the directory is renamed in its
    own parent to the first free one of the names [name], [name1],
    [name2], ...; when the rename fails the directory stays where it is.
    Either way exactly one row is logged, [local_rename_success] or
    [rename_failed], with [no_data_home] as the parent and the place where
    the directory now is as the final destination.  The new path is the
    one [pathlib] gives for the parent of the target and the name. *)
Theorem local_rename_takes_first_free_name (env : Env) (s : Session) (w : World)
    (name : string) :
  log_fault env (log_calls w) = None ->
  location w = target_directory env ->
  active_root env = None \/ truthy_path (optimal_parent_path s) = None ->
  new_directory_name s = Some name -> name <> "" ->
  consent env = true ->
  exists k,
    let final_name := candidate name k in
    let new_path := path_child (parent_dir env) final_name in
    let siblings := existing_in env (PurePath.str (parent_dir env)) in
    let run := finalize env s w in
    (final_name ∉ siblings)
    /\ (forall j, j < k -> (candidate name j ∈ siblings))
    /\ (rename_fault env = None ->
        run.1 = Ok (Completed new_path)
        /\ location run.2 = new_path
        /\ rows_since w run.2
           = [place_entry env s final_name "no_data_home" local_rename_success
                "" new_path])
    /\ (forall e, rename_fault env = Some e ->
        run.1 = Ok (Completed (target_directory env))
        /\ location run.2 = target_directory env
        /\ rows_since w run.2
           = [place_entry env s final_name "no_data_home" rename_failed
                ("Rename error: " +:+ message_of e) (target_directory env)]).
Proof.
  intros Hlog Hloc Hlocal Hname Hne Hyes.
  destruct (resolve_some (existing_in env (PurePath.str (parent_dir env))) name)
    as (k & Hres & Hfree & Hbelow).
  exists k. cbv zeta. split; [done|]. split; [done|].
  assert (finalize env s w
          = (final_location ← rename_locally env s (candidate name k)
               (path_child (parent_dir env) (candidate name k));
             mret (Completed final_location)) w) as ->.
  { unfold finalize. rewrite Hname, (truthy_path_some _ Hne).
    destruct Hlocal as [-> | ->]; [|destruct (active_root env)];
      rewrite Hres, Hyes; reflexivity. }
  rewrite run_bind, (rename_locally_run env s _ _ w Hlog Hloc).
  split.
  - intros ->. finish_stage.
  - intros e ->. finish_stage.
Qed.

(** The parent already holds [docNotes]: the directory becomes
    [docNotes1], at [inbox/docNotes1] for the target [inbox/talks] and at
    [docNotes1] for the target [talks]. *)
Lemma local_rename_takes_first_free_name_witness :
  (let env := MoreScenarios.scenario_local in
   exists s w,
     negotiate env (initial_world env) = (Ok (Some s), w)
     /\ new_directory_name s = Some "docNotes"
     /\ ("docNotes" ∈ existing_in env (PurePath.str (parent_dir env)))
     /\ (finalize env s w).1 = Ok (Completed "inbox/docNotes1")
     /\ location (finalize env s w).2 = "inbox/docNotes1")
  /\ (let env := MoreScenarios.scenario_local_bare in
      exists s w,
        negotiate env (initial_world env) = (Ok (Some s), w)
        /\ location w = "talks"
        /\ (finalize env s w).1 = Ok (Completed "docNotes1")
        /\ map final_destination (rows_since w (finalize env s w).2)
           = ["docNotes1"]).
Proof.
  split; cbv zeta.
  - eexists _, _. split; [vm_compute; reflexivity|].
    split; [reflexivity|].
    split; [apply (bool_decide_unpack _); vm_compute; exact I|].
    match goal with
    | |- context [finalize ?env ?s ?w] =>
        destruct (local_rename_takes_first_free_name env s w "docNotes")
          as (k & Hfree & Hbelow & Hok & _);
          [reflexivity | reflexivity | by left | reflexivity
          | discriminate | reflexivity |]
    end.
    cbv zeta in Hfree, Hbelow, Hok.
    assert (k = 1) as ->.
    { destruct k as [|[|k]]; [|done|].
      - destruct Hfree. apply (bool_decide_unpack _). vm_compute. exact I.
      - specialize (Hbelow 1 ltac:(lia)). exfalso. revert Hbelow.
        apply (bool_decide_unpack _). vm_compute. exact I. }
    destruct (Hok eq_refl) as (Hres & Hloc & _). split; [exact Hres | exact Hloc].
  - eexists _, _. split; [vm_compute; reflexivity|].
    split_and!; vm_compute; reflexivity.
Defined.



End FinalizeFacts.

(** ** The negotiation loop: the shape of a run *)

Section LoopShapeFacts.
Import PyStr Exec ContentAnalyzer Orchestrator.

(** What the user's answer at the last attempt is logged as. *)
Lemma loop_shape (env : Env) (k : nat) :
  (forall j, log_fault env j = None) ->
  k <= max_retries ->
  (forall j, j < k -> choice env j = UserRetry) ->
  choice env k = UserAccept \/ k = max_retries ->
  forall (d : nat) (s : Session) (w : World) (fuel : nat),
    retry_count s + d = k -> d < fuel ->
    exists s' w' name rows,
      negotiation_loop fuel env s w = (Ok (Some s'), w')
      /\ retry_count s' = k
      /\ new_directory_name s' = Some name
      /\ feedback_history s'
         = feedback_history s
           ++ map (fun j => collect_user_feedback (typed_feedback env j))
                (seq (retry_count s) d)
      /\ length (generation_calls w') = length (generation_calls w) + d + 1
      /\ location w' = location w
      /\ log_file w' = log_file w ++ rows
      /\ map user_action rows
         = replicate d retry
           ++ [if choice_eqb (choice env k) UserAccept then accept
               else max_retries_reached]
      /\ map attempt_number rows = seq (retry_count s + 1) (d + 1)
      /\ map user_feedback rows
         = map (fun j => collect_user_feedback (typed_feedback env j))
             (seq (retry_count s) d) ++ [""]
      /\ last (map generated_name rows) = Some name.
Proof.
  intros Hlog Hk Hretry Hend d.
  induction d as [|d IH]; intros s w fuel Hcount Hfuel.
  - destruct fuel as [|fuel]; [lia|].
    rewrite Nat.add_0_r in Hcount. subst k.
    destruct (iteration_run env s w) as (name & parent & data & _ & _ & Hi).
    cbv zeta in Hi. rewrite (Hlog _) in Hi.
    assert (exists action,
              iteration env s w
              = (Ok (Break {| retry_count := retry_count s;
                              feedback_history := feedback_history s;
                              current_analysis_data := data;
                              new_directory_name := Some name;
                              optimal_parent_path := parent |}),
                 append_row
                   (loop_entry env
                      {| retry_count := retry_count s;
                         feedback_history := feedback_history s;
                         current_analysis_data := data;
                         new_directory_name := Some name;
                         optimal_parent_path := parent |} name action "")
                   (count_log_call
                      (add_generation_call
                         {| call_retry_count := retry_count s;
                            call_payload := data;
                            call_feedback :=
                              if retry_count s =? 0 then None
                              else Some (join " | " (feedback_history s));
                            call_history := feedback_history s |} w)))
              /\ action = if choice_eqb (choice env (retry_count s)) UserAccept
                          then accept else max_retries_reached)
      as (action & Hit & Haction).
    { destruct (choice_eqb (choice env (retry_count s)) UserAccept) eqn:Hc;
        [by exists accept|].
      destruct Hend as [Hacc | Hmax]; [by rewrite Hacc in Hc|].
      rewrite Hmax, Nat.ltb_irrefl in Hi. exists max_retries_reached.
      by rewrite Hmax. }
    rewrite (loop_break fuel env s _ w _ ltac:(lia) Hit).
    eexists _, _, name, [_]. split; [reflexivity|].
    cbn [retry_count new_directory_name feedback_history generation_calls location
           log_file append_row count_log_call add_generation_call seq map
           replicate app loop_entry user_action attempt_number user_feedback
           generated_name last].
    rewrite length_app, app_nil_r, Haction. cbn [length].
    split_and!; try done; try lia.
  - destruct fuel as [|fuel]; [lia|].
    assert (retry_count s < k) as Hlt by lia.
    destruct (iteration_retry env s w ltac:(lia) (Hretry _ Hlt) (Hlog _))
      as (name & parent & data & Hit).
    cbv zeta in Hit.
    rewrite (loop_continue fuel env s _ w _ ltac:(lia) Hit).
    match type of Hit with
    | _ = (Ok (Continue ?s2), ?w2) =>
        destruct (IH s2 w2 fuel) as (s' & w' & name' & rows & Hrun & Hrc & Hn & Hfh
                                     & Hcalls & Hloc & Hrows & Hact & Hnum & Hfb & Hlast);
          [cbn [retry_count]; lia | lia |]
    end.
    cbn [retry_count feedback_history generation_calls location log_file append_row
           count_log_call add_generation_call] in Hfh, Hcalls, Hloc, Hrows, Hnum, Hfb.
    eexists s', w', name', (_ :: rows). split; [exact Hrun|].
    split; [done|]. split; [done|].
    rewrite Hfh, Hcalls, Hloc, Hrows.
    cbn [seq map replicate app user_action attempt_number user_feedback generated_name].
    rewrite <-!app_assoc, length_app, Hact, Hnum, Hfb. cbn [length app].
    replace (retry_count s + 1 + 1) with (S (retry_count s + 1)) by lia.
    replace (retry_count s + 1) with (S (retry_count s)) by lia.
    split_and!; try done; try lia.
    destruct rows; [done|]. done.
Qed.

(** X21.  Without DATA-HOME integration, or when the first name is
    accepted (the runs in which the loop writes no debug file of a retry),
    and with a logger that works, the loop ends at the first attempt the
    user accepts, or at the fourth when none of the first three is
    accepted.  If that is attempt [k + 1], the run has made [k + 1]
    generation calls and written [k + 1] rows, numbered from 1: a row
    [retry] with the user's feedback for each attempt turned down, then
    one row [accept] (or [max_retries_reached]) without feedback for the
    name that is kept.  The history holds the [k] complaints in order, and
    the directory is still at its path: the loop neither moves nor renames
    it. *)
Theorem loop_ends_at_first_accepted_attempt (env : Env) (k : nat) :
  active_root env = None \/ k = 0 ->
  (forall j, log_fault env j = None) ->
  k <= max_retries ->
  (forall j, j < k -> choice env j = UserRetry) ->
  choice env k = UserAccept \/ k = max_retries ->
  let complaint := fun j => collect_user_feedback (typed_feedback env j) in
  let run := negotiate env (initial_world env) in
  exists s name,
    run.1 = Ok (Some s)
    /\ retry_count s = k
    /\ new_directory_name s = Some name
    /\ feedback_history s = map complaint (seq 0 k)
    /\ length (generation_calls run.2) = k + 1
    /\ location run.2 = target_directory env
    /\ map user_action (log_file run.2)
       = replicate k retry
         ++ [if choice_eqb (choice env k) UserAccept then accept
             else max_retries_reached]
    /\ map attempt_number (log_file run.2) = seq 1 (k + 1)
    /\ map user_feedback (log_file run.2) = map complaint (seq 0 k) ++ [""]
    /\ last (map generated_name (log_file run.2)) = Some name.
Proof.
  intros _ Hlog Hk Hretry Hend. cbv zeta.
  destruct (loop_shape env k Hlog Hk Hretry Hend k (initial_session env)
              (initial_world env) (S max_retries))
    as (s & w & name & rows & Hrun & Hrc & Hn & Hfh & Hcalls & Hloc & Hrows
        & Hact & Hnum & Hfb & Hlast); [reflexivity | lia |].
  unfold negotiate. rewrite Hrun. cbn [fst snd].
  cbn [initial_session initial_world retry_count feedback_history generation_calls
         location log_file app length] in Hfh, Hcalls, Hloc, Hrows, Hnum, Hfb.
  exists s, name. rewrite Hrows. split_and!; try done.
Qed.

(** A user who turns the first name down and accepts the second, in a
    run without DATA-HOME. *)
Lemma loop_ends_at_first_accepted_attempt_witness :
  let env := MoreScenarios.scenario_second_try_local in
  let run := negotiate env (initial_world env) in
  active_root env = None
  /\ (forall j, log_fault env j = None)
  /\ (forall j, j < 1 -> choice env j = UserRetry)
  /\ choice env 1 = UserAccept
  /\ map user_action (log_file run.2) = [retry; accept]
  /\ map attempt_number (log_file run.2) = [1; 2]
  /\ map user_feedback (log_file run.2) = ["too generic"; ""]
  /\ map generated_name (log_file run.2) = ["docNotes"; "transMtgBudget"].
Proof.
  cbv zeta.
  assert (forall j, log_fault MoreScenarios.scenario_second_try_local j = None)
    as Hlog by (intros j; reflexivity).
  assert (forall j, j < 1 ->
            choice MoreScenarios.scenario_second_try_local j = UserRetry)
    as Hretry by (intros [|j] Hj; [reflexivity | lia]).
  split; [reflexivity|].
  split; [exact Hlog|]. split; [exact Hretry|]. split; [reflexivity|].
  destruct (loop_ends_at_first_accepted_attempt
              MoreScenarios.scenario_second_try_local 1 (or_introl eq_refl)
              Hlog ltac:(unfold max_retries; lia) Hretry (or_introl eq_refl))
    as (s & name & _ & _ & _ & _ & _ & _ & Hact & Hnum & Hfb & _).
  split; [exact Hact|]. split; [exact Hnum|]. split; [exact Hfb|].
  vm_compute. reflexivity.
Defined.

(** The fallback name has the content type [processed], which the table
    does not know. *)
Lemma fallback_name_route (now : Date) (data_home_root : string)
    (source_path : option string) :
  determine_optimal_parent_directory (create_fallback_name now) data_home_root
    source_path
  = if is_news_transcript_source source_path
    then os_path_join data_home_root [text_documents_fragment]
    else os_path_join data_home_root ["filetree/roots/documents"].
Proof.
  unfold determine_optimal_parent_directory.
  destruct (is_news_transcript_source source_path); [done|].
  assert (leading_lowercase (create_fallback_name now) = "processed") as ->
    by reflexivity.
  reflexivity.
Qed.

(** X22.  Without an API key every attempt of the loop, the retries
    included, proposes the fallback name of the day, whatever the
    directory holds and whatever the user has answered; with DATA-HOME
    integration that name always goes to the default folder [documents],
    or to [Text Documents] for a source of the special rule. *)
Theorem without_api_key_every_candidate_is_the_fallback (env : Env) (s : Session)
    (w : World) :
  has_api_key env = false ->
  exists s' w',
    generate env s w = (Ok s', w')
    /\ new_directory_name s'
       = Some (create_fallback_name (clock env (retry_count s)))
    /\ optimal_parent_path s'
       = match active_root env with
         | None => None
         | Some root =>
             Some (if is_news_transcript_source (Some (directory_path env))
                   then os_path_join root [text_documents_fragment]
                   else os_path_join root ["filetree/roots/documents"])
         end.
Proof.
  intros Hkey. unfold generate, client_at. rewrite Hkey.
  destruct (active_root env) as [root|]; destruct (retry_count s =? 0);
    unfold generate_directory_name_and_path,
      generate_directory_name_and_path_with_feedback;
    cbn [generate_directory_name generate_directory_name_with_feedback];
    rewrite ?(validated_nonempty _ (fallback_name_validates _));
    cbn [negb]; rewrite ?fallback_name_route;
    eexists _, _; (split; [reflexivity|]); split; reflexivity.
Qed.

(** Four attempts without a key, on the first of January 2025. *)
Lemma without_api_key_every_candidate_is_the_fallback_witness :
  let env := MoreScenarios.scenario_no_key in
  let run := negotiate env (initial_world env) in
  has_api_key env = false
  /\ map generated_name (log_file run.2)
     = ["processedAudio20250101"; "processedAudio20250101";
        "processedAudio20250101"; "processedAudio20250101"]
  /\ map optimal_parent (log_file run.2)
     = ["/data/filetree/roots/documents"; "/data/filetree/roots/documents";
        "/data/filetree/roots/documents"; "/data/filetree/roots/documents"]
  /\ exists s' w',
       generate env (initial_session env) (initial_world env) = (Ok s', w')
       /\ new_directory_name s' = Some "processedAudio20250101".
Proof.
  cbv zeta. split; [reflexivity|]. split; [vm_compute; reflexivity|].
  split; [vm_compute; reflexivity|].
  destruct (without_api_key_every_candidate_is_the_fallback
              MoreScenarios.scenario_no_key
              (initial_session MoreScenarios.scenario_no_key)
              (initial_world MoreScenarios.scenario_no_key) eq_refl)
    as (s' & w' & Hg & Hn & _).
  exists s', w'. split; [exact Hg|]. rewrite Hn. vm_compute. reflexivity.
Defined.

Lemma join_nonempty (sep first : string) (others : list string) :
  first <> "" -> join sep (first :: others) <> "".
Proof.
  intros Hne. destruct first as [|c first]; [done|]. by destruct others.
Qed.

(** At the head of the loop the history holds one complaint per retry
    made, none of them empty. *)
Lemma reachable_history (env : Env) (s : Session) (w : World) :
  reachable env s w ->
  length (feedback_history s) = retry_count s
  /\ Forall (fun complaint => complaint <> "") (feedback_history s).
Proof.
  induction 1 as [|s s' w w' Hr [IHlen IHall] Hguard Hstep]; [by split|].
  destruct (iteration_run env s w) as (name & parent & data & _ & _ & Hi).
  cbn zeta in Hi. rewrite Hi in Hstep. clear Hi.
  destruct (log_fault env (log_calls w)); [discriminate|].
  destruct (choice_eqb _ _); [discriminate|].
  destruct (retry_count s <? max_retries); [|discriminate].
  injection Hstep as <- <-. cbn [feedback_history retry_count].
  rewrite length_app. cbn [length]. split; [lia|].
  apply Forall_app. split; [done|]. constructor; [|done].
  apply collect_user_feedback_nonempty.
Qed.

(** X23.  The first generation call of a run is made without feedback.
    Every later one passes the complaints collected so far, joined by
    [" | "]: there is one per retry, none is empty, so the text passed is
    not empty and the prompt of a retry always has its feedback
    section. *)
Theorem retry_calls_carry_feedback (env : Env) (s : Session) (w : World) :
  reachable env s w ->
  let combined_feedback := join " | " (feedback_history s) in
  length (feedback_history s) = retry_count s
  /\ Forall (fun complaint => complaint <> "") (feedback_history s)
  /\ (exists s' w' call,
        generate env s w = (Ok s', w')
        /\ last (generation_calls w') = Some call
        /\ call_history call = feedback_history s
        /\ call_feedback call
           = if retry_count s =? 0 then None else Some combined_feedback)
  /\ (0 < retry_count s ->
      combined_feedback <> ""
      /\ forall analysis_data,
           create_naming_prompt_with_feedback analysis_data (Some combined_feedback)
           = NamingPromptWithFeedback analysis_data (Some combined_feedback)).
Proof.
  intros Hr. cbv zeta.
  destruct (reachable_history env s w Hr) as [Hlen Hall].
  split; [done|]. split; [done|]. split.
  - destruct (generate_run env s w) as (name & parent & data & Hg & _).
    eexists _, _, _. split; [exact Hg|].
    cbn [generation_calls add_generation_call]. rewrite last_snoc.
    split; [reflexivity|]. split; reflexivity.
  - intros Hpos.
    destruct (feedback_history s) as [|first others] eqn:Hfh;
      [cbn [length] in Hlen; lia|].
    apply Forall_cons in Hall as [Hfirst _].
    pose proof (join_nonempty " | " first others Hfirst) as Hne.
    split; [done|]. intros analysis_data.
    unfold create_naming_prompt_with_feedback. cbn [truthy_opt].
    by destruct (join " | " (first :: others)).
Qed.

(** The state of the sample run after two retries. *)
Lemma retry_calls_carry_feedback_witness :
  let st := after_retries Scenarios.scenario_C 2 in
  reachable Scenarios.scenario_C st.1 st.2
  /\ retry_count st.1 = 2
  /\ feedback_history st.1 = ["too generic"; "wrong focus"]
  /\ join " | " (feedback_history st.1) <> "".
Proof.
  cbv zeta.
  pose proof (after_retries_reachable Scenarios.scenario_C 2) as Hr.
  destruct (retry_calls_carry_feedback Scenarios.scenario_C _ _ Hr)
    as (_ & _ & _ & Hpos).
  split; [exact Hr|]. split; [vm_compute; reflexivity|].
  split; [vm_compute; reflexivity|].
  apply Hpos. vm_compute. lia.
Defined.

(** X24.  A pass of the loop writes at most one row, and its action is
    [accept], [retry] or [max_retries_reached]: the action [cancel], which
    the code has a branch for, is never logged, because the prompt only
    answers accept or retry and a retry that is not granted has reached
    the limit.  A [retry] row is written below the limit only and carries
    the user's feedback; a [max_retries_reached] row is written at the
    limit only. *)
Theorem loop_never_logs_cancel (env : Env) (s : Session) (w : World) :
  exists rows,
    log_file (iteration env s w).2 = log_file w ++ rows
    /\ length rows <= 1
    /\ Forall (fun row =>
                 (user_action row = accept
                  /\ choice env (retry_count s) = UserAccept
                  /\ user_feedback row = "")
                 \/ (user_action row = retry
                     /\ choice env (retry_count s) = UserRetry
                     /\ retry_count s < max_retries
                     /\ user_feedback row
                        = collect_user_feedback (typed_feedback env (retry_count s)))
                 \/ (user_action row = max_retries_reached
                     /\ choice env (retry_count s) = UserRetry
                     /\ max_retries <= retry_count s
                     /\ user_feedback row = "")) rows
    /\ Forall (fun row => user_action row <> cancel
                          /\ attempt_number row = retry_count s + 1) rows.
Proof.
  destruct (iteration_run env s w) as (name & parent & data & _ & _ & ->).
  cbv zeta.
  destruct (log_fault env (log_calls w)).
  { exists []. cbn [snd log_file count_log_call add_generation_call].
    rewrite app_nil_r. split; [done|]. split; [cbn; lia|]. split; constructor. }
  destruct (choice env (retry_count s)) eqn:Hc; cbn [choice_eqb].
  - eexists [_]. cbn [snd log_file append_row count_log_call add_generation_call].
    split; [done|]. split; [done|].
    split; (constructor; [|constructor]); [by left | done].
  - destruct (Nat.ltb_spec (retry_count s) max_retries) as [Hlt|Hge].
    + eexists [_]. cbn [snd log_file append_row count_log_call add_generation_call].
      split; [done|]. split; [done|].
      split; (constructor; [|constructor]); [by right; left | done].
    + eexists [_]. cbn [snd log_file append_row count_log_call add_generation_call].
      split; [done|]. split; [done|].
      split; (constructor; [|constructor]); [by right; right | done].
Qed.

End LoopShapeFacts.

(** ** AudioProcessor *)

Section AudioFacts.
Import PyStr Exec ContentAnalyzer Prompts AudioProcessor.

Lemma from_last_dot_suffix (s t : string) :
  from_last_dot s = Some t -> exists before, s = before +:+ t.
Proof.
  revert t. induction s as [|c s IH]; intros t; [done|]. cbn [from_last_dot].
  destruct (from_last_dot s) as [t'|].
  - intros [= <-]. destruct (IH t' eq_refl) as [before ->]. by exists (String c before).
  - destruct (Ascii.eqb c "."); [|done]. intros [= <-]. by exists "".
Qed.

(** A name is its stem followed by its suffix, and a name with a suffix
    has a stem that is not empty. *)
Lemma stem_suffix (name : string) :
  name = stem name +:+ suffix name
  /\ (suffix name <> "" -> stem name <> "").
Proof.
  unfold stem. destruct name as [|c r]; [done|].
  cbn [suffix]. destruct (from_last_dot r) as [t|] eqn:Hdot.
  - destruct (1 <? String.length t).
    + destruct (from_last_dot_suffix r t Hdot) as [before ->].
      rewrite string_length_cons, string_length_app.
      replace (S (String.length before + String.length t) - String.length t)
        with (String.length (String c before)) by (cbn [String.length]; lia).
      change (String c (before +:+ t)) with (String c before +:+ t).
      by rewrite first_chars_app_exact.
    + cbn [String.length]. rewrite Nat.sub_0_r.
      rewrite (first_chars_all _ (String c r)) by done.
      by rewrite string_app_empty_r.
  - cbn [String.length]. rewrite Nat.sub_0_r.
    rewrite (first_chars_all _ (String c r)) by done.
    by rewrite string_app_empty_r.
Qed.

Lemma from_last_dot_none_app (s : string) :
  from_last_dot s = None ->
  forall c, from_last_dot (String c s) = if Ascii.eqb c "." then Some (String c s) else None.
Proof. intros H c. cbn [from_last_dot]. by rewrite H. Qed.

(** The part from the last dot on, of a text that ends in a dot followed
    by characters other than dots. *)
Lemma from_last_dot_app (s x : string) :
  from_last_dot x = None ->
  from_last_dot (s +:+ String "." x) = Some (String "." x).
Proof.
  intros Hx. induction s as [|c s IH].
  - change ("" +:+ String "." x) with (String "." x).
    by rewrite (from_last_dot_none_app x Hx).
  - change (String c s +:+ String "." x) with (String c (s +:+ String "." x)).
    cbn [from_last_dot]. by rewrite IH.
Qed.

Lemma lower_char_dot (c : ascii) : Ascii.eqb (lower_char c) "." = Ascii.eqb c ".".
Proof. destruct c as [[] [] [] [] [] [] [] []]; reflexivity. Qed.

Lemma from_last_dot_lower (s : string) :
  from_last_dot (lower s) = lower <$> from_last_dot s.
Proof.
  induction s as [|c s IH]; [done|].
  change (lower (String c s)) with (String (lower_char c) (lower s)).
  cbn [from_last_dot]. rewrite IH, lower_char_dot.
  destruct (from_last_dot s); [done|]. by destruct (Ascii.eqb c ".").
Qed.

(** Lowercasing commutes with taking the suffix. *)
Lemma suffix_lower (name : string) : suffix (lower name) = lower (suffix name).
Proof.
  destruct name as [|c r]; [done|].
  change (lower (String c r)) with (String (lower_char c) (lower r)).
  cbn [suffix]. rewrite from_last_dot_lower.
  destruct (from_last_dot r) as [t|]; [|done]. cbn [fmap option_fmap option_map].
  unfold lower at 1. rewrite map_chars_length. by destruct (1 <? String.length t).
Qed.

(** The audio extensions begin with their only dot and have something
    after it. *)
Lemma audio_extension_form (extension : string) :
  extension ∈ audio_extensions ->
  extension <> ""
  /\ exists x, extension = String "." x /\ from_last_dot x = None /\ x <> "".
Proof.
  unfold audio_extensions. rewrite elem_of_list_to_set, !elem_of_cons, elem_of_nil.
  intros [-> | [-> | [-> | [-> | [-> | [-> | [-> | []]]]]]]];
    (split; [done|]); eexists; (split; [reflexivity|]); split; done.
Qed.

Lemma suffix_of_stem_extension (stem_part extension : string) :
  stem_part <> "" -> extension ∈ audio_extensions ->
  suffix (stem_part +:+ extension) = extension.
Proof.
  intros Hstem (_ & x & -> & Hx & Hne)%audio_extension_form.
  destruct stem_part as [|c s]; [done|].
  change (String c s +:+ String "." x) with (String c (s +:+ String "." x)).
  cbn [suffix]. rewrite (from_last_dot_app s x Hx).
  destruct x; [done | reflexivity].
Qed.

Lemma is_audio_iff (file_path : Node) :
  is_audio file_path = true
  <-> exists name size content stem_part extension,
        file_path = File name size content
        /\ name = stem_part +:+ extension
        /\ stem_part <> ""
        /\ lower extension ∈ audio_extensions.
Proof.
  unfold is_audio. split.
  - intros [Hfile Hext]%andb_true_iff. apply bool_decide_eq_true in Hext.
    destruct file_path as [name size content | |]; try done.
    cbn [node_name] in Hext.
    destruct (stem_suffix name) as [Hname Hstem].
    exists name, size, content, (stem name), (suffix name).
    split; [done|]. split; [done|]. split; [|done].
    apply Hstem. intros Hs. rewrite Hs in Hext.
    by apply audio_extension_form in Hext as [? _].
  - intros (name & size & content & stem_part & extension & -> & -> & Hstem & Hext).
    cbn [is_file node_name andb]. apply bool_decide_eq_true.
    rewrite <-suffix_lower, lower_app.
    rewrite suffix_of_stem_extension; [done | | done].
    destruct stem_part; done.
Qed.

(** X25.  [detect_audio_files] returns, in the order of the listing, the
    regular files whose name ends in one of the seven audio extensions,
    in any letter case, after a stem that is not empty: directories are
    left out, and so is a file named by an extension alone, like
    [.mp3].  A directory that does not exist raises instead. *)
Theorem audio_files_detected_by_extension (directory : string) (items : list Node) :
  (exists audio_files,
     detect_audio_files directory (Listing items) = Ok audio_files
     /\ sublist audio_files (map node_name items)
     /\ forall name,
          name ∈ audio_files
          <-> exists size content stem_part extension,
                File name size content ∈ items
                /\ name = stem_part +:+ extension
                /\ stem_part <> ""
                /\ lower extension ∈ audio_extensions)
  /\ detect_audio_files directory Missing
     = Raised (OSError ("Directory " +:+ directory +:+ " does not exist"))
  /\ detect_audio_files directory (Listing [File ".mp3" None None; Dir "a.mp3" None])
     = Ok [].
Proof.
  split; [|split; reflexivity].
  eexists. split; [reflexivity|]. split.
  - apply (fmap_sublist node_name), sublist_filter.
  - intros name. split.
    + intros (file_path & -> & [Haudio Hin]%list_elem_of_filter)%list_elem_of_fmap.
      apply Is_true_true, is_audio_iff in Haudio
        as (n & size & content & stem_part & extension & -> & Hn & Hstem & Hext).
      by exists size, content, stem_part, extension.
    + intros (size & content & stem_part & extension & Hin & Hn & Hstem & Hext).
      apply list_elem_of_fmap. exists (File name size content). split; [done|].
      apply list_elem_of_filter. split; [|done].
      apply Is_true_true, is_audio_iff.
      by exists name, size, content, stem_part, extension.
Qed.

Lemma after_events_nil (w : Studio) : after_events w [] (stdin w) = w.
Proof. destruct w as [evs lines]. unfold after_events. cbn. by rewrite app_nil_r. Qed.

Lemma after_events_app (w : Studio) (a b : list Event) (lines lines' : list string) :
  after_events (after_events w a lines) b lines' = after_events w (a ++ b) lines'.
Proof. unfold after_events. cbn [events stdin]. by rewrite app_assoc. Qed.

(** The loop over the files makes the calls of the files in turn. *)
Lemma process_files_perform_all (out : Outside) (audio_files : list string)
    (w : Studio) :
  process_files out audio_files w
  = perform_all out (flat_map (file_events out) audio_files) w.
Proof.
  revert w. induction audio_files as [|audio_file rest IH]; intros w; [done|].
  cbn [process_files flat_map]. unfold save_transcription, move_audio_file.
  unfold file_events at 1.
  destruct (truthy (transcribe_audio out audio_file)); cbn [app perform_all].
  - rewrite !run_bind. destruct (perform out _ w) as [[[]|e] w1]; [|reflexivity].
    rewrite !run_bind. destruct (perform out _ w1) as [[[]|e] w2]; [|reflexivity].
    apply IH.
  - rewrite !run_bind. cbn [mret M_ret ret]. cbv beta iota.
    rewrite !run_bind. destruct (perform out _ w) as [[[]|e] w1]; [|reflexivity].
    apply IH.
Qed.

(** A list of calls made from [w]: all of them take effect when none
    fails, and when one fails the calls before it have taken effect and
    the others are not made. *)
Lemma perform_all_run (out : Outside) (evs : list Event) (w : Studio) :
  (calls_succeed out w (length evs) ->
   perform_all out evs w = (Ok tt, after_events w evs (stdin w)))
  /\ (forall k e,
        k < length evs -> calls_succeed out w k ->
        io_fault out (length (events w) + k) = Some e ->
        perform_all out evs w = (Raised e, after_events w (take k evs) (stdin w))).
Proof.
  revert w. induction evs as [|ev evs IH]; intros w.
  { split; [intros _; by rewrite after_events_nil | intros k e Hk; cbn in Hk; lia]. }
  assert (forall k, calls_succeed out w (S k) ->
            perform out ev w = (Ok tt, after_events w [ev] (stdin w))
            /\ calls_succeed out (after_events w [ev] (stdin w)) k) as Hstep.
  { intros k Hall. split.
    - unfold perform. specialize (Hall 0 ltac:(lia)). rewrite Nat.add_0_r in Hall.
      by rewrite Hall.
    - intros j Hj. cbn [after_events events]. rewrite length_app. cbn [length].
      specialize (Hall (S j) ltac:(lia)).
      by replace (length (events w) + 1 + j) with (length (events w) + S j) by lia. }
  destruct (IH (after_events w [ev] (stdin w))) as [IHok IHfault].
  cbn [perform_all]. rewrite !run_bind. split.
  - intros Hall. destruct (Hstep _ Hall) as [-> Hrest].
    rewrite (IHok Hrest). by rewrite after_events_app.
  - intros [|k] e Hk Hbefore Hfault.
    + unfold perform. rewrite Nat.add_0_r in Hfault. rewrite Hfault.
      cbn [take]. by rewrite after_events_nil.
    + destruct (Hstep _ Hbefore) as [-> Hrest].
      rewrite (IHfault k e); [by rewrite after_events_app | | done |].
      * cbn [length] in Hk. lia.
      * cbn [after_events events]. rewrite length_app. cbn [length].
        by replace (length (events w) + 1 + k) with (length (events w) + S k) by lia.
Qed.

(** Either the calls all succeed or there is a first one that fails. *)
Lemma first_failing_call (out : Outside) (evs : list Event) (w : Studio) :
  calls_succeed out w (length evs)
  \/ exists k e,
       k < length evs /\ calls_succeed out w k
       /\ io_fault out (length (events w) + k) = Some e.
Proof.
  generalize (length evs). intros n. induction n as [|n [IH | (k & e & Hk & Hb & Hf)]].
  - left. intros j Hj. lia.
  - destruct (io_fault out (length (events w) + n)) as [e|] eqn:Hn.
    + right. exists n, e. split; [lia|]. done.
    + left. intros j Hj. destruct (decide (j = n)) as [->|]; [done|].
      apply IH. lia.
  - right. exists k, e. split; [lia|]. done.
Qed.

(** [process_directory] once the files are found and the user has said
    yes: the directory is made and the files are processed, and whatever
    is raised is turned into [None]. *)
Lemma process_directory_proceeds (out : Outside) (directory : string)
    (state : DirState) (w : Studio) (audio_files rest : list string) :
  detect_audio_files directory state = Ok audio_files ->
  audio_files <> [] ->
  yes_no_loop (stdin w) = Some (true, rest) ->
  process_directory out directory state w
  = match perform_all out (planned_events out audio_files)
            (after_events w [] rest) with
    | (Ok _, w') => (Ok (Some "transcribed_audio"), w')
    | (Raised _, w') => (Ok None, w')
    end.
Proof.
  intros Hdetect Hne Hyes.
  unfold process_directory, try_except. rewrite run_bind.
  unfold lift_result at 1. rewrite Hdetect.
  destruct audio_files as [|first others]; [done|].
  rewrite run_bind. unfold prompt_user_for_transcription at 1. rewrite Hyes.
  cbn [negb]. unfold create_subdirectory. rewrite !run_bind.
  unfold planned_events. cbn [perform_all]. rewrite run_bind.
  assert ({| events := events w; stdin := rest |} = after_events w [] rest) as ->
    by (unfold after_events; by rewrite app_nil_r).
  destruct (perform out (Mkdir "transcribed_audio") (after_events w [] rest))
    as [[[]|e] w1]; [|reflexivity].
  cbn [mret M_ret ret]. cbv beta iota. rewrite run_bind.
  rewrite process_files_perform_all.
  by destruct (perform_all out _ w1) as [[[]|e] w2].
Qed.

Lemma moved_files_app (a b : list Event) :
  moved_files (a ++ b) = moved_files a ++ moved_files b.
Proof. unfold moved_files. by rewrite flat_map_app. Qed.

Lemma moved_files_planned (out : Outside) (audio_files : list string) :
  moved_files (flat_map (file_events out) audio_files) = audio_files.
Proof.
  induction audio_files as [|audio_file rest IH]; [done|].
  cbn [flat_map]. rewrite moved_files_app, IH. unfold file_events.
  by destruct (truthy (transcribe_audio out audio_file)).
Qed.

Lemma moved_files_partial (out : Outside) (audio_files : list string) (k : nat) :
  moved_files (take k (flat_map (file_events out) audio_files))
  `prefix_of` audio_files.
Proof.
  revert k. induction audio_files as [|audio_file rest IH]; intros k.
  - cbn [flat_map]. by rewrite take_nil.
  - cbn [flat_map]. rewrite take_app, moved_files_app.
    destruct (decide (k < length (file_events out audio_file))) as [Hk|Hk].
    + replace (k - length (file_events out audio_file)) with 0 by lia.
      rewrite take_0. cbn [moved_files flat_map]. rewrite app_nil_r.
      assert (moved_files (take k (file_events out audio_file)) = []) as ->;
        [|apply prefix_nil].
      unfold file_events in *.
      destruct (truthy (transcribe_audio out audio_file)); cbn [app length] in Hk |- *.
      * destruct k as [|[|k]]; [done | done | lia].
      * destruct k as [|k]; [done | lia].
    + rewrite take_ge by lia.
      assert (moved_files (file_events out audio_file) = [audio_file]) as ->.
      { unfold file_events. by destruct (truthy (transcribe_audio out audio_file)). }
      cbn [app]. apply prefix_cons, IH.
Qed.

(** X26.  When audio files are found, the user says yes and no call
    fails, [process_directory] makes the sub-directory
    [transcribed_audio] first and then, for each audio file in the order
    of the listing, writes the transcript [<stem>_transcript.txt] when
    Whisper returned a text that is not empty and moves the file: every
    file found is moved exactly once, also when its transcription failed,
    and the name of the sub-directory is returned. *)
Theorem audio_files_all_moved (out : Outside) (directory : string)
    (state : DirState) (w : Studio) (audio_files rest : list string) :
  detect_audio_files directory state = Ok audio_files ->
  audio_files <> [] ->
  yes_no_loop (stdin w) = Some (true, rest) ->
  calls_succeed out w (length (planned_events out audio_files)) ->
  process_directory out directory state w
  = (Ok (Some "transcribed_audio"),
     after_events w (planned_events out audio_files) rest)
  /\ head (planned_events out audio_files) = Some (Mkdir "transcribed_audio")
  /\ moved_files (planned_events out audio_files) = audio_files
  /\ saved_transcripts (planned_events out audio_files)
     = flat_map (fun audio_file =>
                   if truthy (transcribe_audio out audio_file)
                   then [(stem audio_file +:+ "_transcript.txt",
                          transcribe_audio out audio_file)]
                   else []) audio_files.
Proof.
  intros Hdetect Hne Hyes Hcalls.
  rewrite (process_directory_proceeds out directory state w audio_files rest
             Hdetect Hne Hyes).
  destruct (perform_all_run out (planned_events out audio_files)
              (after_events w [] rest)) as [Hok _].
  rewrite Hok.
  - rewrite after_events_app. split; [done|]. split; [done|]. split.
    + unfold planned_events. change (moved_files (?x :: ?l)) with (moved_files l).
      apply moved_files_planned.
    + unfold planned_events, saved_transcripts. cbn [flat_map app].
      clear. induction audio_files as [|audio_file others IH]; [done|].
      cbn [flat_map]. rewrite flat_map_app, IH. unfold file_events.
      by destruct (truthy (transcribe_audio out audio_file)).
  - intros j Hj. cbn [after_events events]. rewrite app_nil_r. by apply Hcalls.
Qed.

(** Two audio files of which Whisper transcribes the first only. *)
Lemma audio_files_all_moved_witness :
  let out := MoreScenarios.studio_outside (fun _ => None) in
  let w := MoreScenarios.studio_start in
  detect_audio_files "inbox" (Listing MoreScenarios.studio_listing)
  = Ok ["talk.mp3"; "song.WAV"]
  /\ yes_no_loop (stdin w) = Some (true, [])
  /\ process_directory out "inbox" (Listing MoreScenarios.studio_listing) w
     = (Ok (Some "transcribed_audio"),
        {| events := [ Mkdir "transcribed_audio";
                       SaveTranscript "talk_transcript.txt" "hello";
                       MoveAudio "talk.mp3";
                       MoveAudio "song.WAV" ];
           stdin := [] |}).
Proof.
  cbv zeta.
  assert (detect_audio_files "inbox" (Listing MoreScenarios.studio_listing)
          = Ok ["talk.mp3"; "song.WAV"]) as Hdetect by (vm_compute; reflexivity).
  assert (yes_no_loop (stdin MoreScenarios.studio_start) = Some (true, [])) as Hyes
    by (vm_compute; reflexivity).
  split; [exact Hdetect|]. split; [exact Hyes|].
  destruct (audio_files_all_moved (MoreScenarios.studio_outside (fun _ => None))
              "inbox" (Listing MoreScenarios.studio_listing)
              MoreScenarios.studio_start ["talk.mp3"; "song.WAV"] []
              Hdetect ltac:(discriminate) Hyes ltac:(intros j Hj; reflexivity))
    as [-> _].
  vm_compute. reflexivity.
Defined.

(** X27.  When a call fails (the sub-directory cannot be made, a
    transcript cannot be written, a file cannot be moved),
    [process_directory] returns [None] as if no audio had been found, and
    nothing is undone: the calls made before the failure have taken
    effect, so the files moved so far, the first ones of the listing, stay
    in the sub-directory. *)
Theorem failed_call_leaves_partial_work (out : Outside) (directory : string)
    (state : DirState) (w : Studio) (audio_files rest : list string)
    (k : nat) (e : Exn) :
  detect_audio_files directory state = Ok audio_files ->
  audio_files <> [] ->
  yes_no_loop (stdin w) = Some (true, rest) ->
  k < length (planned_events out audio_files) ->
  calls_succeed out w k ->
  io_fault out (length (events w) + k) = Some e ->
  let done_before := take k (planned_events out audio_files) in
  process_directory out directory state w = (Ok None, after_events w done_before rest)
  /\ moved_files done_before `prefix_of` audio_files.
Proof.
  intros Hdetect Hne Hyes Hk Hcalls Hfault. cbv zeta.
  rewrite (process_directory_proceeds out directory state w audio_files rest
             Hdetect Hne Hyes).
  destruct (perform_all_run out (planned_events out audio_files)
              (after_events w [] rest)) as [_ Hfail].
  rewrite (Hfail k e).
  - rewrite after_events_app. split; [done|].
    unfold planned_events. destruct k as [|k]; [apply prefix_nil|].
    cbn [take]. change (moved_files (?x :: ?l)) with (moved_files l).
    apply moved_files_partial.
  - done.
  - intros j Hj. cbn [after_events events]. rewrite app_nil_r. by apply Hcalls.
  - cbn [after_events events]. by rewrite app_nil_r.
Qed.

(** The first move fails: the sub-directory and the transcript stay. *)
Lemma failed_call_leaves_partial_work_witness :
  let fault := fun k => if k =? 2 then Some (OSError "Permission denied") else None in
  let out := MoreScenarios.studio_outside fault in
  let w := MoreScenarios.studio_start in
  calls_succeed out w 2
  /\ io_fault out (length (events w) + 2) = Some (OSError "Permission denied")
  /\ process_directory out "inbox" (Listing MoreScenarios.studio_listing) w
     = (Ok None,
        {| events := [ Mkdir "transcribed_audio";
                       SaveTranscript "talk_transcript.txt" "hello" ];
           stdin := [] |}).
Proof.
  cbv zeta.
  set (out := MoreScenarios.studio_outside
                (fun k => if k =? 2 then Some (OSError "Permission denied") else None)).
  assert (calls_succeed out MoreScenarios.studio_start 2) as Hcalls
    by (intros [|[|j]] Hj; [reflexivity | reflexivity | lia]).
  split; [exact Hcalls|]. split; [reflexivity|].
  destruct (failed_call_leaves_partial_work out "inbox"
              (Listing MoreScenarios.studio_listing) MoreScenarios.studio_start
              ["talk.mp3"; "song.WAV"] [] 2 (OSError "Permission denied"))
    as [-> _];
    [vm_compute; reflexivity | discriminate | vm_compute; reflexivity
    | vm_compute; lia | exact Hcalls | reflexivity |].
  vm_compute. reflexivity.
Defined.

(** X28.  [process_directory] never raises.  It returns [None] without
    touching anything and without asking when the directory is missing
    or cannot be listed or holds no audio file, and without touching
    anything when the user declines or the input ends; whatever happens,
    the changes already made are kept. *)
Theorem process_directory_never_raises (out : Outside) (directory : string)
    (state : DirState) (w : Studio) :
  let run := process_directory out directory state w in
  (exists result, run.1 = Ok result)
  /\ (exists made, events run.2 = events w ++ made)
  /\ (detect_audio_files directory state = Ok [] -> run = (Ok None, w))
  /\ (forall e, detect_audio_files directory state = Raised e -> run = (Ok None, w))
  /\ (forall audio_files, detect_audio_files directory state = Ok audio_files ->
      audio_files <> [] ->
      (forall rest, yes_no_loop (stdin w) = Some (false, rest) ->
         run = (Ok None, after_events w [] rest))
      /\ (yes_no_loop (stdin w) = None -> run = (Ok None, after_events w [] []))).
Proof.
  cbv zeta.
  assert (forall lines, {| events := events w; stdin := lines |} = after_events w [] lines)
    as Hsame by (intros lines; unfold after_events; by rewrite app_nil_r).
  destruct (detect_audio_files directory state) as [audio_files|e0] eqn:Hdetect.
  - destruct audio_files as [|first others].
    { assert (process_directory out directory state w = (Ok None, w)) as ->.
      { unfold process_directory, try_except. rewrite run_bind.
        unfold lift_result. by rewrite Hdetect. }
      split; [by eexists|]. split; [exists []; by rewrite app_nil_r|].
      split; [done|]. split; [done|]. intros audio_files [= <-]. done. }
    destruct (yes_no_loop (stdin w)) as [[[] rest]|] eqn:Hloop.
    + rewrite (process_directory_proceeds out directory state w (first :: others) rest
                 Hdetect ltac:(done) Hloop).
      destruct (first_failing_call out (planned_events out (first :: others))
                  (after_events w [] rest)) as [Hall | (k & e & Hk & Hbefore & Hfault)].
      * destruct (perform_all_run out (planned_events out (first :: others))
                    (after_events w [] rest)) as [Hok _].
        rewrite (Hok Hall). cbn [fst snd after_events events].
        split; [by eexists|]. split; [eexists; by rewrite app_nil_r|].
        split; [done|]. split; [done|]. intros audio_files [= <-] _. split; done.
      * destruct (perform_all_run out (planned_events out (first :: others))
                    (after_events w [] rest)) as [_ Hfail].
        rewrite (Hfail k e Hk Hbefore Hfault). cbn [fst snd after_events events].
        split; [by eexists|]. split; [eexists; by rewrite app_nil_r|].
        split; [done|]. split; [done|]. intros audio_files [= <-] _. split; done.
    + assert (process_directory out directory state w
              = (Ok None, after_events w [] rest)) as ->.
      { unfold process_directory, try_except. rewrite run_bind.
        unfold lift_result. rewrite Hdetect. rewrite run_bind.
        unfold prompt_user_for_transcription. by rewrite Hloop, Hsame. }
      cbn [fst snd after_events events].
      split; [by eexists|]. split; [by eexists|].
      split; [done|]. split; [done|]. intros audio_files [= <-] _.
      split; [by intros rest' [= <-] | done].
    + assert (process_directory out directory state w
              = (Ok None, after_events w [] [])) as ->.
      { unfold process_directory, try_except. rewrite run_bind.
        unfold lift_result. rewrite Hdetect. rewrite run_bind.
        unfold prompt_user_for_transcription. by rewrite Hloop, Hsame. }
      cbn [fst snd after_events events].
      split; [by eexists|]. split; [by eexists|].
      split; [done|]. split; [done|]. intros audio_files [= <-] _.
      split; [done | done].
  - assert (process_directory out directory state w = (Ok None, w)) as ->.
    { unfold process_directory, try_except. rewrite run_bind.
      unfold lift_result. by rewrite Hdetect. }
    split; [by eexists|]. split; [exists []; by rewrite app_nil_r|].
    split; [done|]. split; [done|]. done.
Qed.

End AudioFacts.

(** ** SessionClock *)

Section SessionFacts.
Import PyStr NamingClient SessionClock.








End SessionFacts.
